(** * winscp_manager.scheduler: the task scheduling engine

    A shallow embedding of [src/winscp_manager/scheduler.py]
    ([TaskType], [TaskStatus], [ScheduledTask], [TaskScheduler]) and the
    properties of its scan, execution, persistence and removal paths.

    Conventions of the embedding.
    - A [datetime] is a naive timestamp, counted in microseconds from
      0001-01-01T00:00:00 (the resolution and the origin of Python's type);
      [d + timedelta(minutes=m)] raises when it leaves the range of the
      type, as in Python. The clock gives naive timestamps; the attributes
      of a task hold a [timestamp], which is naive or aware of a UTC
      offset, as [datetime.fromisoformat] may return either.
    - A text is the UTF-8 encoding of the Python [str]: equality,
      concatenation and [startswith] are those of the bytes; a slice and an
      iteration go by characters ([str_chars]).
    - An exception is represented by its text, [str(e)]: every handler of
      the module is [except Exception as e] and only formats [str(e)].
      The exceptions are those of class [Exception]; [KeyboardInterrupt]
      and [SystemExit], which no handler of the module catches, are not
      represented.
    - Effects (the clock, the tasks file, the logger, the executor's remote
      side, the scheduler object itself) are threaded through one [State]
      by a state-and-exception monad [M]; a raise keeps the mutations made
      before it, as in Python.
    - [self.tasks] is a [dict]: an association list in insertion order.
      A task object is designated by the key of its slot; attribute
      assignments update the slot in place, so the snapshot the scan
      iterates over and the store share their objects.
    - The scheduler thread is followed alone: calls of the facade made by
      other threads while a scan runs are outside the embedding. *)

From Stdlib Require Import String Ascii ZArith List Bool Lia DecimalString DecimalZ.
Import ListNotations.
Local Open Scope string_scope.
Local Open Scope Z_scope.
Set Warnings "-register-all".

(** ** Results and exceptions *)

Inductive Result (A : Type) : Type :=
| Ok (a : A)
| Raise (msg : string).
Arguments Ok {A} a.
Arguments Raise {A} msg.

(** ** Enumerations *)

Inductive TaskType : Type := UPLOAD | DOWNLOAD | DELETE.

Inductive TaskStatus : Type := PENDING | RUNNING | COMPLETED | FAILED | CANCELLED.

Definition TaskType_value (t : TaskType) : string :=
  match t with
  | UPLOAD => "upload"
  | DOWNLOAD => "download"
  | DELETE => "delete"
  end.

Definition TaskStatus_value (s : TaskStatus) : string :=
  match s with
  | PENDING => "pending"
  | RUNNING => "running"
  | COMPLETED => "completed"
  | FAILED => "failed"
  | CANCELLED => "cancelled"
  end.

Definition TaskStatus_eqb (a b : TaskStatus) : bool :=
  match a, b with
  | PENDING, PENDING | RUNNING, RUNNING | COMPLETED, COMPLETED
  | FAILED, FAILED | CANCELLED, CANCELLED => true
  | _, _ => false
  end.

(** ** Timestamps *)

Definition datetime : Type := Z.

(** A [datetime] object as a task holds one: offset-naive, as
    [datetime.now()] returns them, or aware of a UTC offset (in
    microseconds), as [datetime.fromisoformat] returns for a text that ends
    in one. *)
Inductive timestamp : Type :=
| Naive (d : datetime)
| Aware (d : datetime) (utcoffset : Z).

(** [datetime.max], 9999-12-31T23:59:59.999999, in microseconds from
    [datetime.min]: 3652059 days of 86400000000 microseconds, less one. *)
Definition datetime_max : Z := 315537897599999999.

(** Largest number of days a [timedelta] holds. *)
Definition timedelta_max_days : Z := 999999999.

(** ** JSON documents, as [json.load] returns them

    Numbers are integers: the module writes no float. An object is the
    [dict] it loads as, with one entry per key. *)

Inductive json : Type :=
| JNull
| JBool (b : bool)
| JInt (z : Z)
| JStr (s : string)
| JList (items : list json)
| JObj (fields : list (string * json)).

(** ** The task record *)

Record ScheduledTask : Type := mkTask {
  task_id : string;
  task_type : TaskType;
  source_path : string;
  dest_path : string;
  scheduled_time : timestamp;
  recurring : bool;
  interval_minutes : Z;
  status : TaskStatus;
  last_run : option timestamp;
  next_run : option timestamp;
  error_message : string
}.

Definition with_status (s : TaskStatus) (t : ScheduledTask) : ScheduledTask :=
  mkTask (task_id t) (task_type t) (source_path t) (dest_path t)
         (scheduled_time t) (recurring t) (interval_minutes t)
         s (last_run t) (next_run t) (error_message t).

Definition with_last_run (d : option timestamp) (t : ScheduledTask) : ScheduledTask :=
  mkTask (task_id t) (task_type t) (source_path t) (dest_path t)
         (scheduled_time t) (recurring t) (interval_minutes t)
         (status t) d (next_run t) (error_message t).

Definition with_next_run (d : option timestamp) (t : ScheduledTask) : ScheduledTask :=
  mkTask (task_id t) (task_type t) (source_path t) (dest_path t)
         (scheduled_time t) (recurring t) (interval_minutes t)
         (status t) (last_run t) d (error_message t).

Definition with_error_message (e : string) (t : ScheduledTask) : ScheduledTask :=
  mkTask (task_id t) (task_type t) (source_path t) (dest_path t)
         (scheduled_time t) (recurring t) (interval_minutes t)
         (status t) (last_run t) (next_run t) e.

(** ** Python dictionaries in insertion order *)

Module Dict.
Section Ops.
Context {V : Type}.

Definition t : Type := list (string * V).

(** [d.get(k)] *)
Fixpoint get (k : string) (d : t) : option V :=
  match d with
  | [] => None
  | (k', v) :: rest => if String.eqb k k' then Some v else get k rest
  end.

(** [k in d] *)
Definition mem (k : string) (d : t) : bool :=
  match get k d with Some _ => true | None => false end.

(** [d[k] = v]: an existing key keeps its position, a new one goes last. *)
Fixpoint set (k : string) (v : V) (d : t) : t :=
  match d with
  | [] => [(k, v)]
  | (k', v') :: rest =>
      if String.eqb k k' then (k', v) :: rest else (k', v') :: set k v rest
  end.

(** [del d[k]] *)
Fixpoint del (k : string) (d : t) : t :=
  match d with
  | [] => []
  | (k', v') :: rest =>
      if String.eqb k k' then rest else (k', v') :: del k rest
  end.

(** In-place mutation of the object stored under [k]; nothing happens
    when no slot has that key. *)
Fixpoint modify (k : string) (f : V -> V) (d : t) : t :=
  match d with
  | [] => []
  | (k', v') :: rest =>
      if String.eqb k k' then (k', f v') :: rest else (k', v') :: modify k f rest
  end.

Definition keys (d : t) : list string := map fst d.

(** [d.values()] *)
Definition values (d : t) : list V := map snd d.
End Ops.
Arguments t V : clear implicits.
End Dict.

(** ** The platform: clock, datetime texts, the executor's remote side *)

Class Platform : Type := {
  (** state of whatever the executor acts on (connection, remote files) *)
  World : Type;
  (** [clock n] is what the [n]-th call of [datetime.now()] returns *)
  clock : nat -> datetime;
  (** [d.isoformat()] *)
  isoformat : timestamp -> string;
  (** [datetime.fromisoformat(s)]; raises on a malformed text *)
  fromisoformat : string -> Result timestamp;
  (** [str(d)], as an f-string renders a datetime *)
  datetime_str : datetime -> string;
  (** text of the [OverflowError] of [d + timedelta(minutes=m)] *)
  overflow_text : datetime -> Z -> string;
  (** [repr(v)] of a loaded JSON value, as error texts quote it *)
  repr : json -> string
}.

(** What the library guarantees of the two conversions: a printed
    datetime, naive or aware, parses back to itself, and is never the
    empty text. *)
Class PlatformLaws (P : Platform) : Prop := {
  fromisoformat_isoformat : forall d, fromisoformat (isoformat d) = Ok d;
  isoformat_nonempty : forall d, isoformat d <> ""
}.

(** ** The state threaded through the module *)

Inductive LogRecord : Type :=
| INFO (msg : string)
| WARNING (msg : string)
| ERROR (msg : string).

(** What the path [self.tasks_file] holds, when it exists: something
    [open] or [json.load] rejects with the given error, or a document. *)
Inductive FileContent : Type :=
| Unreadable (err : string)
| Document (doc : json).

(** How a write of the tasks file fails: [open(path, 'w')] raises, and
    the file is as it was; or the open succeeds, truncating the file, and
    [json.dump] (or the close) raises, leaving in the file whatever had
    reached it. *)
Inductive WriteFault : Type :=
| OpenFails (e : string)
| DumpFails (e : string) (remains : FileContent).

Section Model.
Context {P : Platform}.

(** The executor contract: a callable taking the task and answering a
    truth value, or raising. It may change the remote side; it does not
    assign to the task or to the scheduler (the executors of [console.py]
    and [gui.py] only read the task). *)
Definition Executor : Type := ScheduledTask -> World -> Result bool * World.

Record State : Type := mkState {
  (** [self.tasks] *)
  tasks : Dict.t ScheduledTask;
  (** [self.running] *)
  running : bool;
  (** [self.task_executor] *)
  task_executor : option Executor;
  (** number of [datetime.now()] calls made so far *)
  ticks : nat;
  (** the file at [self.tasks_file]; [None] when the path does not exist *)
  tasks_file : option FileContent;
  (** how writing the file fails, when it does *)
  write_error : option WriteFault;
  (** what [self.logger] has emitted, oldest first *)
  log : list LogRecord;
  (** the executor's remote side *)
  world : World;
  (** seconds spent in [time.sleep] *)
  slept : Z;
  (** history variable, read by no function: the slot keys of the tasks
      [_execute_task] was entered with, oldest first *)
  entered : list string
}.

Definition set_tasks (d : Dict.t ScheduledTask) (st : State) : State :=
  mkState d (running st) (task_executor st) (ticks st) (tasks_file st)
          (write_error st) (log st) (world st) (slept st) (entered st).

Definition set_running (b : bool) (st : State) : State :=
  mkState (tasks st) b (task_executor st) (ticks st) (tasks_file st)
          (write_error st) (log st) (world st) (slept st) (entered st).

Definition set_executor (e : option Executor) (st : State) : State :=
  mkState (tasks st) (running st) e (ticks st) (tasks_file st)
          (write_error st) (log st) (world st) (slept st) (entered st).

Definition set_ticks (n : nat) (st : State) : State :=
  mkState (tasks st) (running st) (task_executor st) n (tasks_file st)
          (write_error st) (log st) (world st) (slept st) (entered st).

Definition set_tasks_file (f : option FileContent) (st : State) : State :=
  mkState (tasks st) (running st) (task_executor st) (ticks st) f
          (write_error st) (log st) (world st) (slept st) (entered st).

Definition set_log (l : list LogRecord) (st : State) : State :=
  mkState (tasks st) (running st) (task_executor st) (ticks st) (tasks_file st)
          (write_error st) l (world st) (slept st) (entered st).

Definition set_world (w : World) (st : State) : State :=
  mkState (tasks st) (running st) (task_executor st) (ticks st) (tasks_file st)
          (write_error st) (log st) w (slept st) (entered st).

Definition set_slept (z : Z) (st : State) : State :=
  mkState (tasks st) (running st) (task_executor st) (ticks st) (tasks_file st)
          (write_error st) (log st) (world st) z (entered st).

Definition set_entered (l : list string) (st : State) : State :=
  mkState (tasks st) (running st) (task_executor st) (ticks st) (tasks_file st)
          (write_error st) (log st) (world st) (slept st) l.

(** ** The monad *)

Definition M (A : Type) : Type := State -> Result A * State.

Definition ret {A} (a : A) : M A := fun st => (Ok a, st).

Definition bind {A B} (c : M A) (k : A -> M B) : M B :=
  fun st =>
    match c st with
    | (Ok a, st') => k a st'
    | (Raise e, st') => (Raise e, st')
    end.

Definition raise {A} (e : string) : M A := fun st => (Raise e, st).

(** [try: body  except Exception as e: handler(e)] *)
Definition try_except {A} (body : M A) (handler : string -> M A) : M A :=
  fun st =>
    match body st with
    | (Ok a, st') => (Ok a, st')
    | (Raise e, st') => handler e st'
    end.

Definition gets {A} (f : State -> A) : M A := fun st => (Ok (f st), st).

Definition modify (f : State -> State) : M unit := fun st => (Ok tt, f st).

Definition lift {A} (r : Result A) : M A := fun st => (r, st).

(** [for x in xs: body(x)] *)
Fixpoint for_each {A} (xs : list A) (body : A -> M unit) : M unit :=
  match xs with
  | [] => ret tt
  | x :: rest => bind (body x) (fun _ => for_each rest body)
  end.

End Model.

Declare Scope py_scope.
Delimit Scope py_scope with py.
Notation "x <- c ;; k" := (bind c (fun x => k))
  (at level 61, c at next level, right associativity) : py_scope.
Notation "c ;; k" := (bind c (fun _ => k))
  (at level 61, right associativity) : py_scope.
Local Open Scope py_scope.

Section Scheduler.
Context {P : Platform}.

(** ** Library calls *)

(** [datetime.now()] *)
Definition datetime_now : M datetime :=
  fun st => (Ok (clock (ticks st)), set_ticks (S (ticks st)) st).

(** [d + timedelta(minutes=m)]: the delta must hold at most
    [timedelta_max_days] days and the sum must be a datetime. *)
Definition plus_minutes (d : datetime) (m : Z) : Result datetime :=
  let delta := m * 60000000 in
  if (Z.abs (delta / 86400000000) <=? timedelta_max_days)
     && (0 <=? d + delta) && (d + delta <=? datetime_max)
  then Ok (d + delta)
  else Raise (overflow_text d m).

(** [a <= b] where [b] is naive and [a] may be [None] or aware *)
Definition datetime_le (a : option timestamp) (b : datetime) : Result bool :=
  match a with
  | Some (Naive d) => Ok (d <=? b)
  | Some (Aware _ _) =>
      Raise "can't compare offset-naive and offset-aware datetimes"
  | None =>
      Raise "'<=' not supported between instances of 'NoneType' and 'datetime.datetime'"
  end.

(** [time.sleep(seconds)] *)
Definition sleep (seconds : Z) : M unit :=
  modify (fun st => set_slept (slept st + seconds) st).

(** [str(n)] for a length *)
Definition str_nat (n : nat) : string := NilZero.string_of_uint (Nat.to_uint n).

(** A byte of the form 10xxxxxx continues the character before it. *)
Definition is_continuation (c : ascii) : bool :=
  match c with
  | Ascii _ _ _ _ _ _ b6 b7 => b7 && negb b6
  end.

(** The bytes not yet given to a character, and the characters after them *)
Fixpoint chars_from (s : string) : string * list string :=
  match s with
  | EmptyString => (EmptyString, [])
  | String c rest =>
      let (pending, chars) := chars_from rest in
      if is_continuation c then (String c pending, chars)
      else (EmptyString, String c pending :: chars)
  end.

(** The characters of a text, each with the bytes that encode it *)
Definition str_chars (s : string) : list string :=
  let (pending, chars) := chars_from s in
  match pending with
  | EmptyString => chars
  | _ => pending :: chars
  end.

(** [s[:n]] *)
Definition str_prefix (n : nat) (s : string) : string :=
  String.concat "" (firstn n (str_chars s)).

Definition logger_info (msg : string) : M unit :=
  modify (fun st => set_log (log st ++ [INFO msg]) st).

Definition logger_warning (msg : string) : M unit :=
  modify (fun st => set_log (log st ++ [WARNING msg]) st).

Definition logger_error (msg : string) : M unit :=
  modify (fun st => set_log (log st ++ [ERROR msg]) st).

(** Truth value of a loaded JSON value *)
Definition truthy (v : json) : bool :=
  match v with
  | JNull => false
  | JBool b => b
  | JInt z => negb (z =? 0)
  | JStr s => negb (String.eqb s "")
  | JList l => match l with [] => false | _ => true end
  | JObj f => match f with [] => false | _ => true end
  end.

(** [data[key]] with a text key *)
Definition subscript (data : json) (key : string) : Result json :=
  match data with
  | JObj fields =>
      match Dict.get key fields with
      | Some v => Ok v
      | None => Raise (repr (JStr key))
      end
  | JStr _ => Raise "string indices must be integers, not 'str'"
  | JList _ => Raise "list indices must be integers or slices, not str"
  | JNull => Raise "'NoneType' object is not subscriptable"
  | JBool _ => Raise "'bool' object is not subscriptable"
  | JInt _ => Raise "'int' object is not subscriptable"
  end.

(** [data.get(key, default)]; only reached with [data] a dict *)
Definition get_or (data : json) (key : string) (default : json) : json :=
  match data with
  | JObj fields =>
      match Dict.get key fields with
      | Some v => v
      | None => default
      end
  | _ => default
  end.

(** [for x in v]: the items of a list, the keys of a dict, the characters
    of a text; anything else is not iterable. *)
Definition py_iter (v : json) : Result (list json) :=
  match v with
  | JList items => Ok items
  | JObj fields => Ok (map (fun kv => JStr (fst kv)) fields)
  | JStr s => Ok (map JStr (str_chars s))
  | JNull => Raise "'NoneType' object is not iterable"
  | JBool _ => Raise "'bool' object is not iterable"
  | JInt _ => Raise "'int' object is not iterable"
  end.

(** [TaskType(v)] *)
Definition TaskType_of (v : json) : Result TaskType :=
  match v with
  | JStr s =>
      if String.eqb s "upload" then Ok UPLOAD
      else if String.eqb s "download" then Ok DOWNLOAD
      else if String.eqb s "delete" then Ok DELETE
      else Raise (repr v ++ " is not a valid TaskType")
  | _ => Raise (repr v ++ " is not a valid TaskType")
  end.

(** [TaskStatus(v)] *)
Definition TaskStatus_of (v : json) : Result TaskStatus :=
  match v with
  | JStr s =>
      if String.eqb s "pending" then Ok PENDING
      else if String.eqb s "running" then Ok RUNNING
      else if String.eqb s "completed" then Ok COMPLETED
      else if String.eqb s "failed" then Ok FAILED
      else if String.eqb s "cancelled" then Ok CANCELLED
      else Raise (repr v ++ " is not a valid TaskStatus")
  | _ => Raise (repr v ++ " is not a valid TaskStatus")
  end.

(** [datetime.fromisoformat(v)] *)
Definition parse_datetime (v : json) : Result timestamp :=
  match v with
  | JStr s => fromisoformat s
  | _ => Raise "fromisoformat: argument must be str"
  end.

(** The attributes [from_dict] stores as it finds them are typed in
    [ScheduledTask] ([str], [bool], [int], the annotations of [__init__]).
    A loaded value of another type has no counterpart in the record: such
    a document is outside the embedding, and is refused here. *)
Definition as_str (v : json) : Result string :=
  match v with JStr s => Ok s | _ => Raise (repr v ++ " is not a str") end.

Definition as_bool (v : json) : Result bool :=
  match v with JBool b => Ok b | _ => Raise (repr v ++ " is not a bool") end.

Definition as_int (v : json) : Result Z :=
  match v with JInt z => Ok z | _ => Raise (repr v ++ " is not an int") end.

(** ** [ScheduledTask] *)

(** [ScheduledTask.__init__] *)
Definition ScheduledTask_init (task_id : string) (task_type : TaskType)
    (source_path dest_path : string) (scheduled_time : option timestamp)
    (recurring : bool) (interval_minutes : Z) : M ScheduledTask :=
  scheduled <- match scheduled_time with
               | Some d => ret d
               | None => now <- datetime_now ;; ret (Naive now)
               end ;;
  ret (mkTask task_id task_type source_path dest_path scheduled
              recurring interval_minutes PENDING None (Some scheduled) "").

Definition opt_isoformat (d : option timestamp) : json :=
  match d with
  | Some d => JStr (isoformat d)
  | None => JNull
  end.

(** [ScheduledTask.to_dict] *)
Definition to_dict (t : ScheduledTask) : json :=
  JObj [ ("task_id", JStr (task_id t));
         ("task_type", JStr (TaskType_value (task_type t)));
         ("source_path", JStr (source_path t));
         ("dest_path", JStr (dest_path t));
         ("scheduled_time", JStr (isoformat (scheduled_time t)));
         ("recurring", JBool (recurring t));
         ("interval_minutes", JInt (interval_minutes t));
         ("status", JStr (TaskStatus_value (status t)));
         ("last_run", opt_isoformat (last_run t));
         ("next_run", opt_isoformat (next_run t));
         ("error_message", JStr (error_message t)) ].

(** [datetime.fromisoformat(data[key]) if data.get(key) else None] *)
Definition opt_fromisoformat (data : json) (key : string) : Result (option timestamp) :=
  if truthy (get_or data key JNull) then
    match subscript data key with
    | Ok v =>
        match parse_datetime v with
        | Ok d => Ok (Some d)
        | Raise e => Raise e
        end
    | Raise e => Raise e
    end
  else Ok None.

(** [ScheduledTask.from_dict] *)
Definition from_dict (data : json) : M ScheduledTask :=
  id_v <- lift (subscript data "task_id") ;;
  id <- lift (as_str id_v) ;;
  ty_v <- lift (subscript data "task_type") ;;
  ty <- lift (TaskType_of ty_v) ;;
  src_v <- lift (subscript data "source_path") ;;
  src <- lift (as_str src_v) ;;
  dest <- lift (as_str (get_or data "dest_path" (JStr ""))) ;;
  sched_v <- lift (subscript data "scheduled_time") ;;
  sched <- lift (parse_datetime sched_v) ;;
  rec <- lift (as_bool (get_or data "recurring" (JBool false))) ;;
  ival <- lift (as_int (get_or data "interval_minutes" (JInt 0))) ;;
  task <- ScheduledTask_init id ty src dest (Some sched) rec ival ;;
  stat <- lift (TaskStatus_of (get_or data "status" (JStr "pending"))) ;;
  lrun <- lift (opt_fromisoformat data "last_run") ;;
  nrun <- lift (opt_fromisoformat data "next_run") ;;
  msg <- lift (as_str (get_or data "error_message" (JStr ""))) ;;
  ret (with_error_message msg
        (with_next_run nrun (with_last_run lrun (with_status stat task)))).

(** ** [TaskScheduler] *)

(** [open(self.tasks_file, 'w')] followed by [json.dump(doc, f, indent=2)] *)
Definition write_json (doc : json) : M unit :=
  fun st =>
    match write_error st with
    | Some (OpenFails e) => (Raise e, st)
    | Some (DumpFails e remains) => (Raise e, set_tasks_file (Some remains) st)
    | None => (Ok tt, set_tasks_file (Some (Document doc)) st)
    end.

(** [open(self.tasks_file, 'r')] followed by [json.load(f)] *)
Definition read_json : M json :=
  fun st =>
    match tasks_file st with
    | Some (Document doc) => (Ok doc, st)
    | Some (Unreadable e) => (Raise e, st)
    | None => (Raise "[Errno 2] No such file or directory", st)
    end.

(** [os.path.exists(self.tasks_file)] *)
Definition path_exists : M bool :=
  gets (fun st => match tasks_file st with Some _ => true | None => false end).

(** An attribute assignment on the task object in slot [k] *)
Definition setattr (k : string) (f : ScheduledTask -> ScheduledTask) : M unit :=
  modify (fun st => set_tasks (Dict.modify k f (tasks st)) st).

(** [self.tasks[k] = task] *)
Definition setitem (k : string) (task : ScheduledTask) : M unit :=
  modify (fun st => set_tasks (Dict.set k task (tasks st)) st).

(** [TaskScheduler.save_tasks] *)
Definition save_tasks : M unit :=
  try_except
    (tasks_data <- gets (fun st => map to_dict (Dict.values (tasks st))) ;;
     write_json (JList tasks_data))
    (fun e => logger_error ("Failed to save tasks: " ++ e)).

(** [TaskScheduler.load_tasks] *)
Definition load_tasks : M unit :=
  present <- path_exists ;;
  if negb present then ret tt
  else
    try_except
      (tasks_data <- read_json ;;
       modify (set_tasks []) ;;
       records <- lift (py_iter tasks_data) ;;
       for_each records
         (fun task_data =>
            task <- from_dict task_data ;;
            setitem (task_id task) task) ;;
       n <- gets (fun st => length (tasks st)) ;;
       logger_info ("Loaded " ++ str_nat n ++ " tasks"))
      (fun e => logger_error ("Failed to load tasks: " ++ e)).

(** [TaskScheduler.__init__]: the fields of the new object, then the load.
    The state it starts from carries the surroundings (file, clock, log). *)
Definition TaskScheduler_init : M unit :=
  modify (set_tasks []) ;;
  modify (set_running false) ;;
  modify (set_executor None) ;;
  load_tasks.

(** [TaskScheduler.set_task_executor] *)
Definition set_task_executor (executor : Executor) : M unit :=
  modify (set_executor (Some executor)).

(** [TaskScheduler.add_task] *)
Definition add_task (task : ScheduledTask) : M unit :=
  setitem (task_id task) task ;;
  save_tasks ;;
  logger_info ("Added task: " ++ task_id task).

(** [TaskScheduler.remove_task] *)
Definition remove_task (id : string) : M bool :=
  found <- gets (fun st => Dict.mem id (tasks st)) ;;
  if found then
    modify (fun st => set_tasks (Dict.del id (tasks st)) st) ;;
    save_tasks ;;
    logger_info ("Removed task: " ++ id) ;;
    ret true
  else ret false.

(** [TaskScheduler.get_task] *)
Definition get_task (id : string) : M (option ScheduledTask) :=
  gets (fun st => Dict.get id (tasks st)).

(** [TaskScheduler.get_all_tasks] *)
Definition get_all_tasks : M (list ScheduledTask) :=
  gets (fun st => Dict.values (tasks st)).

(** [self.task_executor(task)] *)
Definition call_executor (executor : Executor) (task : ScheduledTask) : M bool :=
  fun st =>
    let (r, w) := executor task (world st) in
    (r, set_world w st).

(** [TaskScheduler._execute_task]. The task object is the one in slot
    [k]; [task] holds its attributes on entry. Those the body reads
    ([task_id], [recurring], [interval_minutes]) are never assigned by it,
    so they are read from [task]; every assignment goes to the slot. *)
Definition _execute_task (k : string) (task : ScheduledTask) : M unit :=
  modify (fun st => set_entered (entered st ++ [k]) st) ;;
  configured <- gets task_executor ;;
  match configured with
  | None => logger_error "No task executor set"
  | Some executor =>
      setattr k (with_status RUNNING) ;;
      logger_info ("Executing task: " ++ task_id task) ;;
      try_except
        (success <- call_executor executor (with_status RUNNING task) ;;
         if success then
           setattr k (with_status COMPLETED) ;;
           finished <- datetime_now ;;
           setattr k (with_last_run (Some (Naive finished))) ;;
           if recurring task && (interval_minutes task >? 0) then
             now <- datetime_now ;;
             again <- lift (plus_minutes now (interval_minutes task)) ;;
             setattr k (with_next_run (Some (Naive again))) ;;
             setattr k (with_status PENDING) ;;
             logger_info ("Task " ++ task_id task ++ " will run again at "
                          ++ datetime_str again)
           else
             logger_info ("Task completed: " ++ task_id task)
         else
           setattr k (with_status FAILED) ;;
           setattr k (with_error_message "Task execution failed") ;;
           logger_error ("Task failed: " ++ task_id task))
        (fun e =>
           setattr k (with_status FAILED) ;;
           setattr k (with_error_message e) ;;
           logger_error ("Task error: " ++ task_id task ++ " - " ++ e)) ;;
      save_tasks
  end.

(** The body of the [for task in list(self.tasks.values())] loop. The
    snapshot holds the objects themselves, so the test reads the attributes
    the object in the slot has when the loop reaches it ([snd slot], its
    attributes at snapshot time, stands in once the slot is gone). *)
Definition check_one (now : datetime) (slot : string * ScheduledTask) : M unit :=
  task <- gets (fun st => match Dict.get (fst slot) (tasks st) with
                          | Some t => t
                          | None => snd slot
                          end) ;;
  if TaskStatus_eqb (status task) PENDING then
    due <- lift (datetime_le (next_run task) now) ;;
    if due then _execute_task (fst slot) task else ret tt
  else ret tt.

(** [TaskScheduler._check_and_execute_tasks] *)
Definition _check_and_execute_tasks : M unit :=
  now <- datetime_now ;;
  snapshot <- gets tasks ;;
  for_each snapshot (check_one now).

(** [TaskScheduler.start]; the thread it spawns runs [_scheduler_loop]. *)
Definition start : M unit :=
  active <- gets running ;;
  if active then logger_warning "Scheduler already running"
  else
    modify (set_running true) ;;
    logger_info "Scheduler started".

(** [TaskScheduler.stop] (the bounded join on the thread is not modelled) *)
Definition stop : M unit :=
  modify (set_running false) ;;
  logger_info "Scheduler stopped".

(** One turn of the [while] body of [_scheduler_loop] *)
Definition _scheduler_loop_body : M unit :=
  try_except
    (_check_and_execute_tasks ;; sleep 10)
    (fun e => logger_error ("Scheduler error: " ++ e)).

(** What has become of [_scheduler_loop] after a bounded number of turns *)
Inductive LoopOutcome : Type :=
| Looping (st : State)
| Returned (st : State)
| Escaped (e : string) (st : State).

(** [TaskScheduler._scheduler_loop], run by the scheduler thread alone for
    at most [turns] turns of its [while self.running] loop. *)
Fixpoint _scheduler_loop (turns : nat) (st : State) : LoopOutcome :=
  if running st then
    match turns with
    | O => Looping st
    | S n =>
        match _scheduler_loop_body st with
        | (Ok _, st') => _scheduler_loop n st'
        | (Raise e, st') => Escaped e st'
        end
    end
  else Returned st.

End Scheduler.

(** ** Observations on runs *)

Section Observations.
Context {P : Platform}.

(** The slot keys [_execute_task] was entered with between two states. *)
Definition selected_between (before after : State) : list string :=
  skipn (length (entered before)) (entered after).

(** The state a bounded run of the loop ends in. *)
Definition outcome_state (o : LoopOutcome) : State :=
  match o with
  | Looping st => st
  | Returned st => st
  | Escaped _ st => st
  end.

(** The store is a dictionary filled by [add_task] and [load_tasks]: its
    keys are pairwise distinct and each is the id of the task it holds. *)
Definition keys_distinct (d : Dict.t ScheduledTask) : Prop :=
  NoDup (Dict.keys d).

Definition keyed_by_id (d : Dict.t ScheduledTask) : Prop :=
  Forall (fun slot => task_id (snd slot) = fst slot) d.

Definition store_ok (d : Dict.t ScheduledTask) : Prop :=
  keys_distinct d /\ keyed_by_id d.

(** Every task of the store has a [next_run]: so it is for the tasks
    [ScheduledTask.__init__] builds and [_execute_task] reschedules. *)
Definition have_next_run (d : Dict.t ScheduledTask) : Prop :=
  Forall (fun slot => next_run (snd slot) <> None) d.

(** Every pending task of the store has a [next_run]. *)
Definition pending_have_next_run (d : Dict.t ScheduledTask) : Prop :=
  Forall (fun slot => status (snd slot) = PENDING -> next_run (snd slot) <> None) d.

(** Every pending task of the store has a [next_run] the scan can compare
    with the clock: present and naive. *)
Definition pending_comparable (d : Dict.t ScheduledTask) : Prop :=
  Forall (fun slot => status (snd slot) = PENDING ->
                      exists at_, next_run (snd slot) = Some (Naive at_)) d.

(** The [next_run] of the task cannot be compared with the clock: it is
    absent, or aware of an offset. *)
Definition incomparable (t : ScheduledTask) : Prop :=
  match next_run t with
  | Some (Naive _) => False
  | _ => True
  end.

(** A task is due at [now]: pending, with a naive [next_run] not after
    [now]. *)
Definition due (now : datetime) (t : ScheduledTask) : Prop :=
  status t = PENDING /\ exists d, next_run t = Some (Naive d) /\ d <= now.

(** The attributes a task is left with by [_execute_task], read off its
    branches: [answer] is what the executor did, [t1] and [t2] the clock
    readings available after it ([execute_task_outcome] proves it). *)
Definition task_after (answer : Result bool) (t1 t2 : datetime)
    (task : ScheduledTask) : ScheduledTask :=
  let started := with_status RUNNING task in
  match answer with
  | Ok true =>
      let finished :=
        with_last_run (Some (Naive t1)) (with_status COMPLETED started) in
      if recurring task && (interval_minutes task >? 0) then
        match plus_minutes t2 (interval_minutes task) with
        | Ok again =>
            with_status PENDING (with_next_run (Some (Naive again)) finished)
        | Raise e => with_error_message e (with_status FAILED finished)
        end
      else finished
  | Ok false =>
      with_error_message "Task execution failed" (with_status FAILED started)
  | Raise e => with_error_message e (with_status FAILED started)
  end.

(** [from_dict] turns the record [r] into the task [t]. *)
Definition decodes (st : State) (r : json) (t : ScheduledTask) : Prop :=
  fst (from_dict r st) = Ok t.

(** The dictionary [load_tasks] has built once it has stored the tasks
    [ts], in that order, into an empty one. *)
Definition stored (ts : list ScheduledTask) : Dict.t ScheduledTask :=
  fold_left (fun d t => Dict.set (task_id t) t d) ts [].

(** The attributes of a record that [from_dict] stores unexamined carry,
    when present, a value of the annotated type. *)
Definition field_is (ok : json -> bool) (data : json) (key : string) : bool :=
  match data with
  | JObj fields =>
      match Dict.get key fields with
      | Some v => ok v
      | None => true
      end
  | _ => true
  end.

Definition is_str (v : json) : bool := match v with JStr _ => true | _ => false end.
Definition is_bool (v : json) : bool := match v with JBool _ => true | _ => false end.
Definition is_int (v : json) : bool := match v with JInt _ => true | _ => false end.

Definition typed_record (data : json) : bool :=
  field_is is_str data "task_id" && field_is is_str data "source_path"
  && field_is is_str data "dest_path" && field_is is_bool data "recurring"
  && field_is is_int data "interval_minutes"
  && field_is is_str data "error_message".

End Observations.

(** ** A concrete platform and sample data *)

Module Sample.

(** A naive timestamp prints as [T] and its microseconds, an aware one
    as [A], its offset, [T] and its microseconds. *)
Definition iso (d : timestamp) : string :=
  match d with
  | Naive t => String "T" (NilEmpty.string_of_int (Z.to_int t))
  | Aware t offset =>
      String "A" (NilEmpty.string_of_int (Z.to_int offset)
                  ++ String "T" (NilEmpty.string_of_int (Z.to_int t)))
  end.

(** The text before the first [T], and the text after it *)
Fixpoint split_T (s : string) : option (string * string) :=
  match s with
  | EmptyString => None
  | String c rest =>
      if Ascii.eqb c "T" then Some (EmptyString, rest)
      else match split_T rest with
           | Some (before, after) => Some (String c before, after)
           | None => None
           end
  end.

Definition parse_iso (s : string) : Result timestamp :=
  match s with
  | String "T" rest =>
      match NilEmpty.int_of_string rest with
      | Some i => Ok (Naive (Z.of_int i))
      | None => Raise ("Invalid isoformat string: '" ++ s ++ "'")
      end
  | String "A" rest =>
      match split_T rest with
      | Some (offset, micros) =>
          match NilEmpty.int_of_string offset, NilEmpty.int_of_string micros with
          | Some o, Some i => Ok (Aware (Z.of_int i) (Z.of_int o))
          | _, _ => Raise ("Invalid isoformat string: '" ++ s ++ "'")
          end
      | None => Raise ("Invalid isoformat string: '" ++ s ++ "'")
      end
  | _ => Raise ("Invalid isoformat string: '" ++ s ++ "'")
  end.

Definition quote (v : json) : string :=
  match v with
  | JNull => "None"
  | JBool true => "True"
  | JBool false => "False"
  | JInt z => NilEmpty.string_of_int (Z.to_int z)
  | JStr s => "'" ++ s ++ "'"
  | JList _ => "[...]"
  | JObj _ => "{...}"
  end.

(** Readings one second apart, starting on 2024-01-01T00:00:00, which is
    738885 days after [datetime.min]. *)
Definition start_of_2024 : datetime := 63839664000000000.

Definition platform : Platform := {|
  World := unit;
  clock := fun n => start_of_2024 + 1000000 * Z.of_nat n;
  isoformat := iso;
  fromisoformat := parse_iso;
  datetime_str := fun d => iso (Naive d);
  overflow_text := fun _ _ => "date value out of range";
  repr := quote
|}.
#[local] Existing Instance platform.

Definition succeeding : Executor := fun _ w => (Ok true, w).
Definition refusing : Executor := fun _ w => (Ok false, w).
Definition crashing : Executor := fun _ w => (Raise "connection lost", w).

(** An upload scheduled one second before the first clock reading. *)
Definition upload (id : string) (rec : bool) (minutes : Z) : ScheduledTask :=
  mkTask id UPLOAD "/local/a.txt" "/remote/a.txt"
         (Naive (start_of_2024 - 1000000))
         rec minutes PENDING None (Some (Naive (start_of_2024 - 1000000))) "".

Definition state_of (d : Dict.t ScheduledTask) (e : option Executor)
    (f : option FileContent) (w : option WriteFault) : State :=
  mkState d true e 0 f w [] tt 0 [].

(** Three tasks: one due, one completed, one pending for an hour later. *)
Definition three_tasks : Dict.t ScheduledTask :=
  [ ("a", upload "a" false 0);
    ("b", with_status COMPLETED (upload "b" false 0));
    ("c", with_next_run (Some (Naive (start_of_2024 + 3600000000)))
            (upload "c" true 30)) ].

Definition scanning : State := state_of three_tasks (Some succeeding) None None.

(** A single task in the store, with the given executor configured. *)
Definition single (t : ScheduledTask) (e : Executor) : State :=
  state_of [(task_id t, t)] (Some e) None None.

(** A due task, then a pending task loaded without [next_run], then
    another due task. *)
Definition with_gap : State :=
  state_of [ ("a", upload "a" false 0);
             ("x", with_next_run None (upload "x" false 0));
             ("z", upload "z" false 0) ]
           (Some succeeding) None None.

(** A due task, then a pending task whose [next_run] carries the offset
    of UTC+01:00, then another due task. *)
Definition with_aware : State :=
  state_of [ ("a", upload "a" false 0);
             ("x", with_next_run (Some (Aware (start_of_2024 - 1000000) 3600000000))
                     (upload "x" false 0));
             ("z", upload "z" false 0) ]
           (Some succeeding) None None.

(** A store of two tasks whose file cannot be opened for writing. *)
Definition read_only : State :=
  state_of [ ("a", upload "a" false 0); ("b", upload "b" true 30) ]
           (Some succeeding) None
           (Some (OpenFails "[Errno 13] Permission denied")).

(** The same store over a full disk: the file opens, and the write
    fails after it, leaving an empty file. *)
Definition disk_full : State :=
  state_of [ ("a", upload "a" false 0); ("b", upload "b" true 30) ]
           (Some succeeding)
           (Some (Document (JList [to_dict (upload "a" false 0);
                                   to_dict (upload "b" true 30)])))
           (Some (DumpFails "[Errno 28] No space left on device"
                    (Unreadable "Expecting value: line 1 column 1 (char 0)"))).

(** A tasks file whose second record lacks every key. *)
Definition half_good : State :=
  state_of [] None
           (Some (Document (JList [to_dict (upload "a" false 0); JObj []])))
           None.

(** A record holding only the four keys [from_dict] requires. *)
Definition bare_fields : Dict.t json :=
  [ ("task_id", JStr "t9");
    ("task_type", JStr "delete");
    ("source_path", JStr "/remote/old.log");
    ("scheduled_time", JStr (iso (Naive start_of_2024))) ].

Definition bare_record : json := JObj bare_fields.

(** A recurring upload whose interval, ten thousand years of minutes,
    leads past [datetime.max]. *)
Definition far_away : ScheduledTask := upload "t1" true 5259600000.

(** The two bytes that encode U+00E9, e with an acute accent. *)
Definition e_acute : string :=
  String (ascii_of_nat 195) (String (ascii_of_nat 169) EmptyString).

(** A store whose second id starts with a word of three characters, two
    of them accented, that takes five bytes. *)
Definition accented : State :=
  let id := e_acute ++ "t" ++ e_acute ++ "-2024-rapport" in
  state_of [ ("a", upload "a" false 0); (id, upload id false 0) ]
           None None None.

(** A tasks file holding two records with the same id. *)
Definition twice : State :=
  state_of [] None
           (Some (Document (JList [ to_dict (upload "a" false 0);
                                    to_dict (upload "b" false 0);
                                    to_dict (upload "a" true 30) ])))
           None.

End Sample.

(** ** Further observations *)

Section MoreObservations.
Context {P : Platform}.

(** The document [save_tasks] writes for a store. *)
Definition document_of (d : Dict.t ScheduledTask) : json :=
  JList (map to_dict (Dict.values d)).

(** The tasks file holds the document of the store in memory. *)
Definition mirrors (st : State) : Prop :=
  tasks_file st = Some (Document (document_of (tasks st))).

(** The test of the scan, as a truth value: pending, with a naive
    [next_run] not after [now]. *)
Definition is_due (now : datetime) (t : ScheduledTask) : bool :=
  TaskStatus_eqb (status t) PENDING
  && match next_run t with
     | Some (Naive d) => d <=? now
     | _ => false
     end.

(** The last task of [ts] carrying the id [id]. *)
Definition last_with_id (id : string) (ts : list ScheduledTask) : option ScheduledTask :=
  find (fun t => String.eqb id (task_id t)) (rev ts).

End MoreObservations.

(** * winscp_manager.winscp_handler and the executor of console.py

    [WinSCPHandler] drives paramiko and the local file system. Those are
    not code of the repository: their calls are the operations of a
    [Transport], which act on an environment [Env] and may raise. The
    handler and the executor built on it are embedded over any
    [Transport]. *)

Module Handler.

(** Exceptions, by the classes the handlers tell apart. *)
Inductive Exn : Type :=
| FileNotFoundError (msg : string)
| Error (msg : string).

(** [str(e)] *)
Definition str (e : Exn) : string :=
  match e with
  | FileNotFoundError msg => msg
  | Error msg => msg
  end.

Inductive Outcome (A : Type) : Type :=
| Done (a : A)
| Thrown (e : Exn).
Arguments Done {A} a.
Arguments Thrown {A} e.

Class Transport : Type := {
  Env : Type;
  (** a [paramiko.SSHClient], a [paramiko.SFTPClient], a private key *)
  Session : Type;
  Channel : Type;
  PKey : Type;
  (** [paramiko.SSHClient()] with its host key policy set *)
  SSHClient_new : Env -> Session * Env;
  RSAKey_from_private_key_file : string -> Env -> Outcome PKey * Env;
  (** [client.connect(host, port=, username=, pkey= or password=)] *)
  SSHClient_connect :
    Session -> string -> Z -> string -> PKey + string -> Env -> Outcome unit * Env;
  SSHClient_open_sftp : Session -> Env -> Outcome Channel * Env;
  SSHClient_close : Session -> Env -> Outcome unit * Env;
  SFTP_close : Channel -> Env -> Outcome unit * Env;
  (** [sftp.put(local, remote)], with a progress callback or not *)
  SFTP_put : Channel -> string -> string -> bool -> Env -> Outcome unit * Env;
  (** [sftp.get(remote, local)], with a progress callback or not *)
  SFTP_get : Channel -> string -> string -> bool -> Env -> Outcome unit * Env;
  SFTP_remove : Channel -> string -> Env -> Outcome unit * Env;
  SFTP_listdir : Channel -> string -> Env -> Outcome (list string) * Env;
  SFTP_stat : Channel -> string -> Env -> Outcome unit * Env;
  SFTP_mkdir : Channel -> string -> Env -> Outcome unit * Env;
  os_path_exists : string -> Env -> bool;
  os_path_getsize : string -> Env -> Outcome Z * Env;
  (** [os.makedirs(path, exist_ok=True)] *)
  os_makedirs : string -> Env -> Outcome unit * Env;
  os_path_dirname : string -> string;
  (** the stack frames left to [_ensure_remote_dir] before Python raises
      [RecursionError] *)
  recursion_limit : nat
}.

Section Methods.
Context {T : Transport}.

(** [str(n)] for an integer *)
Definition str_int (z : Z) : string := NilZero.string_of_int (Z.to_int z).

(** A [WinSCPHandler] object. *)
Record WinSCPHandler : Type := mkHandler {
  host : string;
  port : Z;
  username : string;
  password : string;
  private_key_path : string;
  protocol : string;
  ssh_client : option Session;
  sftp_client : option Channel
}.

(** [WinSCPHandler.__init__] *)
Definition WinSCPHandler_init (host : string) (port : Z) (username password
    private_key_path protocol : string) : WinSCPHandler :=
  mkHandler host port username password private_key_path protocol None None.

Definition set_ssh_client (c : option Session) (h : WinSCPHandler) : WinSCPHandler :=
  mkHandler (host h) (port h) (username h) (password h) (private_key_path h)
            (protocol h) c (sftp_client h).

Definition set_sftp_client (c : option Channel) (h : WinSCPHandler) : WinSCPHandler :=
  mkHandler (host h) (port h) (username h) (password h) (private_key_path h)
            (protocol h) (ssh_client h) c.

(** What a method of the handler runs in: the handler itself, the
    environment, and what the loggers have emitted. *)
Record HState : Type := mkH {
  self : WinSCPHandler;
  env : Env;
  trace : list LogRecord
}.

Definition HM (A : Type) : Type := HState -> Outcome A * HState.

Definition ret {A} (a : A) : HM A := fun s => (Done a, s).

Definition bind {A B} (c : HM A) (k : A -> HM B) : HM B :=
  fun s =>
    match c s with
    | (Done a, s') => k a s'
    | (Thrown e, s') => (Thrown e, s')
    end.

Definition throw {A} (e : Exn) : HM A := fun s => (Thrown e, s).

(** [try: body  except Exception as e: handler(e)] *)
Definition try_except {A} (body : HM A) (handler : Exn -> HM A) : HM A :=
  fun s =>
    match body s with
    | (Done a, s') => (Done a, s')
    | (Thrown e, s') => handler e s'
    end.

(** [try: body  except FileNotFoundError: handler] *)
Definition try_except_not_found {A} (body : HM A) (handler : HM A) : HM A :=
  fun s =>
    match body s with
    | (Thrown (FileNotFoundError _), s') => handler s'
    | other => other
    end.

(** A call of the environment *)
Definition call {A} (op : Env -> Outcome A * Env) : HM A :=
  fun s => let (r, e) := op (env s) in (r, mkH (self s) e (trace s)).

Definition info (msg : string) : HM unit :=
  fun s => (Done tt, mkH (self s) (env s) (trace s ++ [INFO msg])).

Definition error (msg : string) : HM unit :=
  fun s => (Done tt, mkH (self s) (env s) (trace s ++ [ERROR msg])).

Definition set_self (f : WinSCPHandler -> WinSCPHandler) : HM unit :=
  fun s => (Done tt, mkH (f (self s)) (env s) (trace s)).

(** [self.sftp_client.<name>]: an attribute of [None] when no client was
    ever opened *)
Definition the_sftp (name : string) : HM Channel :=
  fun s =>
    match sftp_client (self s) with
    | Some c => (Done c, s)
    | None =>
        (Thrown (Error ("'NoneType' object has no attribute '" ++ name ++ "'")), s)
    end.

End Methods.

Declare Scope handler_scope.
Notation "x <- c ;; k" := (bind c (fun x => k))
  (at level 61, c at next level, right associativity) : handler_scope.
Notation "c ;; k" := (bind c (fun _ => k))
  (at level 61, right associativity) : handler_scope.
Local Open Scope handler_scope.

Section Operations.
Context {T : Transport}.

(** [os.path.exists(path)] *)
Definition path_exists (path : string) : HM bool :=
  fun s => (Done (os_path_exists path (env s)), s).

(** An attribute of [self] *)
Definition attr {A} (f : WinSCPHandler -> A) : HM A :=
  fun s => (Done (f (self s)), s).

(** [self.ssh_client = paramiko.SSHClient()] and its host key policy *)
Definition new_client : HM Session :=
  fun s =>
    let (c, e) := SSHClient_new (env s) in
    (Done c, mkH (set_ssh_client (Some c) (self s)) e (trace s)).

(** [WinSCPHandler.connect] *)
Definition connect : HM bool :=
  try_except
    (client <- new_client ;;
     h <- attr (fun h => h) ;;
     with_key <- (if negb (String.eqb (private_key_path h) "")
                  then path_exists (private_key_path h)
                  else ret false) ;;
     (if with_key
      then private_key <- call (RSAKey_from_private_key_file (private_key_path h)) ;;
           call (SSHClient_connect client (host h) (port h) (username h)
                   (inl private_key))
      else call (SSHClient_connect client (host h) (port h) (username h)
                   (inr (password h)))) ;;
     channel <- call (SSHClient_open_sftp client) ;;
     set_self (set_sftp_client (Some channel)) ;;
     info ("Connected to " ++ host h ++ ":" ++ str_int (port h)) ;;
     ret true)
    (fun e =>
       error ("Connection failed: " ++ str e) ;;
       ret false).

(** [WinSCPHandler.disconnect] *)
Definition disconnect : HM unit :=
  sftp <- attr sftp_client ;;
  match sftp with
  | Some c => call (SFTP_close c)
  | None => ret tt
  end ;;
  ssh <- attr ssh_client ;;
  match ssh with
  | Some c => call (SSHClient_close c)
  | None => ret tt
  end ;;
  info "Disconnected from server".

(** [WinSCPHandler._ensure_remote_dir], with [frames] stack frames left *)
Fixpoint _ensure_remote_dir (frames : nat) (remote_dir : string) : HM unit :=
  match frames with
  | O => throw (Error "maximum recursion depth exceeded")
  | S frames' =>
      if String.eqb remote_dir "" || String.eqb remote_dir "/" then ret tt
      else
        try_except_not_found
          (c <- the_sftp "stat" ;;
           call (SFTP_stat c remote_dir))
          (let parent_dir := os_path_dirname remote_dir in
           (if negb (String.eqb parent_dir "")
            then _ensure_remote_dir frames' parent_dir
            else ret tt) ;;
           c <- the_sftp "mkdir" ;;
           call (SFTP_mkdir c remote_dir) ;;
           info ("Created remote directory: " ++ remote_dir))
  end.

(** [WinSCPHandler.upload_file]; [progress] tells whether a progress
    callback was given *)
Definition upload_file (local_path remote_path : string) (progress : bool) : HM bool :=
  try_except
    (present <- path_exists local_path ;;
     if negb present then
       error ("Local file not found: " ++ local_path) ;;
       ret false
     else
       let remote_dir := os_path_dirname remote_path in
       _ensure_remote_dir recursion_limit remote_dir ;;
       file_size <- call (os_path_getsize local_path) ;;
       info ("Uploading " ++ local_path ++ " to " ++ remote_path ++ " ("
             ++ str_int file_size ++ " bytes)") ;;
       c <- the_sftp "put" ;;
       call (SFTP_put c local_path remote_path progress) ;;
       info ("Upload completed: " ++ remote_path) ;;
       ret true)
    (fun e =>
       error ("Upload failed: " ++ str e) ;;
       ret false).

(** [WinSCPHandler.download_file] *)
Definition download_file (remote_path local_path : string) (progress : bool) : HM bool :=
  try_except
    (let local_dir := os_path_dirname local_path in
     (if negb (String.eqb local_dir "")
      then call (os_makedirs local_dir)
      else ret tt) ;;
     info ("Downloading " ++ remote_path ++ " to " ++ local_path) ;;
     c <- the_sftp "get" ;;
     call (SFTP_get c remote_path local_path progress) ;;
     info ("Download completed: " ++ local_path) ;;
     ret true)
    (fun e =>
       error ("Download failed: " ++ str e) ;;
       ret false).

(** [WinSCPHandler.delete_file] *)
Definition delete_file (remote_path : string) : HM bool :=
  try_except
    (c <- the_sftp "remove" ;;
     call (SFTP_remove c remote_path) ;;
     info ("Deleted: " ++ remote_path) ;;
     ret true)
    (fun e =>
       error ("Deletion failed: " ++ str e) ;;
       ret false).

(** [WinSCPHandler.list_files] *)
Definition list_files (remote_path : string) : HM (list string) :=
  try_except
    (c <- the_sftp "listdir" ;;
     call (SFTP_listdir c remote_path))
    (fun e =>
       error ("Failed to list files: " ++ str e) ;;
       ret []).

(** [WinSCPHandler.file_exists] *)
Definition file_exists (remote_path : string) : HM bool :=
  try_except
    (c <- the_sftp "stat" ;;
     call (SFTP_stat c remote_path) ;;
     ret true)
    (fun e =>
       match e with
       | FileNotFoundError _ => ret false
       | Error _ =>
           error ("Error checking file existence: " ++ str e) ;;
           ret false
       end).

(** The method [m] leaves the handler object as it was. *)
Definition keeps_self {A} (m : HM A) : Prop :=
  forall s, self (snd (m s)) = self s.

End Operations.

(** ** What the server is assumed to do

    [is_remote p e] tells whether [p] exists on the server: [stat] finds
    what exists and raises [FileNotFoundError] for the rest; [mkdir]
    creates a missing directory whose parent exists (the working directory
    and the root always do), and nothing else. *)

Class ServerLaws (T : Transport) (is_remote : string -> Env -> bool) : Prop := {
  stat_present : forall c p e,
    is_remote p e = true -> SFTP_stat c p e = (Done tt, e);
  stat_absent : forall c p e,
    is_remote p e = false ->
    exists msg, SFTP_stat c p e = (Thrown (FileNotFoundError msg), e);
  mkdir_child : forall c p e,
    is_remote p e = false ->
    os_path_dirname p = "" \/ os_path_dirname p = "/"
    \/ is_remote (os_path_dirname p) e = true ->
    exists e', SFTP_mkdir c p e = (Done tt, e')
               /\ forall q, is_remote q e' = String.eqb q p || is_remote q e
}.

(** [missing] lists [d] and its ancestors, each the [os.path.dirname] of
    the one before, down to [top], which it leaves out. *)
Fixpoint ancestry {T : Transport} (d : string) (missing : list string)
    (top : string) : Prop :=
  match missing with
  | [] => d = top
  | m :: rest =>
      m = d /\ d <> "" /\ d <> "/" /\ ancestry (os_path_dirname d) rest top
  end.

(** ** [ConsoleInterface.execute_scheduled_task]

    The executor [console.py] registers with the scheduler
    ([gui.py] registers one with the same body, logging to its window). *)

Section Executor.
Context {T : Transport}.

(** The dictionary [ConfigManager.get_connection_details] returns. *)
Record ConnDetails : Type := mkDetails {
  cd_protocol : string;
  cd_host : string;
  cd_port : Z;
  cd_username : string;
  cd_password : string;
  cd_private_key_path : string
}.

(** The attributes of the [ConsoleInterface] the executor uses, with the
    environment and the log (the records of the console's logger and of
    the handler's, in the order they were emitted). *)
Record Console : Type := mkConsole {
  connected : bool;
  winscp_handler : option WinSCPHandler;
  (** what [self.config_manager.get_connection_details()] does; [None]
      when [self.config_manager] is [None] *)
  connection_details : option (Outcome ConnDetails);
  cenv : Env;
  ctrace : list LogRecord
}.

Definition CM (A : Type) : Type := Console -> Outcome A * Console.

(** A method called on [self.winscp_handler] *)
Definition on_handler {A} (name : string) (method : HM A) : CM A :=
  fun c =>
    match winscp_handler c with
    | None =>
        (Thrown (Error ("'NoneType' object has no attribute '" ++ name ++ "'")), c)
    | Some h =>
        let (r, s) := method (mkH h (cenv c) (ctrace c)) in
        (r, mkConsole (connected c) (Some (self s)) (connection_details c)
                      (env s) (trace s))
    end.

(** [self.config_manager.get_connection_details()] *)
Definition get_connection_details : CM ConnDetails :=
  fun c =>
    match connection_details c with
    | None =>
        (Thrown (Error "'NoneType' object has no attribute 'get_connection_details'"), c)
    | Some r => (r, c)
    end.

Definition console_log (r : LogRecord) : CM unit :=
  fun c => (Done tt, mkConsole (connected c) (winscp_handler c)
                               (connection_details c) (cenv c) (ctrace c ++ [r])).

(** The part of [execute_scheduled_task] that ensures the connection; it
    answers whether the body goes on to the transfer. *)
Definition ensure_connection : CM bool :=
  fun c =>
    if connected c then (Done true, c)
    else
      match console_log (INFO "Attempting to connect for scheduled task...") c with
      | (_, c1) =>
          let made :=
            match winscp_handler c1 with
            | Some _ => (Done tt, c1)
            | None =>
                match get_connection_details c1 with
                | (Done d, c2) =>
                    (Done tt,
                     mkConsole (connected c2)
                               (Some (WinSCPHandler_init (cd_host d) (cd_port d)
                                        (cd_username d) (cd_password d) "" "sftp"))
                               (connection_details c2) (cenv c2) (ctrace c2))
                | (Thrown e, c2) => (Thrown e, c2)
                end
            end in
          match made with
          | (Thrown e, c2) => (Thrown e, c2)
          | (Done _, c2) =>
              match on_handler "connect" connect c2 with
              | (Thrown e, c3) => (Thrown e, c3)
              | (Done false, c3) =>
                  match console_log (ERROR "Failed to connect for scheduled task") c3 with
                  | (_, c4) => (Done false, c4)
                  end
              | (Done true, c3) =>
                  (Done true,
                   mkConsole true (winscp_handler c3) (connection_details c3)
                             (cenv c3) (ctrace c3))
              end
          end
      end.

(** [ConsoleInterface.execute_scheduled_task] *)
Definition execute_scheduled_task (task : ScheduledTask) : Console -> bool * Console :=
  fun c =>
    let body : CM bool :=
      fun c =>
        match ensure_connection c with
        | (Thrown e, c1) => (Thrown e, c1)
        | (Done false, c1) => (Done false, c1)
        | (Done true, c1) =>
            match task_type task with
            | UPLOAD =>
                on_handler "upload_file"
                  (upload_file (source_path task) (dest_path task) false) c1
            | DOWNLOAD =>
                on_handler "download_file"
                  (download_file (source_path task) (dest_path task) false) c1
            | DELETE =>
                on_handler "delete_file" (delete_file (source_path task)) c1
            end
        end in
    match body c with
    | (Done b, c1) => (b, c1)
    | (Thrown e, c1) =>
        match console_log (ERROR ("Task execution error: " ++ str e)) c1 with
        | (_, c2) => (false, c2)
        end
    end.

End Executor.
End Handler.

(** ** The scheduler over the console's executor *)

(** The platform [P] with the [ConsoleInterface] as the remote side. *)
Definition with_console (P : Platform) (T : Handler.Transport) : Platform := {|
  World := @Handler.Console T;
  clock := @clock P;
  isoformat := @isoformat P;
  fromisoformat := @fromisoformat P;
  datetime_str := @datetime_str P;
  overflow_text := @overflow_text P;
  repr := @repr P
|}.

(** [self.scheduler.set_task_executor(self.execute_scheduled_task)] *)
Definition console_executor (P : Platform) (T : Handler.Transport)
  : @Executor (with_console P T) :=
  fun task c =>
    let (b, c') := Handler.execute_scheduled_task task c in (Ok b, c').

(** ** [ConsoleInterface.remove_task]

    [typed] is the stripped line read from the user; the result is what
    the method prints, and the scheduler as it leaves it. *)

(** The lines [remove_task] prints (each after a mark): *)
Inductive Notice : Type :=
| SchedulerNotInitialized      (* Scheduler not initialized *)
| TaskRemoved (short : string) (* Task {task.task_id[:8]}... removed *)
| FailedToRemove               (* Failed to remove task *)
| TaskNotFound.                (* Task not found *)

Section ConsoleRemove.
Context {P : Platform}.

(** The [for task in self.scheduler.get_all_tasks()] loop and the line
    after it *)
Fixpoint remove_first_match (typed : string) (candidates : list ScheduledTask)
    : M Notice :=
  match candidates with
  | [] => ret TaskNotFound
  | task :: rest =>
      if String.eqb (task_id task) typed || String.prefix typed (task_id task) then
        removed <- remove_task (task_id task) ;;
        if removed
        then ret (TaskRemoved (str_prefix 8 (task_id task)))
        else ret FailedToRemove
      else remove_first_match typed rest
  end.

Definition console_remove_task (scheduler : option State) (typed : string)
    : Result Notice * option State :=
  match scheduler with
  | None => (Ok SchedulerNotInitialized, None)
  | Some st =>
      let (r, st') := (all <- get_all_tasks ;; remove_first_match typed all) st in
      (r, Some st')
  end.

End ConsoleRemove.

(** ** A server for the examples

    One directory tree on each side, as the lists of the paths that exist;
    a host is reached unless its name is empty. *)

Module SampleServer.

Record Disk : Type := mkDisk {
  remote_entries : list string;
  local_entries : list string
}.

Definition has (p : string) (entries : list string) : bool :=
  existsb (String.eqb p) entries.

Fixpoint drop_to_slash (l : list ascii) : list ascii :=
  match l with
  | [] => []
  | c :: rest => if Ascii.eqb c "/" then l else drop_to_slash rest
  end.

Fixpoint drop_slashes (l : list ascii) : list ascii :=
  match l with
  | [] => []
  | c :: rest => if Ascii.eqb c "/" then drop_slashes rest else l
  end.

(** [posixpath.dirname]: the part up to the last slash, without its
    trailing slashes unless it has nothing else. *)
Definition dirname (p : string) : string :=
  let head := drop_to_slash (rev (list_ascii_of_string p)) in
  string_of_list_ascii
    (rev (match drop_slashes head with
          | [] => head
          | stripped => stripped
          end)).

Definition no_such_file {A} : Handler.Outcome A :=
  Handler.Thrown (Handler.FileNotFoundError "[Errno 2] No such file").

Definition parent_present (p : string) (d : Disk) : bool :=
  String.eqb (dirname p) "" || String.eqb (dirname p) "/"
  || has (dirname p) (remote_entries d).

Definition transport : Handler.Transport := {|
  Handler.Env := Disk;
  Handler.Session := unit;
  Handler.Channel := unit;
  Handler.PKey := unit;
  Handler.SSHClient_new := fun d => (tt, d);
  Handler.RSAKey_from_private_key_file := fun path d =>
    (if has path (local_entries d) then Handler.Done tt else no_such_file, d);
  Handler.SSHClient_connect := fun _ host _ _ _ d =>
    (if String.eqb host ""
     then Handler.Thrown (Handler.Error "[Errno -2] Name or service not known")
     else Handler.Done tt, d);
  Handler.SSHClient_open_sftp := fun _ d => (Handler.Done tt, d);
  Handler.SSHClient_close := fun _ d => (Handler.Done tt, d);
  Handler.SFTP_close := fun _ d => (Handler.Done tt, d);
  Handler.SFTP_put := fun _ local remote _ d =>
    if has local (local_entries d) && parent_present remote d
    then (Handler.Done tt,
          mkDisk (remote :: remote_entries d) (local_entries d))
    else (no_such_file, d);
  Handler.SFTP_get := fun _ remote local _ d =>
    if has remote (remote_entries d)
    then (Handler.Done tt,
          mkDisk (remote_entries d) (local :: local_entries d))
    else (no_such_file, d);
  Handler.SFTP_remove := fun _ path d =>
    if has path (remote_entries d)
    then (Handler.Done tt,
          mkDisk (filter (fun q => negb (String.eqb path q)) (remote_entries d))
                 (local_entries d))
    else (no_such_file, d);
  Handler.SFTP_listdir := fun _ path d =>
    (if has path (remote_entries d)
     then Handler.Done
            (filter (fun q => String.eqb (dirname q) path) (remote_entries d))
     else no_such_file, d);
  Handler.SFTP_stat := fun _ path d =>
    (if has path (remote_entries d) then Handler.Done tt else no_such_file, d);
  Handler.SFTP_mkdir := fun _ path d =>
    if has path (remote_entries d)
    then (Handler.Thrown (Handler.Error "Failure"), d)
    else if parent_present path d
    then (Handler.Done tt, mkDisk (path :: remote_entries d) (local_entries d))
    else (no_such_file, d);
  Handler.os_path_exists := fun path d => has path (local_entries d);
  Handler.os_path_getsize := fun path d =>
    (if has path (local_entries d) then Handler.Done 0%Z else no_such_file, d);
  Handler.os_makedirs := fun path d =>
    (Handler.Done tt, mkDisk (remote_entries d) (path :: local_entries d));
  Handler.os_path_dirname := dirname;
  Handler.recursion_limit := 990
|}.

(** A disk with [/srv] on the server and [report.txt] here. *)
Definition disk : Disk := mkDisk ["/srv"] ["report.txt"].

(** A handler that was never connected, and one that was. *)
Definition fresh : @Handler.WinSCPHandler transport :=
  Handler.WinSCPHandler_init (T := transport) "files.example.org" 22 "user" "secret" "" "sftp".

Definition live : @Handler.WinSCPHandler transport :=
  Handler.set_sftp_client (T := transport) (Some tt)
    (Handler.set_ssh_client (T := transport) (Some tt) fresh).

Definition details : Handler.ConnDetails :=
  Handler.mkDetails "sftp" "files.example.org" 22 "user" "secret" "id_rsa".

(** A console that has not connected yet. *)
Definition console : @Handler.Console transport :=
  Handler.mkConsole (T := transport) false None (Some (Handler.Done details))
    disk [].

(** What exists on the server of a disk. *)
Definition on_server (p : string) (d : Disk) : bool := has p (remote_entries d).

(** The upload of [report.txt] into a directory the server lacks, and the
    removal of a file it lacks. *)
Definition report : ScheduledTask :=
  mkTask "7f3c2a9e-report" UPLOAD "report.txt" "/srv/in/2024/report.txt"
         (Naive (Sample.start_of_2024 - 1000000)) false 0 PENDING None
         (Some (Naive (Sample.start_of_2024 - 1000000))) "".

Definition cleanup : ScheduledTask :=
  mkTask "7f3c2a9e-cleanup" DELETE "/srv/old.txt" ""
         (Naive (Sample.start_of_2024 - 1000000)) false 0 PENDING None
         (Some (Naive (Sample.start_of_2024 - 1000000))) "".

(** A scheduler holding both, with the console's executor. *)
Definition scheduler : @State (with_console Sample.platform transport) :=
  @mkState (with_console Sample.platform transport)
    [("7f3c2a9e-report", report); ("7f3c2a9e-cleanup", cleanup)] true
    (Some (console_executor Sample.platform transport)) 0 None None []
    console 0 [].

End SampleServer.

(** * Properties *)

(** ** Dictionaries *)

Module DictFacts.
Section Facts.
Context {V : Type}.
Implicit Types (d : Dict.t V) (k : string) (v : V).

Lemma get_modify_same k f d :
  Dict.get k (Dict.modify k f d) = option_map f (Dict.get k d).
Proof.
  induction d as [|[k' v'] d IH]; simpl; [reflexivity|].
  destruct (String.eqb k k') eqn:E; simpl; rewrite E; auto.
Qed.

Lemma get_modify_other k k' f d :
  k' <> k -> Dict.get k' (Dict.modify k f d) = Dict.get k' d.
Proof.
  intros Hne. induction d as [|[k0 v0] d IH]; simpl; [reflexivity|].
  destruct (String.eqb k k0) eqn:E; simpl.
  - apply String.eqb_eq in E. subst k0.
    destruct (String.eqb_spec k' k); [contradiction | reflexivity].
  - destruct (String.eqb k' k0); auto.
Qed.

Lemma keys_modify k f d : Dict.keys (Dict.modify k f d) = Dict.keys d.
Proof.
  induction d as [|[k' v'] d IH]; simpl; [reflexivity|].
  destruct (String.eqb k k'); simpl; [reflexivity|].
  f_equal. exact IH.
Qed.

Lemma modify_modify k f g d :
  Dict.modify k g (Dict.modify k f d) = Dict.modify k (fun v => g (f v)) d.
Proof.
  induction d as [|[k' v'] d IH]; simpl; [reflexivity|].
  destruct (String.eqb k k') eqn:E; simpl; rewrite E; [reflexivity|].
  now rewrite IH.
Qed.

Lemma get_none_not_key k d : Dict.get k d = None <-> ~ In k (Dict.keys d).
Proof.
  induction d as [|[k' v'] d IH]; simpl; [tauto|].
  destruct (String.eqb_spec k k') as [->|Hne].
  - split; [discriminate | intros H; exfalso; apply H; now left].
  - rewrite IH. split; intros H; [intros [E|E]; [congruence | tauto] | tauto].
Qed.

Lemma get_in k v d : Dict.get k d = Some v -> In (k, v) d.
Proof.
  induction d as [|[k' v'] d IH]; simpl; [discriminate|].
  destruct (String.eqb_spec k k') as [->|Hne].
  - intros [= ->]. now left.
  - intros H. right. auto.
Qed.

Lemma in_get k v d : NoDup (Dict.keys d) -> In (k, v) d -> Dict.get k d = Some v.
Proof.
  induction d as [|[k' v'] d IH]; simpl; [tauto|].
  intros Hnd [E|Hin].
  - injection E as -> ->. now rewrite String.eqb_refl.
  - inversion Hnd as [|? ? Hnotin Hnd']; subst.
    destruct (String.eqb_spec k k') as [->|Hne]; [|auto].
    exfalso. apply Hnotin. change (In (fst (k', v)) (map fst d)).
    now apply in_map.
Qed.

Lemma get_del_same k d : NoDup (Dict.keys d) -> Dict.get k (Dict.del k d) = None.
Proof.
  induction d as [|[k' v'] d IH]; simpl; [reflexivity|].
  intros Hnd. inversion Hnd as [|? ? Hnotin Hnd']; subst.
  destruct (String.eqb_spec k k') as [->|Hne].
  - now apply get_none_not_key.
  - simpl. destruct (String.eqb_spec k k'); [contradiction | auto].
Qed.

Lemma set_fresh k v d : Dict.get k d = None -> Dict.set k v d = (d ++ [(k, v)])%list.
Proof.
  induction d as [|[k' v'] d IH]; simpl; [reflexivity|].
  destruct (String.eqb k k'); [discriminate|].
  intros H. now rewrite IH.
Qed.

Lemma mem_get k d : Dict.mem k d = false <-> Dict.get k d = None.
Proof. unfold Dict.mem. destruct (Dict.get k d); split; congruence. Qed.

End Facts.
End DictFacts.

(** ** Running one task *)

Ltac unfold_monad :=
  cbv [bind ret raise try_except gets modify lift setattr setitem
       logger_info logger_warning logger_error call_executor datetime_now
       save_tasks write_json sleep path_exists read_json] in *.

Section ExecuteTask.
Context {P : Platform}.
Implicit Types (st : State) (k : string) (task : ScheduledTask).

(** Whatever the executor does, [_execute_task] returns normally, records
    its entry, and touches no slot but [k]. *)
Lemma execute_task_frame k task st :
  exists st' f,
    _execute_task k task st = (Ok tt, st')
    /\ tasks st' = Dict.modify k f (tasks st)
    /\ entered st' = (entered st ++ [k])%list
    /\ running st' = running st
    /\ task_executor st' = task_executor st
    /\ write_error st' = write_error st.
Proof.
  unfold _execute_task. unfold_monad. simpl.
  destruct (task_executor st) as [executor|] eqn:Hex; simpl.
  2:{ eexists _, (fun t => t). split; [reflexivity|]. simpl.
      repeat split; auto.
      clear. induction (tasks st) as [|[k' v'] d IH]; simpl; [reflexivity|].
      destruct (String.eqb k k'); [reflexivity | now rewrite <- IH]. }
  destruct (executor (with_status RUNNING task) (world st)) as [[[|]|e] w] eqn:Hrun; simpl.
  - destruct (recurring task && (interval_minutes task >? 0)) eqn:Hrec; simpl.
    + destruct (plus_minutes _ _) as [again|e] eqn:Hplus; simpl;
        destruct (write_error st) as [[?|? ?]|] eqn:Hw; simpl;
        repeat rewrite DictFacts.modify_modify;
        eexists _, _; (split; [reflexivity|]); simpl; repeat split; auto.
    + destruct (write_error st) as [[?|? ?]|] eqn:Hw; simpl;
        repeat rewrite DictFacts.modify_modify;
        eexists _, _; (split; [reflexivity|]); simpl; repeat split; auto.
  - destruct (write_error st) as [[?|? ?]|] eqn:Hw; simpl;
      repeat rewrite DictFacts.modify_modify;
      eexists _, _; (split; [reflexivity|]); simpl; repeat split; auto.
  - destruct (write_error st) as [[?|? ?]|] eqn:Hw; simpl;
      repeat rewrite DictFacts.modify_modify;
      eexists _, _; (split; [reflexivity|]); simpl; repeat split; auto.
Qed.

(** With an executor configured, the object in slot [k] ends as
    [task_after] says; the two readings are the next two of the clock. *)
Lemma execute_task_outcome k task st executor answer w :
  task_executor st = Some executor ->
  executor (with_status RUNNING task) (world st) = (answer, w) ->
  Dict.get k (tasks st) = Some task ->
  Dict.get k (tasks (snd (_execute_task k task st)))
  = Some (task_after answer (clock (ticks st)) (clock (S (ticks st))) task).
Proof.
  intros Hex Hrun Hget.
  unfold _execute_task, task_after. unfold_monad. simpl.
  rewrite Hex. simpl. rewrite Hrun.
  destruct answer as [[|]|e]; simpl.
  - destruct (recurring task && (interval_minutes task >? 0)) eqn:Hrec; simpl.
    + destruct (plus_minutes _ _) as [again|e] eqn:Hplus; simpl;
        destruct (write_error st) as [[?|? ?]|] eqn:Hw; simpl;
        repeat rewrite DictFacts.get_modify_same; rewrite Hget; reflexivity.
    + destruct (write_error st) as [[?|? ?]|] eqn:Hw; simpl;
        repeat rewrite DictFacts.get_modify_same; rewrite Hget; reflexivity.
  - destruct (write_error st) as [[?|? ?]|] eqn:Hw; simpl;
      repeat rewrite DictFacts.get_modify_same; rewrite Hget; reflexivity.
  - destruct (write_error st) as [[?|? ?]|] eqn:Hw; simpl;
      repeat rewrite DictFacts.get_modify_same; rewrite Hget; reflexivity.
Qed.

End ExecuteTask.

(** ** One scan of the store *)

Section Scan.
Context {P : Platform}.
Implicit Types (st : State) (k : string) (task : ScheduledTask)
  (todo : Dict.t ScheduledTask).

Lemma status_eqb_pending s : TaskStatus_eqb s PENDING = true <-> s = PENDING.
Proof. destruct s; simpl; split; congruence. Qed.

Lemma selected_between_app st st' sel :
  entered st' = (entered st ++ sel)%list -> selected_between st st' = sel.
Proof.
  intros H. unfold selected_between. rewrite H.
  rewrite skipn_app, skipn_all, Nat.sub_diag. reflexivity.
Qed.

(** What one step of the loop can do: nothing, raise on a [next_run] it
    cannot compare, or run the task of its slot. *)
Lemma check_one_cases now slot st :
  let task := match Dict.get (fst slot) (tasks st) with
              | Some t => t
              | None => snd slot
              end in
  (check_one now slot st = (Ok tt, st)
   /\ ~ due now task /\ (status task = PENDING -> ~ incomparable task))
  \/ ((exists e, datetime_le (next_run task) now = Raise e
                 /\ check_one now slot st = (Raise e, st))
      /\ status task = PENDING /\ incomparable task)
  \/ (check_one now slot st = _execute_task (fst slot) task st /\ due now task).
Proof.
  intros task. unfold check_one, incomparable. unfold_monad. fold task.
  destruct (TaskStatus_eqb (status task) PENDING) eqn:Hs.
  - apply status_eqb_pending in Hs.
    destruct (next_run task) as [[d|d offset]|] eqn:Hn; simpl.
    + destruct (d <=? now) eqn:Hle.
      * right. right. split; [reflexivity|].
        split; [assumption|]. exists d. split; [assumption|]. now apply Z.leb_le.
      * left. split; [reflexivity|]. split; [|tauto].
        intros [_ [d' [Hd' Hle']]]. rewrite Hn in Hd'. injection Hd' as <-.
        apply Z.leb_gt in Hle. lia.
    + right. left. split; [eexists; split; reflexivity|]. auto.
    + right. left. split; [eexists; split; reflexivity|]. auto.
  - left. split; [reflexivity|].
    assert (status task <> PENDING) as Hne.
    { intros E. apply status_eqb_pending in E. congruence. }
    split; [intros [E _]; contradiction | intros E; contradiction].
Qed.

Lemma check_one_raises now slot st :
  let task := match Dict.get (fst slot) (tasks st) with
              | Some t => t
              | None => snd slot
              end in
  status task = PENDING -> incomparable task ->
  exists e, datetime_le (next_run task) now = Raise e
            /\ check_one now slot st = (Raise e, st).
Proof.
  intros task Hp Hinc. unfold check_one. unfold_monad. fold task.
  rewrite Hp. simpl. unfold incomparable in Hinc.
  destruct (next_run task) as [[d|d offset]|]; simpl; [contradiction | |];
    eexists; split; reflexivity.
Qed.

Lemma for_each_cons {A} (x : A) rest (body : A -> M unit) st :
  for_each (x :: rest) body st
  = match body x st with
    | (Ok _, st') => for_each rest body st'
    | (Raise e, st') => (Raise e, st')
    end.
Proof. reflexivity. Qed.

(** A scan, from any point of the snapshot on: it only appends to the
    history, changes no slot it did not enter, enters only slots of the
    snapshot, and never one whose task is not pending. *)
Lemma scan_frame now todo : forall st,
  exists r st' sel,
    for_each todo (check_one now) st = (r, st')
    /\ entered st' = (entered st ++ sel)%list
    /\ running st' = running st
    /\ task_executor st' = task_executor st
    /\ write_error st' = write_error st
    /\ Dict.keys (tasks st') = Dict.keys (tasks st)
    /\ (forall k, ~ In k sel -> Dict.get k (tasks st') = Dict.get k (tasks st))
    /\ (forall k, In k sel -> In k (Dict.keys todo))
    /\ (forall k t, Dict.get k (tasks st) = Some t -> status t <> PENDING ->
                    ~ In k sel).
Proof.
  induction todo as [|slot rest IH]; intros st.
  - exists (Ok tt), st, []. simpl. rewrite app_nil_r.
    repeat split; auto.
  - rewrite for_each_cons.
    destruct (check_one_cases now slot st) as [[Heq _]|[[(e & _ & Heq) _]|[Heq Hdue]]].
    + rewrite Heq.
      destruct (IH st) as (r & st' & sel & Hrun & He & Hr & Hx & Hw & Hk & Hg & Hin & Hnp).
      exists r, st', sel. repeat split; auto.
      intros k Hk'. right. auto.
    + rewrite Heq. exists (Raise e), st, []. rewrite app_nil_r.
      repeat split; auto; intros k []. 
    + rewrite Heq.
      destruct (execute_task_frame (fst slot)
                  (match Dict.get (fst slot) (tasks st) with
                   | Some t => t | None => snd slot end) st)
        as (st1 & f & Hex & Ht1 & He1 & Hr1 & Hx1 & Hw1).
      rewrite Hex.
      destruct (IH st1) as (r & st' & sel & Hrun & He & Hr & Hx & Hw & Hk & Hg & Hin & Hnp).
      exists r, st', (fst slot :: sel). split; [assumption|].
      split; [rewrite He, He1, <- app_assoc; reflexivity|].
      split; [congruence|]. split; [congruence|]. split; [congruence|].
      split; [rewrite Hk, Ht1; apply DictFacts.keys_modify|].
      split; [|split].
      * intros k Hnot. rewrite Hg by (intros H; apply Hnot; now right).
        rewrite Ht1. apply DictFacts.get_modify_other.
        intros ->. apply Hnot. now left.
      * intros k [<-|Hk']; [now left | right; auto].
      * intros k t Hget Hst [<-|Hk'].
        -- rewrite Hget in Hdue. destruct Hdue as [Hp _]. contradiction.
        -- destruct (String.eqb_spec k (fst slot)) as [->|Hne].
           ++ rewrite Hget in Hdue. destruct Hdue as [Hp _]. contradiction.
           ++ apply (Hnp k t); auto.
              rewrite Ht1, DictFacts.get_modify_other; auto.
Qed.

Lemma in_keys {V} k (v : V) (d : Dict.t V) : In (k, v) d -> In k (Dict.keys d).
Proof. intros H. change k with (fst (k, v)). now apply in_map. Qed.

(** A scan over slots that still hold their snapshot attributes, all
    pending ones having a naive [next_run]: it returns normally and enters
    exactly the slots whose task is due, once each. *)
Lemma scan_completes now todo : forall st,
  NoDup (Dict.keys todo) ->
  (forall k t, In (k, t) todo -> Dict.get k (tasks st) = Some t) ->
  pending_comparable todo ->
  exists st' sel,
    for_each todo (check_one now) st = (Ok tt, st')
    /\ entered st' = (entered st ++ sel)%list
    /\ (forall k, In k sel <-> exists t, In (k, t) todo /\ due now t)
    /\ NoDup sel.
Proof.
  induction todo as [|[k1 t1] rest IH]; intros st Hnd Hsnap Hnext.
  - exists st, []. simpl. rewrite app_nil_r.
    split; [reflexivity|]. split; [reflexivity|]. split; [|constructor].
    intros k; split; [intros [] | intros (t & [] & _)].
  - rewrite for_each_cons.
    assert (Dict.get k1 (tasks st) = Some t1) as Hget by (apply Hsnap; now left).
    inversion Hnd as [|? ? Hk1 Hnd']; subst.
    inversion Hnext as [|? ? Hhead Hnext']; subst. simpl in Hhead.
    pose proof (check_one_cases now (k1, t1) st) as Hc. simpl in Hc.
    rewrite Hget in Hc.
    destruct Hc as [[Heq [Hnot _]]|[[_ [Hp Hn]]|[Heq Hdue]]].
    2:{ exfalso. destruct (Hhead Hp) as (at_ & Hat). unfold incomparable in Hn.
        now rewrite Hat in Hn. }
    + rewrite Heq.
      destruct (IH st Hnd') as (st' & sel & Hrun & He & Hiff & Hnds); auto.
      { intros k t Hin. apply Hsnap. now right. }
      exists st', sel. repeat split; auto.
      * intros Hin. apply Hiff in Hin. destruct Hin as (t & Hin & Hd).
        exists t. split; [now right | assumption].
      * intros (t & [E|Hin] & Hd).
        -- injection E as <- <-. contradiction.
        -- apply Hiff. eauto.
    + rewrite Heq.
      destruct (execute_task_frame k1 t1 st)
        as (st1 & f & Hex & Ht1 & He1 & _).
      rewrite Hex.
      destruct (IH st1 Hnd') as (st' & sel & Hrun & He & Hiff & Hnds); auto.
      { intros k t Hin. rewrite Ht1, DictFacts.get_modify_other.
        - apply Hsnap. now right.
        - intros ->. apply Hk1. eapply in_keys; eauto. }
      exists st', (k1 :: sel). split; [assumption|].
      split; [rewrite He, He1, <- app_assoc; reflexivity|].
      split; [split|].
      * intros [<-|Hin].
        -- exists t1. split; [now left | assumption].
        -- apply Hiff in Hin. destruct Hin as (t & Hin & Hd).
           exists t. split; [now right | assumption].
      * intros (t & [E|Hin] & Hd).
        -- injection E as <- <-. now left.
        -- right. apply Hiff. eauto.
      * constructor; [|assumption].
        intros Hin. apply Hiff in Hin. destruct Hin as (t & Hin & _).
        apply Hk1. eapply in_keys; eauto.
Qed.

(** A scan that meets a pending task whose [next_run] it cannot compare:
    it raises there, or at such a task placed before, with the error of
    the comparison, having entered only slots placed before it, and leaves
    that task as it was. *)
Lemma scan_aborts now k t (post pre : Dict.t ScheduledTask) : forall st,
  NoDup (Dict.keys (pre ++ (k, t) :: post)%list) ->
  (forall k' t', In (k', t') (pre ++ (k, t) :: post)%list ->
                 Dict.get k' (tasks st) = Some t') ->
  status t = PENDING -> incomparable t ->
  exists e st' sel,
    for_each (pre ++ (k, t) :: post)%list (check_one now) st = (Raise e, st')
    /\ entered st' = (entered st ++ sel)%list
    /\ (forall k', In k' sel -> In k' (Dict.keys pre))
    /\ Dict.get k (tasks st') = Some t
    /\ exists k0 t0,
         In (k0, t0) (pre ++ [(k, t)])%list
         /\ status t0 = PENDING
         /\ datetime_le (next_run t0) now = Raise e.
Proof.
  induction pre as [|[k1 t1] pre IH]; intros st Hnd Hsnap Hp Hn.
  - simpl app. rewrite for_each_cons.
    assert (Dict.get k (tasks st) = Some t) as Hget by (apply Hsnap; now left).
    pose proof (check_one_cases now (k, t) st) as Hc. simpl in Hc.
    rewrite Hget in Hc.
    destruct Hc as [[_ [_ Hhas]]|[[(e & Hle & Heq) _]|[_ Hdue]]].
    + exfalso. now apply Hhas.
    + rewrite Heq. exists e, st, []. rewrite app_nil_r.
      split; [reflexivity|]. split; [reflexivity|].
      split; [intros k' []|]. split; [assumption|].
      exists k, t. split; [now left|]. split; assumption.
    + exfalso. destruct Hdue as [_ (d & Hd & _)]. unfold incomparable in Hn.
      now rewrite Hd in Hn.
  - simpl app. rewrite for_each_cons.
    assert (Dict.get k1 (tasks st) = Some t1) as Hget by (apply Hsnap; now left).
    simpl in Hnd. inversion Hnd as [|? ? Hk1 Hnd']; subst.
    pose proof (check_one_cases now (k1, t1) st) as Hc. simpl in Hc.
    rewrite Hget in Hc.
    destruct Hc as [[Heq _]|[[(e & Hle & Heq) [Hp1 _]]|[Heq Hdue]]].
    + rewrite Heq.
      destruct (IH st Hnd') as (e & st' & sel & Hrun & He & Hsub & Hkept & Hwho);
        auto.
      { intros k' t' Hin. apply Hsnap. now right. }
      destruct Hwho as (k0 & t0 & Hin0 & Hp0 & Hle0).
      exists e, st', sel. split; [assumption|]. split; [assumption|].
      split; [intros k' Hin; right; auto|]. split; [assumption|].
      exists k0, t0. split; [now right|]. split; assumption.
    + rewrite Heq. exists e, st, []. rewrite app_nil_r.
      split; [reflexivity|]. split; [reflexivity|].
      split; [intros k' []|].
      split; [apply Hsnap; right; apply in_or_app; right; now left|].
      exists k1, t1. split; [now left|]. split; assumption.
    + rewrite Heq.
      destruct (execute_task_frame k1 t1 st)
        as (st1 & f & Hex & Ht1 & He1 & _).
      rewrite Hex.
      destruct (IH st1 Hnd') as (e & st' & sel & Hrun & He & Hsub & Hkept & Hwho);
        auto.
      { intros k' t' Hin. rewrite Ht1, DictFacts.get_modify_other.
        - apply Hsnap. now right.
        - intros ->. apply Hk1. eapply in_keys; eauto. }
      destruct Hwho as (k0 & t0 & Hin0 & Hp0 & Hle0).
      exists e, st', (k1 :: sel). split; [assumption|].
      split; [rewrite He, He1, <- app_assoc; reflexivity|].
      split; [intros k' [<-|Hin]; [now left | right; auto]|].
      split; [assumption|].
      exists k0, t0. split; [now right|]. split; assumption.
Qed.

End Scan.

(** ** Cycles of the loop *)

Section Cycles.
Context {P : Platform}.
Implicit Types (st : State) (k : string) (task : ScheduledTask).

Lemma scan_unfold st :
  _check_and_execute_tasks st
  = for_each (tasks st) (check_one (clock (ticks st)))
             (set_ticks (S (ticks st)) st).
Proof. reflexivity. Qed.

(** One turn of the loop returns normally whatever the scan does, and
    inherits the frame of the scan. *)
Lemma loop_body_frame st :
  exists st' sel,
    _scheduler_loop_body st = (Ok tt, st')
    /\ entered st' = (entered st ++ sel)%list
    /\ running st' = running st
    /\ Dict.keys (tasks st') = Dict.keys (tasks st)
    /\ (forall k, ~ In k sel -> Dict.get k (tasks st') = Dict.get k (tasks st))
    /\ (forall k t, Dict.get k (tasks st) = Some t -> status t <> PENDING ->
                    ~ In k sel).
Proof.
  unfold _scheduler_loop_body, try_except, bind.
  rewrite scan_unfold.
  destruct (scan_frame (clock (ticks st)) (tasks st) (set_ticks (S (ticks st)) st))
    as (r & st' & sel & Hrun & He & Hr & _ & _ & Hk & Hg & _ & Hnp).
  rewrite Hrun. simpl in He, Hr, Hk, Hg, Hnp. destruct r as [[]|e].
  - eexists _, sel. split; [reflexivity|]. simpl.
    repeat (split; [assumption|]). exact Hnp.
  - eexists _, sel. split; [reflexivity|]. simpl.
    repeat (split; [assumption|]). exact Hnp.
Qed.

(** While [self.running] holds the loop neither returns nor lets an
    exception out, for any number of turns; and a task that is not
    pending is never entered and keeps its attributes. *)
Lemma loop_frame turns : forall st,
  exists st' sel,
    outcome_state (_scheduler_loop turns st) = st'
    /\ entered st' = (entered st ++ sel)%list
    /\ (running st = true -> _scheduler_loop turns st = Looping st')
    /\ (forall k t, Dict.get k (tasks st) = Some t -> status t <> PENDING ->
                    ~ In k sel /\ Dict.get k (tasks st') = Some t).
Proof.
  induction turns as [|n IH]; intros st.
  - exists st, []. simpl. rewrite app_nil_r.
    assert (forall k t, Dict.get k (tasks st) = Some t -> status t <> PENDING ->
                        ~ In k [] /\ Dict.get k (tasks st) = Some t) as Hlast.
    { intros k t Hget _. split; [intros [] | assumption]. }
    destruct (running st); simpl.
    + split; [reflexivity|]. split; [reflexivity|]. split; [reflexivity|].
      exact Hlast.
    + split; [reflexivity|]. split; [reflexivity|]. split; [discriminate|].
      exact Hlast.
  - simpl. destruct (running st) eqn:Hr.
    + destruct (loop_body_frame st) as (st1 & sel1 & Hb & He1 & Hr1 & _ & Hg1 & Hnp1).
      rewrite Hb.
      destruct (IH st1) as (st' & sel & Ho & He & Hl & Hnp).
      exists st', (sel1 ++ sel)%list. split; [assumption|].
      split; [rewrite He, He1, <- app_assoc; reflexivity|].
      split.
      * intros _. apply Hl. congruence.
      * intros k t Hget Hst.
        assert (~ In k sel1) as Hn1 by (eapply Hnp1; eauto).
        assert (Dict.get k (tasks st1) = Some t) as Hget1 by (rewrite Hg1; auto).
        destruct (Hnp k t Hget1 Hst) as [Hn Hkeep].
        split; [|assumption].
        intros Hin. apply in_app_or in Hin. tauto.
    + exists st, []. simpl. rewrite app_nil_r.
      split; [reflexivity|]. split; [reflexivity|]. split; [discriminate|].
      intros k t Hget _; split; [intros [] | assumption].
Qed.

(** A turn of the loop over a store holding a pending task whose
    [next_run] cannot be compared: the scan raises, the turn still returns
    normally, and the task is neither entered nor changed. *)
Lemma loop_body_absent st k t :
  keys_distinct (tasks st) ->
  Dict.get k (tasks st) = Some t ->
  status t = PENDING -> incomparable t ->
  exists st' sel,
    _scheduler_loop_body st = (Ok tt, st')
    /\ entered st' = (entered st ++ sel)%list
    /\ running st' = running st
    /\ keys_distinct (tasks st')
    /\ Dict.get k (tasks st') = Some t
    /\ ~ In k sel.
Proof.
  intros Hnd Hget Hp Hn.
  destruct (loop_body_frame st) as (st' & sel & Hb & He & Hr & Hk & Hg & _).
  exists st', sel. split; [assumption|]. split; [assumption|].
  split; [assumption|]. split; [unfold keys_distinct; now rewrite Hk|].
  assert (~ In k sel) as Hnot.
  { apply DictFacts.get_in in Hget.
    destruct (in_split _ _ Hget) as (pre & post & Hsplit).
    unfold _scheduler_loop_body, try_except, bind in Hb.
    rewrite scan_unfold in Hb.
    destruct (scan_aborts (clock (ticks st)) k t post pre
                (set_ticks (S (ticks st)) st))
      as (e & st2 & sel2 & Hrun & He2 & Hsub & _); auto.
    - rewrite <- Hsplit. exact Hnd.
    - rewrite <- Hsplit. simpl. intros k' t' Hin.
      now apply DictFacts.in_get.
    - rewrite <- Hsplit in Hrun. rewrite Hrun in Hb. simpl in Hb.
      injection Hb as <-. simpl in He. rewrite He2 in He. simpl in He.
      apply app_inv_head in He. subst sel2.
      intros Hin. apply Hsub in Hin.
      unfold keys_distinct in Hnd. rewrite Hsplit in Hnd.
      unfold Dict.keys in Hnd, Hin. rewrite map_app in Hnd. simpl in Hnd.
      apply NoDup_remove_2 in Hnd. apply Hnd. apply in_or_app. now left. }
  split; [|assumption]. rewrite Hg; assumption.
Qed.

End Cycles.

Section MoreCycles.
Context {P : Platform}.

(** However many turns the loop takes, a pending task whose [next_run]
    cannot be compared is never entered. *)
Lemma loop_absent k t turns : forall st,
  keys_distinct (tasks st) ->
  Dict.get k (tasks st) = Some t ->
  status t = PENDING -> incomparable t ->
  exists sel,
    entered (outcome_state (_scheduler_loop turns st)) = (entered st ++ sel)%list
    /\ ~ In k sel.
Proof.
  induction turns as [|n IH]; intros st Hnd Hget Hp Hn.
  - exists []. simpl. rewrite app_nil_r.
    destruct (running st); simpl; split; auto.
  - simpl. destruct (running st) eqn:Hr.
    + destruct (loop_body_absent st k t Hnd Hget Hp Hn)
        as (st1 & sel1 & Hb & He1 & _ & Hnd1 & Hget1 & Hnot1).
      rewrite Hb.
      destruct (IH st1 Hnd1 Hget1 Hp Hn) as (sel & He & Hnot).
      exists (sel1 ++ sel)%list.
      split; [rewrite He, He1, <- app_assoc; reflexivity|].
      intros Hin. apply in_app_or in Hin. tauto.
    + exists []. simpl. rewrite app_nil_r. split; auto.
Qed.

(** [d + timedelta(minutes=m)] for a positive [m] that stays in range. *)
Lemma plus_minutes_in_range d m :
  0 < m -> 0 <= d -> d + m * 60000000 <= datetime_max ->
  plus_minutes d m = Ok (d + m * 60000000).
Proof.
  intros Hm Hd Hmax. unfold plus_minutes. cbv zeta.
  assert (0 <= m * 60000000 / 86400000000 <= timedelta_max_days) as [Hlo Hhi].
  { unfold datetime_max in Hmax. unfold timedelta_max_days. split.
    - apply Z.div_pos; lia.
    - apply Z.lt_le_incl, Z.div_lt_upper_bound; lia. }
  rewrite Z.abs_eq by assumption.
  replace (_ <=? timedelta_max_days) with true by (symmetry; now apply Z.leb_le).
  replace (0 <=? d + m * 60000000) with true by (symmetry; apply Z.leb_le; lia).
  replace (d + m * 60000000 <=? datetime_max) with true
    by (symmetry; now apply Z.leb_le).
  reflexivity.
Qed.

End MoreCycles.

(** ** Persistence *)

Section Persistence.
Context {P : Platform}.

(** [from_dict] neither reads nor changes the state. *)
Lemma from_dict_stateless (data : json) :
  exists r, forall s, from_dict data s = (r, s).
Proof.
  unfold from_dict, ScheduledTask_init. unfold_monad.
  repeat match goal with
         | |- context [match ?x with Ok _ => _ | Raise _ => _ end] =>
             destruct x
         end;
    eexists; intros s; reflexivity.
Qed.

Lemma decodes_anywhere st r t : decodes st r t -> forall s, from_dict r s = (Ok t, s).
Proof.
  unfold decodes. intros H s.
  destruct (from_dict_stateless r) as (res & Hres).
  rewrite Hres in H. simpl in H. subst res. apply Hres.
Qed.

Lemma raises_anywhere st r e :
  fst (from_dict r st) = Raise e -> forall s, from_dict r s = (Raise e, s).
Proof.
  intros H s.
  destruct (from_dict_stateless r) as (res & Hres).
  rewrite Hres in H. simpl in H. subst res. apply Hres.
Qed.

(** The loop of [load_tasks] over records that all decode. *)
Lemma load_loop_all st0 records : forall loaded st,
  Forall2 (decodes st0) records loaded ->
  for_each records
    (fun task_data => task <- from_dict task_data ;; setitem (task_id task) task)
    st
  = (Ok tt, set_tasks (fold_left (fun d t => Dict.set (task_id t) t d)
                                 loaded (tasks st)) st).
Proof.
  induction records as [|r records IH]; intros loaded st Hall.
  - inversion Hall; subst. simpl. unfold ret. now destruct st.
  - inversion Hall as [|? t ? loaded' Hr Hrest]; subst.
    rewrite for_each_cons. unfold bind at 1.
    rewrite (decodes_anywhere st0 r t Hr). unfold setitem, modify.
    rewrite (IH loaded' _ Hrest). reflexivity.
Qed.

(** The same loop, stopped by the first record that does not decode. *)
Lemma load_loop_stops st0 bad e rest good : forall loaded st,
  Forall2 (decodes st0) good loaded ->
  fst (from_dict bad st0) = Raise e ->
  for_each (good ++ bad :: rest)
    (fun task_data => task <- from_dict task_data ;; setitem (task_id task) task)
    st
  = (Raise e, set_tasks (fold_left (fun d t => Dict.set (task_id t) t d)
                                   loaded (tasks st)) st).
Proof.
  induction good as [|r good IH]; intros loaded st Hall Hbad.
  - inversion Hall; subst. simpl app. rewrite for_each_cons. unfold bind at 1.
    rewrite (raises_anywhere st0 bad e Hbad). simpl. now destruct st.
  - inversion Hall as [|? t ? loaded' Hr Hrest]; subst.
    simpl app. rewrite for_each_cons. unfold bind at 1.
    rewrite (decodes_anywhere st0 r t Hr). unfold setitem, modify.
    rewrite (IH loaded' _ Hrest Hbad). reflexivity.
Qed.

Lemma get_app_fresh {V} k k0 (v : V) (d : Dict.t V) :
  Dict.get k d = None -> k <> k0 -> Dict.get k (d ++ [(k0, v)])%list = None.
Proof.
  intros Hget Hne. induction d as [|[k' v'] d IH]; simpl in *.
  - destruct (String.eqb_spec k k0); [contradiction | reflexivity].
  - destruct (String.eqb k k'); [discriminate | auto].
Qed.

(** Storing, in order, the tasks of a well-formed dictionary under their
    ids rebuilds that dictionary. *)
Lemma store_values (d : Dict.t ScheduledTask) : forall acc,
  keys_distinct d -> keyed_by_id d ->
  (forall k, In k (Dict.keys d) -> Dict.get k acc = None) ->
  fold_left (fun a t => Dict.set (task_id t) t a) (Dict.values d) acc
  = (acc ++ d)%list.
Proof.
  induction d as [|[k t] d IH]; intros acc Hnd Hid Hfresh.
  - simpl. now rewrite app_nil_r.
  - inversion Hnd as [|? ? Hk Hnd']; subst.
    inversion Hid as [|? ? Hkt Hid']; subst. simpl in Hkt. subst k.
    simpl. rewrite DictFacts.set_fresh by (apply Hfresh; now left).
    rewrite IH; auto.
    + now rewrite <- app_assoc.
    + intros k Hin. apply get_app_fresh.
      * apply Hfresh. now right.
      * intros ->. contradiction.
Qed.

(** What [to_dict] writes, [from_dict] reads back. *)
Lemma from_dict_to_dict {L : PlatformLaws P} (t : ScheduledTask) (s : State) :
  from_dict (to_dict t) s = (Ok t, s).
Proof.
  destruct t as [id ty src dst sched rec ival stat lrun nrun msg].
  unfold from_dict, to_dict, ScheduledTask_init, opt_fromisoformat.
  unfold_monad.
  destruct ty, stat, lrun as [l|], nrun as [n|]; simpl;
    rewrite fromisoformat_isoformat;
    repeat match goal with
           | |- context [String.eqb (isoformat ?d) ""] =>
               destruct (String.eqb_spec (isoformat d) "") as [E|_];
               [now apply isoformat_nonempty in E | simpl]
           end;
    repeat rewrite fromisoformat_isoformat; reflexivity.
Qed.

(** A record whose [next_run] is missing, null or otherwise false loads
    as a task without [next_run]. *)
Lemma falsy_next_run_loads_absent (data : json) (t : ScheduledTask) (s : State) :
  fst (from_dict data s) = Ok t ->
  truthy (get_or data "next_run" JNull) = false ->
  next_run t = None.
Proof.
  unfold from_dict, ScheduledTask_init. unfold_monad.
  intros H Hnull.
  unfold opt_fromisoformat in H at 2. rewrite Hnull in H.
  repeat match type of H with
         | context [match ?x with Ok _ => _ | Raise _ => _ end] =>
             destruct x; simpl in H; try discriminate
         end.
  injection H as <-. reflexivity.
Qed.

Lemma to_dict_decodes {L : PlatformLaws P} st0 (ts : list ScheduledTask) :
  Forall2 (decodes st0) (map to_dict ts) ts.
Proof.
  induction ts as [|t ts IH]; simpl; constructor; [|assumption].
  unfold decodes. now rewrite from_dict_to_dict.
Qed.

End Persistence.

Lemma split_T_digits (i : Decimal.int) (rest : string) :
  Sample.split_T (NilEmpty.string_of_int i ++ String "T" rest)
  = Some (NilEmpty.string_of_int i, rest).
Proof.
  assert (forall u, Sample.split_T (NilEmpty.string_of_uint u ++ String "T" rest)
                    = Some (NilEmpty.string_of_uint u, rest)) as Hu.
  { induction u; simpl; try rewrite IHu; reflexivity. }
  destruct i as [u|u]; simpl; now rewrite Hu.
Qed.

(** The sample platform prints a datetime as its count of microseconds
    after a [T], an aware one after its offset; the counts parse back. *)
Lemma sample_laws : PlatformLaws Sample.platform.
Proof.
  split.
  - intros [d|d offset]; simpl; unfold Sample.parse_iso, Sample.iso.
    + rewrite NilEmpty.isi. now rewrite DecimalZ.of_to.
    + rewrite split_T_digits. rewrite !NilEmpty.isi. now rewrite !DecimalZ.of_to.
  - intros [d|d offset]; simpl; discriminate.
Qed.

(** ** The store stays a dictionary keyed by task id *)

Section WellFormed.
Context {P : Platform}.
Implicit Types (d : Dict.t ScheduledTask) (t : ScheduledTask).

Lemma keys_set_in k t d :
  forall k', In k' (Dict.keys (Dict.set k t d)) -> k' = k \/ In k' (Dict.keys d).
Proof.
  induction d as [|[k0 t0] d IH]; simpl; intros k'.
  - intros [<-|[]]. now left.
  - destruct (String.eqb_spec k k0) as [->|Hne]; simpl.
    + intros [<-|H]; auto.
    + intros [<-|H]; auto. destruct (IH k' H); auto.
Qed.

Lemma set_ok t d : store_ok d -> store_ok (Dict.set (task_id t) t d).
Proof.
  intros [Hnd Hid]. split.
  - unfold keys_distinct in *.
    induction d as [|[k0 t0] d IH]; simpl.
    + repeat constructor. intros [].
    + inversion Hnd as [|? ? Hk Hnd']; subst.
      inversion Hid as [|? ? _ Hid']; subst.
      destruct (String.eqb_spec (task_id t) k0) as [E|Hne]; simpl.
      * now constructor.
      * constructor; [|auto].
        intros Hin. apply keys_set_in in Hin. destruct Hin; auto.
  - unfold keyed_by_id in *.
    induction d as [|[k0 t0] d IH]; simpl.
    + repeat constructor.
    + inversion Hnd as [|? ? Hk Hnd']; subst.
      inversion Hid as [|? ? Hk0 Hid']; subst.
      destruct (String.eqb_spec (task_id t) k0) as [E|Hne].
      * constructor; [exact E | assumption].
      * constructor; [assumption | auto].
Qed.

Lemma del_ok k d : store_ok d -> store_ok (Dict.del k d).
Proof.
  intros [Hnd Hid]. unfold store_ok, keys_distinct, keyed_by_id in *.
  induction d as [|[k0 t0] d IH]; simpl; [split; constructor|].
  inversion Hnd as [|? ? Hk Hnd']; subst.
  inversion Hid as [|? ? Hk0 Hid']; subst.
  destruct (String.eqb_spec k k0) as [->|Hne]; [split; assumption|].
  destruct (IH Hnd' Hid') as [IH1 IH2]. split.
  - simpl. constructor; [|assumption].
    intros Hin. apply Hk. clear - Hin.
    induction d as [|[k1 t1] d IHd]; simpl in *; [contradiction|].
    destruct (String.eqb k k1); simpl in *; tauto.
  - constructor; assumption.
Qed.

Lemma modify_ok k f d :
  (forall t, task_id (f t) = task_id t) -> store_ok d -> store_ok (Dict.modify k f d).
Proof.
  intros Hf [Hnd Hid]. split.
  - unfold keys_distinct. now rewrite DictFacts.keys_modify.
  - unfold keyed_by_id in *. clear Hnd.
    induction d as [|[k0 t0] d IH]; simpl; [constructor|].
    inversion Hid as [|? ? Hk0 Hid']; subst. simpl in Hk0.
    destruct (String.eqb k k0); constructor; simpl; auto.
    now rewrite Hf.
Qed.

(** [_execute_task] keeps the store well formed. *)
Lemma execute_task_ok k task st :
  store_ok (tasks st) -> store_ok (tasks (snd (_execute_task k task st))).
Proof.
  intros Hok. unfold _execute_task. unfold_monad. simpl.
  destruct (task_executor st) as [executor|]; simpl; [|assumption].
  destruct (executor (with_status RUNNING task) (world st)) as [[[|]|e] w]; simpl;
    [destruct (recurring task && (interval_minutes task >? 0)); simpl;
       [destruct (plus_minutes _ _); simpl|] | |];
    destruct (write_error st) as [[?|? ?]|]; simpl;
    repeat rewrite DictFacts.modify_modify;
    (apply modify_ok; [intros t; reflexivity | assumption]).
Qed.

(** So does a scan, from any point of the snapshot on. *)
Lemma scan_ok now todo : forall st,
  store_ok (tasks st) ->
  store_ok (tasks (snd (for_each todo (check_one now) st))).
Proof.
  induction todo as [|slot rest IH]; intros st Hok; [assumption|].
  rewrite for_each_cons.
  destruct (check_one_cases now slot st) as [[Heq _]|[[(e & _ & Heq) _]|[Heq _]]];
    rewrite Heq.
  - now apply IH.
  - assumption.
  - pose proof (execute_task_ok (fst slot)
                  (match Dict.get (fst slot) (tasks st) with
                   | Some t => t | None => snd slot end) st Hok) as Hok1.
    destruct (_execute_task _ _ st) as [[[]|e] st1]; simpl in *; auto.
Qed.

(** X13: the store stays a dictionary keyed by id. If the keys of the
    store are distinct and each is the id of the task it holds, this still
    holds after [add_task], after [remove_task] and after a turn of the
    loop. *)
Lemma store_ok_preserved st :
  store_ok (tasks st) ->
  (forall task, store_ok (tasks (snd (add_task task st))))
  /\ (forall id, store_ok (tasks (snd (remove_task id st))))
  /\ store_ok (tasks (snd (_scheduler_loop_body st))).
Proof.
  intros Hok. split; [|split].
  - intros task. unfold add_task. unfold_monad. simpl.
    destruct (write_error st) as [[?|? ?]|]; simpl; now apply set_ok.
  - intros id. unfold remove_task. unfold_monad.
    destruct (Dict.mem id (tasks st)); simpl; [|assumption].
    destruct (write_error st) as [[?|? ?]|]; simpl; now apply del_ok.
  - unfold _scheduler_loop_body, try_except, bind. rewrite scan_unfold.
    pose proof (scan_ok (clock (ticks st)) (tasks st)
                  (set_ticks (S (ticks st)) st) Hok) as Hscan.
    destruct (for_each _ _ _) as [[[]|e] st1]; simpl in *; assumption.
Qed.

(** X14: whatever the tasks file holds, the store of a newly constructed
    scheduler has distinct keys, each the id of the task it holds. *)
Lemma store_ok_loaded st : store_ok (tasks (snd (TaskScheduler_init st))).
Proof.
  assert (store_ok ([] : Dict.t ScheduledTask)) as Hnil
    by (split; constructor).
  assert (forall records s, store_ok (tasks s) ->
            store_ok (tasks (snd (for_each records
              (fun task_data =>
                 task <- from_dict task_data ;; setitem (task_id task) task)
              s)))) as Hloop.
  { induction records as [|r records IH]; intros s Hs; [assumption|].
    rewrite for_each_cons. unfold bind at 1.
    destruct (from_dict_stateless r) as ([t|e] & Hr); rewrite Hr; simpl.
    - apply IH. simpl. now apply set_ok.
    - assumption. }
  unfold TaskScheduler_init, load_tasks. unfold_monad. simpl.
  destruct (tasks_file st) as [[e|doc]|] eqn:Hfile; simpl;
    try (rewrite Hfile; simpl); try assumption.
  destruct (py_iter doc) as [records|e]; simpl; [|assumption].
  specialize (Hloop records
                (set_tasks [] (set_executor None
                                 (set_running false (set_tasks [] st)))) Hnil).
  unfold bind in Hloop.
  destruct (for_each _ _ _) as [[[]|e] s1]; simpl in *; assumption.
Qed.

(** *** Tasks keep a [next_run] *)

Lemma forall_set (Q : ScheduledTask -> Prop) k t d :
  Forall (fun slot => Q (snd slot)) d -> Q t ->
  Forall (fun slot => Q (snd slot)) (Dict.set k t d).
Proof.
  intros Hd Ht. induction d as [|[k0 t0] d IH]; simpl.
  - repeat constructor. exact Ht.
  - inversion Hd; subst. destruct (String.eqb k k0); constructor; auto.
Qed.

Lemma forall_del (Q : ScheduledTask -> Prop) k d :
  Forall (fun slot => Q (snd slot)) d ->
  Forall (fun slot => Q (snd slot)) (Dict.del k d).
Proof.
  intros Hd. induction d as [|[k0 t0] d IH]; simpl; [constructor|].
  inversion Hd; subst. destruct (String.eqb k k0); [assumption|].
  constructor; auto.
Qed.

Lemma forall_modify (Q : ScheduledTask -> Prop) k f d :
  (forall t, Q t -> Q (f t)) ->
  Forall (fun slot => Q (snd slot)) d ->
  Forall (fun slot => Q (snd slot)) (Dict.modify k f d).
Proof.
  intros Hf Hd. induction d as [|[k0 t0] d IH]; simpl; [constructor|].
  inversion Hd; subst. destruct (String.eqb k k0); constructor; simpl; auto.
Qed.

Lemma execute_task_keeps_next_run k task st :
  have_next_run (tasks st) ->
  have_next_run (tasks (snd (_execute_task k task st))).
Proof.
  intros Hok. unfold have_next_run in *.
  unfold _execute_task. unfold_monad. simpl.
  destruct (task_executor st) as [executor|]; simpl; [|assumption].
  destruct (executor (with_status RUNNING task) (world st)) as [[[|]|e] w]; simpl;
    [destruct (recurring task && (interval_minutes task >? 0)); simpl;
       [destruct (plus_minutes _ _); simpl|] | |];
    destruct (write_error st) as [[?|? ?]|]; simpl;
    repeat rewrite DictFacts.modify_modify;
    (apply (forall_modify (fun t => next_run t <> None));
     [intros t Ht; simpl; try exact Ht; discriminate | assumption]).
Qed.

Lemma scan_keeps_next_run now todo : forall st,
  have_next_run (tasks st) ->
  have_next_run (tasks (snd (for_each todo (check_one now) st))).
Proof.
  induction todo as [|slot rest IH]; intros st Hok; [assumption|].
  rewrite for_each_cons.
  destruct (check_one_cases now slot st) as [[Heq _]|[[(e & _ & Heq) _]|[Heq _]]];
    rewrite Heq.
  - now apply IH.
  - assumption.
  - pose proof (execute_task_keeps_next_run (fst slot)
                  (match Dict.get (fst slot) (tasks st) with
                   | Some t => t | None => snd slot end) st Hok) as Hok1.
    destruct (_execute_task _ _ st) as [[[]|e] st1]; simpl in *; auto.
Qed.

(** X15: tasks keep a [next_run]. A newly built task has a [next_run];
    adding such tasks, removing tasks and running cycles never produce a
    task without one. The premise of the due-selection property therefore
    holds in every state the scheduler reaches by these operations. *)
Lemma next_run_present_preserved st :
  (forall id ty src dst sched rec ival t s1,
     ScheduledTask_init id ty src dst sched rec ival st = (Ok t, s1) ->
     next_run t <> None)
  /\ (have_next_run (tasks st) ->
      (forall task, next_run task <> None ->
                    have_next_run (tasks (snd (add_task task st))))
      /\ (forall id, have_next_run (tasks (snd (remove_task id st))))
      /\ have_next_run (tasks (snd (_scheduler_loop_body st)))
      /\ pending_have_next_run (tasks st)).
Proof.
  split.
  - intros id ty src dst [d|] rec ival t s1; unfold ScheduledTask_init;
      unfold_monad; intros [= <- _]; discriminate.
  - intros Hok. split; [|split; [|split]].
    + intros task Ht. unfold add_task. unfold_monad. simpl.
      destruct (write_error st) as [[?|? ?]|]; simpl;
        now apply (forall_set (fun t => next_run t <> None)).
    + intros id. unfold remove_task. unfold_monad.
      destruct (Dict.mem id (tasks st)); simpl; [|assumption].
      destruct (write_error st) as [[?|? ?]|]; simpl;
        now apply (forall_del (fun t => next_run t <> None)).
    + unfold _scheduler_loop_body, try_except, bind. rewrite scan_unfold.
      pose proof (scan_keeps_next_run (clock (ticks st)) (tasks st)
                    (set_ticks (S (ticks st)) st) Hok) as Hscan.
      destruct (for_each _ _ _) as [[[]|e] st1]; simpl in *; assumption.
    + unfold pending_have_next_run, have_next_run in *.
      eapply Forall_impl; [|exact Hok]. intros slot H _. exact H.
Qed.

End WellFormed.

(** A task that is not pending is neither entered nor changed by the loop,
    however long it runs. *)
Lemma not_pending_never_selected {P : Platform} (s : State) k t turns :
  Dict.get k (tasks s) = Some t ->
  status t <> PENDING ->
  ~ In k (selected_between s (outcome_state (_scheduler_loop turns s)))
  /\ Dict.get k (tasks (outcome_state (_scheduler_loop turns s))) = Some t.
Proof.
  intros Hget Hst.
  destruct (loop_frame turns s) as (s' & sel & Ho & He & _ & Hnp).
  rewrite Ho, (selected_between_app s s' sel He). eauto.
Qed.

(** * The specified properties *)

Ltac distinct_keys :=
  unfold keys_distinct; simpl;
  repeat (constructor; [simpl; intuition discriminate|]); constructor.

(** C1 (amended): due selection. In a cycle over a store whose pending
    tasks all have a [next_run] that can be compared with the clock
    (present and naive), the scan returns normally, hands no task to
    [_execute_task] twice, and for every task of the store: if it is
    pending, it is handed to [_execute_task] in that cycle if and only if
    its [next_run] is not after the time read at the start of the scan; if
    it has any other status, it is not handed over. *)
Theorem due_selection {P : Platform} (st : State) :
  keys_distinct (tasks st) ->
  pending_comparable (tasks st) ->
  let now := clock (ticks st) in
  let st' := snd (_check_and_execute_tasks st) in
  fst (_check_and_execute_tasks st) = Ok tt
  /\ NoDup (selected_between st st')
  /\ forall k t, In (k, t) (tasks st) ->
       (status t = PENDING ->
        (In k (selected_between st st')
         <-> exists d, next_run t = Some (Naive d) /\ d <= now))
       /\ (status t <> PENDING -> ~ In k (selected_between st st')).
Proof.
  intros Hnd Hnext now st'. subst st'. rewrite scan_unfold. fold now.
  destruct (scan_completes now (tasks st) (set_ticks (S (ticks st)) st))
    as (st' & sel & Hrun & He & Hiff & Honce); auto.
  { intros k t Hin. simpl. now apply DictFacts.in_get. }
  rewrite Hrun. simpl. split; [reflexivity|].
  simpl in He. rewrite (selected_between_app st st' sel He).
  split; [exact Honce|].
  intros k t Hin. split.
  - intros Hp. rewrite Hiff. split.
    + intros (t' & Hin' & _ & Hd).
      assert (t' = t) as ->.
      { apply (DictFacts.in_get _ _ _ Hnd) in Hin, Hin'. congruence. }
      exact Hd.
    + intros Hd. exists t. split; [assumption|]. split; assumption.
  - intros Hnp Hsel. apply Hiff in Hsel. destruct Hsel as (t' & Hin' & Hp & _).
    assert (t' = t) as ->.
    { apply (DictFacts.in_get _ _ _ Hnd) in Hin, Hin'. congruence. }
    contradiction.
Qed.

(** Counterexample to C1 as stated: a due task placed after a pending
    task that has no [next_run]. The scan raises at the latter, and the
    former, although pending with a [next_run] before the time read at the
    start of the scan, is not handed to [_execute_task] in that cycle. *)
Lemma due_task_behind_absent_next_run_waits :
  let st := Sample.with_gap in
  let now := clock (Platform := Sample.platform) (ticks st) in
  let st' := snd (_check_and_execute_tasks (P := Sample.platform) st) in
  exists t d,
    In ("z", t) (tasks st)
    /\ status t = PENDING
    /\ next_run t = Some (Naive d) /\ d <= now
    /\ ~ In "z" (selected_between st st').
Proof.
  exists (Sample.upload "z" false 0), (Sample.start_of_2024 - 1000000).
  split; [right; right; now left|].
  split; [reflexivity|]. split; [reflexivity|].
  split; [vm_compute; discriminate|].
  vm_compute. intros [E|[]]. discriminate.
Qed.

Lemma due_selection_witness :
  keys_distinct (tasks Sample.scanning)
  /\ pending_comparable (tasks Sample.scanning)
  /\ selected_between Sample.scanning
       (snd (_check_and_execute_tasks (P := Sample.platform) Sample.scanning))
     = ["a"]
  /\ fst (_check_and_execute_tasks (P := Sample.platform) Sample.scanning) = Ok tt.
Proof.
  assert (keys_distinct (tasks Sample.scanning)) as Hnd by distinct_keys.
  assert (pending_comparable (tasks Sample.scanning)) as Hnext.
  { repeat constructor; simpl; intros _; eexists; reflexivity. }
  split; [exact Hnd|]. split; [exact Hnext|]. split; [reflexivity|].
  exact (proj1 (due_selection (P := Sample.platform) Sample.scanning Hnd Hnext)).
Defined.

(** C2 (amended): recurrence on success. When the executor reports
    success for the task in slot [k]: if the task is recurring with a
    positive [interval_minutes], and [T] plus that many minutes is still a
    datetime, the task ends pending with [next_run] equal to [T] plus
    [interval_minutes] minutes, [T] being the clock reading taken for the
    rescheduling (the one after the reading stored in [last_run]); if the
    task is not recurring, or its interval is not positive, it ends
    completed, and from any state whose slot still holds it the loop never
    enters it again, however many cycles it runs. *)
Theorem recurrence_on_success {P : Platform} (st : State) k task executor w :
  Dict.get k (tasks st) = Some task ->
  task_executor st = Some executor ->
  executor (with_status RUNNING task) (world st) = (Ok true, w) ->
  let T := clock (S (ticks st)) in
  let st1 := snd (_execute_task k task st) in
  (recurring task = true -> 0 < interval_minutes task ->
   0 <= T -> T + interval_minutes task * 60000000 <= datetime_max ->
   exists task',
     Dict.get k (tasks st1) = Some task'
     /\ status task' = PENDING
     /\ next_run task' = Some (Naive (T + interval_minutes task * 60000000)))
  /\ (recurring task = false \/ interval_minutes task <= 0 ->
      exists task',
        Dict.get k (tasks st1) = Some task'
        /\ status task' = COMPLETED
        /\ forall s, Dict.get k (tasks s) = Some task' ->
           forall turns,
             let s' := outcome_state (_scheduler_loop turns s) in
             ~ In k (selected_between s s')
             /\ Dict.get k (tasks s') = Some task').
Proof.
  intros Hget Hex Hrun T st1. subst st1.
  rewrite (execute_task_outcome k task st executor (Ok true) w Hex Hrun Hget).
  fold T. unfold task_after. split.
  - intros Hrec Hpos HT Hmax.
    rewrite Hrec. replace (interval_minutes task >? 0) with true
      by (symmetry; apply Z.gtb_lt; lia).
    simpl. rewrite (plus_minutes_in_range T _ Hpos HT Hmax).
    eexists. split; [reflexivity|]. split; reflexivity.
  - intros Hnot.
    replace (recurring task && (interval_minutes task >? 0)) with false.
    2:{ symmetry. apply andb_false_iff. destruct Hnot as [E|E]; [now left|].
        right. rewrite Z.gtb_ltb. apply Z.ltb_ge. exact E. }
    eexists. split; [reflexivity|]. split; [reflexivity|].
    intros s Hs turns. cbv zeta.
    apply not_pending_never_selected; [assumption|]. simpl. discriminate.
Qed.

(** Counterexample to C2 as stated: a recurring task whose interval is 0.
    The executor succeeds, and the task ends completed, not pending, with
    the [next_run] it had. *)
Lemma recurring_zero_interval_completes :
  let task := Sample.upload "t1" true 0 in
  let st1 := snd (_execute_task (P := Sample.platform) "t1" task
                    (Sample.single task Sample.succeeding)) in
  recurring task = true
  /\ Sample.succeeding (with_status RUNNING task) tt = (Ok true, tt)
  /\ option_map status (Dict.get "t1" (tasks st1)) = Some COMPLETED
  /\ option_map status (Dict.get "t1" (tasks st1)) <> Some PENDING
  /\ option_map next_run (Dict.get "t1" (tasks st1)) = Some (next_run task).
Proof. vm_compute. repeat split. discriminate. Qed.

Lemma recurrence_on_success_witness :
  let task := Sample.upload "t1" true 30 in
  let st := Sample.single task Sample.succeeding in
  let st1 := snd (_execute_task (P := Sample.platform) "t1" task st) in
  exists task',
    Dict.get "t1" (tasks st1) = Some task'
    /\ status task' = PENDING
    /\ next_run task'
       = Some (Naive (clock (Platform := Sample.platform) 1 + 30 * 60000000)).
Proof.
  intros task st st1.
  refine (proj1 (recurrence_on_success (P := Sample.platform) st "t1" task
                   Sample.succeeding tt eq_refl eq_refl eq_refl)
            eq_refl _ _ _).
  - reflexivity.
  - discriminate.
  - discriminate.
Defined.

(** C3: failure does not advance recurrence. When the executor returns
    false or raises for the task in slot [k] (recurring or not), the task
    ends failed with the [next_run] it had before the execution; and from
    any state whose slot [k] holds a failed task, the loop never enters
    it, and leaves it failed, however many cycles it runs. *)
Theorem failure_does_not_advance {P : Platform} (st : State) k task executor
    answer w :
  Dict.get k (tasks st) = Some task ->
  task_executor st = Some executor ->
  executor (with_status RUNNING task) (world st) = (answer, w) ->
  answer <> Ok true ->
  let st1 := snd (_execute_task k task st) in
  (exists task',
     Dict.get k (tasks st1) = Some task'
     /\ status task' = FAILED
     /\ next_run task' = next_run task)
  /\ forall s t, Dict.get k (tasks s) = Some t -> status t = FAILED ->
     forall turns,
       let s' := outcome_state (_scheduler_loop turns s) in
       ~ In k (selected_between s s') /\ Dict.get k (tasks s') = Some t.
Proof.
  intros Hget Hex Hrun Hfail st1. subst st1.
  rewrite (execute_task_outcome k task st executor answer w Hex Hrun Hget).
  split.
  - unfold task_after. destruct answer as [[|]|e]; [congruence | |];
      (eexists; split; [reflexivity|]; split; reflexivity).
  - intros s t Hs Hst turns. cbv zeta.
    apply not_pending_never_selected; [assumption|]. congruence.
Qed.

Lemma failure_does_not_advance_witness :
  let task := Sample.upload "t1" true 30 in
  let st := Sample.single task Sample.crashing in
  let st1 := snd (_execute_task (P := Sample.platform) "t1" task st) in
  exists task',
    Dict.get "t1" (tasks st1) = Some task'
    /\ status task' = FAILED
    /\ next_run task' = next_run task.
Proof.
  intros task st st1.
  refine (proj1 (failure_does_not_advance (P := Sample.platform) st "t1" task
                   Sample.crashing (Raise "connection lost") tt
                   eq_refl eq_refl eq_refl _)).
  discriminate.
Defined.

(** C4 (amended): execution failure handling. When the executor fails on
    the task in slot [k], [_execute_task] returns normally and the task
    ends failed, its [error_message] being the text of the exception when
    the executor raised, and the fixed text [Task execution failed] when it
    returned false; and while [self.running] holds, the loop neither
    returns nor lets an exception out, whatever its cycles meet. *)
Theorem execution_failure_handling {P : Platform} (st : State) k task executor
    answer w :
  Dict.get k (tasks st) = Some task ->
  task_executor st = Some executor ->
  executor (with_status RUNNING task) (world st) = (answer, w) ->
  answer <> Ok true ->
  fst (_execute_task k task st) = Ok tt
  /\ (exists task',
        Dict.get k (tasks (snd (_execute_task k task st))) = Some task'
        /\ status task' = FAILED
        /\ error_message task'
           = match answer with
             | Raise e => e
             | Ok _ => "Task execution failed"
             end)
  /\ forall s turns, running s = true ->
       exists s', _scheduler_loop turns s = Looping s'.
Proof.
  intros Hget Hex Hrun Hfail. split; [|split].
  - destruct (execute_task_frame k task st) as (st' & f & Heq & _).
    now rewrite Heq.
  - rewrite (execute_task_outcome k task st executor answer w Hex Hrun Hget).
    unfold task_after. destruct answer as [[|]|e]; [congruence | |];
      (eexists; split; [reflexivity|]; split; reflexivity).
  - intros s turns Hr.
    destruct (loop_frame turns s) as (s' & sel & _ & _ & Hl & _).
    exists s'. auto.
Qed.

(** Counterexample to C4 as stated: an executor that returns false. The
    [error_message] is then [Task execution failed], not the empty text. *)
Lemma refusal_error_message_not_empty :
  let task := Sample.upload "t1" false 0 in
  let st1 := snd (_execute_task (P := Sample.platform) "t1" task
                    (Sample.single task Sample.refusing)) in
  Sample.refusing (with_status RUNNING task) tt = (Ok false, tt)
  /\ option_map error_message (Dict.get "t1" (tasks st1))
     = Some "Task execution failed"
  /\ option_map error_message (Dict.get "t1" (tasks st1)) <> Some "".
Proof. vm_compute. repeat split. discriminate. Qed.

Lemma execution_failure_handling_witness :
  let task := Sample.upload "t1" false 0 in
  let st := Sample.single task Sample.crashing in
  fst (_execute_task (P := Sample.platform) "t1" task st) = Ok tt
  /\ exists task',
       Dict.get "t1" (tasks (snd (_execute_task (P := Sample.platform)
                                    "t1" task st))) = Some task'
       /\ status task' = FAILED
       /\ error_message task' = "connection lost".
Proof.
  intros task st.
  assert (Raise "connection lost" <> @Ok bool true) as Hfail by discriminate.
  pose proof (execution_failure_handling (P := Sample.platform) st "t1" task
                Sample.crashing (Raise "connection lost") tt
                eq_refl eq_refl eq_refl Hfail) as [H1 [H2 _]].
  split; [exact H1 | exact H2].
Defined.

(** C5 (amended): [last_run]. A newly constructed task has no
    [last_run]. When the scheduler executes the task in slot [k]: if the
    executor returns true, [last_run] becomes the clock reading taken
    right after it returned; if the executor returns false or raises,
    [last_run] keeps the value it had. *)
Theorem last_run_on_attempt {P : Platform} (st : State) k task executor
    answer w :
  Dict.get k (tasks st) = Some task ->
  task_executor st = Some executor ->
  executor (with_status RUNNING task) (world st) = (answer, w) ->
  (forall id ty src dst sched rec ival s0,
     exists t s1,
       ScheduledTask_init id ty src dst sched rec ival s0 = (Ok t, s1)
       /\ last_run t = None)
  /\ exists task',
       Dict.get k (tasks (snd (_execute_task k task st))) = Some task'
       /\ last_run task'
          = match answer with
            | Ok true => Some (Naive (clock (ticks st)))
            | _ => last_run task
            end.
Proof.
  intros Hget Hex Hrun. split.
  - intros id ty src dst [d|] rec ival s0; eexists _, _;
      (split; [reflexivity|]); reflexivity.
  - rewrite (execute_task_outcome k task st executor answer w Hex Hrun Hget).
    unfold task_after. destruct answer as [[|]|e].
    + destruct (recurring task && (interval_minutes task >? 0)).
      * destruct (plus_minutes _ _);
          (eexists; split; [reflexivity|]; reflexivity).
      * eexists; split; [reflexivity|]; reflexivity.
    + eexists; split; [reflexivity|]; reflexivity.
    + eexists; split; [reflexivity|]; reflexivity.
Qed.

(** Counterexample to C5 as stated: a failed attempt. A task that never
    ran and whose executor returns false still has no [last_run]. *)
Lemma failed_attempt_leaves_last_run :
  let task := Sample.upload "t1" false 0 in
  let st1 := snd (_execute_task (P := Sample.platform) "t1" task
                    (Sample.single task Sample.refusing)) in
  Sample.refusing (with_status RUNNING task) tt = (Ok false, tt)
  /\ option_map status (Dict.get "t1" (tasks st1)) = Some FAILED
  /\ option_map last_run (Dict.get "t1" (tasks st1)) = Some None
  /\ forall finished,
       option_map last_run (Dict.get "t1" (tasks st1)) <> Some (Some finished).
Proof. vm_compute. repeat split. intros finished. discriminate. Qed.

Lemma last_run_on_attempt_witness :
  let task := Sample.upload "t1" false 0 in
  let st := Sample.single task Sample.succeeding in
  exists task',
    Dict.get "t1" (tasks (snd (_execute_task (P := Sample.platform)
                                 "t1" task st))) = Some task'
    /\ last_run task' = Some (Naive Sample.start_of_2024).
Proof.
  intros task st.
  exact (proj2 (last_run_on_attempt (P := Sample.platform) st "t1" task
                  Sample.succeeding (Ok true) tt eq_refl eq_refl eq_refl)).
Defined.

(** C10: absent [next_run]. When the store holds a pending task without
    [next_run], the scan of the cycle raises the error [e] of a due-check
    comparison (that of this task, or of a task before it that cannot be
    compared either); neither that task nor any task placed after it in
    the store is handed to [_execute_task] in that cycle; the turn of the
    loop catches the error: it returns normally in the state the scan
    stopped in, with [Scheduler error: e] logged; from there the loop
    takes its next turn, and goes on while [self.running] holds; and
    however many cycles the loop runs, that task is never handed to
    [_execute_task]. Such a task is what [from_dict] builds from a record
    whose [next_run] is null or missing. *)
Theorem absent_next_run_aborts_scan {P : Platform} (st : State) pre k t post :
  keys_distinct (tasks st) ->
  tasks st = (pre ++ (k, t) :: post)%list ->
  status t = PENDING -> next_run t = None ->
  let now := clock (ticks st) in
  let st' := snd (_check_and_execute_tasks st) in
  exists e,
    let caught := set_log (log st' ++ [ERROR ("Scheduler error: " ++ e)]) st' in
    fst (_check_and_execute_tasks st) = Raise e
    /\ (exists k0 t0,
          In (k0, t0) (pre ++ [(k, t)])%list
          /\ status t0 = PENDING
          /\ datetime_le (next_run t0) now = Raise e)
    /\ (forall k', In k' (k :: Dict.keys post) ->
                   ~ In k' (selected_between st st'))
    /\ _scheduler_loop_body st = (Ok tt, caught)
    /\ (forall turns, running st = true ->
          _scheduler_loop (S turns) st = _scheduler_loop turns caught
          /\ exists s, _scheduler_loop turns st = Looping s)
    /\ (forall turns,
          ~ In k (selected_between st
                    (outcome_state (_scheduler_loop turns st))))
    /\ (forall data loaded s,
          fst (from_dict data s) = Ok loaded ->
          get_or data "next_run" JNull = JNull ->
          next_run loaded = None).
Proof.
  intros Hnd Hsplit Hp Hn now st'. subst st' now.
  assert (incomparable t) as Hinc by (unfold incomparable; now rewrite Hn).
  assert (Dict.get k (tasks st) = Some t) as Hget.
  { apply DictFacts.in_get; [exact Hnd|]. rewrite Hsplit.
    apply in_or_app. right. now left. }
  assert (exists e st2 sel,
            _check_and_execute_tasks st = (Raise e, st2)
            /\ entered st2 = (entered st ++ sel)%list
            /\ (forall k', In k' sel -> In k' (Dict.keys pre))
            /\ exists k0 t0,
                 In (k0, t0) (pre ++ [(k, t)])%list
                 /\ status t0 = PENDING
                 /\ datetime_le (next_run t0) (clock (ticks st)) = Raise e)
    as (e & st2 & sel & Hrun & He & Hsub & Hwho).
  { rewrite scan_unfold, Hsplit.
    destruct (scan_aborts (clock (ticks st)) k t post pre
                (set_ticks (S (ticks st)) st))
      as (e & st2 & sel & Hrun & He & Hsub & _ & Hwho); auto.
    { rewrite <- Hsplit. exact Hnd. }
    { rewrite <- Hsplit. simpl. intros k' t' Hin. now apply DictFacts.in_get. }
    exists e, st2, sel. auto. }
  exists e. cbv zeta. rewrite Hrun. simpl.
  rewrite (selected_between_app st st2 sel He).
  assert (_scheduler_loop_body st
          = (Ok tt, set_log (log st2 ++ [ERROR ("Scheduler error: " ++ e)]) st2))
    as Hbody.
  { unfold _scheduler_loop_body, try_except, bind. now rewrite Hrun. }
  split; [reflexivity|]. split; [exact Hwho|].
  split; [|split; [exact Hbody|split; [|split]]].
  - intros k' Hin Hsel. apply Hsub in Hsel.
    unfold keys_distinct in Hnd. rewrite Hsplit in Hnd.
    unfold Dict.keys in Hnd, Hin, Hsel. rewrite map_app in Hnd. simpl in Hnd.
    destruct Hin as [<-|Hin].
    + apply NoDup_remove_2 in Hnd. apply Hnd. apply in_or_app. now left.
    + clear - Hnd Hin Hsel.
      induction (map fst pre) as [|x xs IH]; [contradiction|].
      simpl in Hnd. inversion Hnd as [|? ? Hx Hnd']; subst.
      destruct Hsel as [->|Hsel]; [|auto].
      apply Hx. apply in_or_app. right. now right.
  - intros turns Hr. split.
    + simpl. now rewrite Hr, Hbody.
    + destruct (loop_frame turns st) as (s' & _ & _ & _ & Hl & _). eauto.
  - intros turns.
    destruct (loop_absent k t turns st Hnd Hget Hp Hinc) as (sel' & He' & Hnot).
    now rewrite (selected_between_app _ _ sel' He').
  - intros data loaded s Hload Hnull.
    apply (falsy_next_run_loads_absent data loaded s Hload).
    now rewrite Hnull.
Qed.

Lemma absent_next_run_aborts_scan_witness :
  let st := Sample.with_gap in
  let st' := snd (_check_and_execute_tasks (P := Sample.platform) st) in
  exists e,
    fst (_check_and_execute_tasks (P := Sample.platform) st) = Raise e
    /\ selected_between st st' = ["a"]
    /\ ~ In "z" (selected_between st st')
    /\ _scheduler_loop_body (P := Sample.platform) st
       = (Ok tt, set_log (log st' ++ [ERROR ("Scheduler error: " ++ e)]) st').
Proof.
  assert (keys_distinct (tasks Sample.with_gap)) as Hnd by distinct_keys.
  destruct (absent_next_run_aborts_scan (P := Sample.platform)
              Sample.with_gap
              [("a", Sample.upload "a" false 0)] "x"
              (with_next_run None (Sample.upload "x" false 0))
              [("z", Sample.upload "z" false 0)]
              Hnd eq_refl eq_refl eq_refl)
    as (e & H1 & _ & H2 & H3 & _).
  exists e. split; [exact H1|]. split; [reflexivity|].
  split; [apply H2; right; now left | exact H3].
Defined.

(** C7: idempotent removal. Removing an id the store does not hold
    returns false and changes nothing (store, file and log included);
    removing an id it holds returns true, and [get_task] then finds
    nothing under that id. *)
Theorem idempotent_removal {P : Platform} (st : State) (id : string) :
  keys_distinct (tasks st) ->
  (Dict.get id (tasks st) = None -> remove_task id st = (Ok false, st))
  /\ (forall t, Dict.get id (tasks st) = Some t ->
      exists st',
        remove_task id st = (Ok true, st')
        /\ get_task id st' = (Ok None, st')).
Proof.
  intros Hnd. unfold remove_task, get_task. unfold_monad. split.
  - intros Hget. unfold Dict.mem. now rewrite Hget.
  - intros t Hget. unfold Dict.mem. rewrite Hget. simpl.
    destruct (write_error st) as [[?|? ?]|]; simpl;
      (eexists; split; [reflexivity|]); simpl;
      now rewrite DictFacts.get_del_same.
Qed.

Lemma idempotent_removal_witness :
  remove_task (P := Sample.platform) "nobody" Sample.scanning
  = (Ok false, Sample.scanning)
  /\ exists st',
       remove_task (P := Sample.platform) "b" Sample.scanning = (Ok true, st')
       /\ get_task "b" st' = (Ok None, st').
Proof.
  assert (keys_distinct (tasks Sample.scanning)) as Hnd by distinct_keys.
  destruct (idempotent_removal (P := Sample.platform) Sample.scanning "nobody" Hnd)
    as [Habsent _].
  destruct (idempotent_removal (P := Sample.platform) Sample.scanning "b" Hnd)
    as [_ Hpresent].
  split; [exact (Habsent eq_refl) | exact (Hpresent _ eq_refl)].
Defined.

(** C9 (amended): facade calls and a failing write. When the write of
    the tasks file fails with [e], at the opening of the file or after
    it, [add_task] and [remove_task] do not pass the error on:
    [save_tasks] catches it and logs it. [add_task] returns normally and
    [remove_task] returns true for an id of the store; the store in memory
    is updated. The file is as it was when it could not be opened; when the
    failure came after the opening, it holds what the interrupted write
    left in it. *)
Theorem write_failure_is_logged {P : Platform} (st : State) (fault : WriteFault) :
  write_error st = Some fault ->
  let e := match fault with OpenFails e => e | DumpFails e _ => e end in
  let file_after := match fault with
                    | OpenFails _ => tasks_file st
                    | DumpFails _ remains => Some remains
                    end in
  (forall task,
     exists st',
       add_task task st = (Ok tt, st')
       /\ tasks st' = Dict.set (task_id task) task (tasks st)
       /\ tasks_file st' = file_after
       /\ log st' = (log st ++ [ERROR ("Failed to save tasks: " ++ e);
                                INFO ("Added task: " ++ task_id task)])%list)
  /\ (forall id t, Dict.get id (tasks st) = Some t ->
     exists st',
       remove_task id st = (Ok true, st')
       /\ tasks st' = Dict.del id (tasks st)
       /\ tasks_file st' = file_after
       /\ log st' = (log st ++ [ERROR ("Failed to save tasks: " ++ e);
                                INFO ("Removed task: " ++ id)])%list).
Proof.
  intros Hw e file_after. subst e file_after. split.
  - intros task. unfold add_task. unfold_monad. simpl. rewrite Hw.
    destruct fault as [e|e remains]; simpl;
      (eexists; split; [reflexivity|]); simpl;
      rewrite <- app_assoc; repeat split.
  - intros id t Hget. unfold remove_task. unfold_monad.
    unfold Dict.mem. rewrite Hget. simpl. rewrite Hw.
    destruct fault as [e|e remains]; simpl;
      (eexists; split; [reflexivity|]); simpl;
      rewrite <- app_assoc; repeat split.
Qed.

(** Counterexample to C9 as stated: a file that cannot be opened for
    writing. [add_task] returns normally and [remove_task] returns true,
    as they do when the write succeeds; neither raises. *)
Lemma facade_swallows_write_error :
  let task := Sample.upload "c" false 0 in
  write_error Sample.read_only
  = Some (OpenFails "[Errno 13] Permission denied")
  /\ fst (add_task (P := Sample.platform) task Sample.read_only) = Ok tt
  /\ fst (remove_task (P := Sample.platform) "a" Sample.read_only) = Ok true
  /\ (forall e, fst (add_task (P := Sample.platform) task Sample.read_only)
                <> Raise e)
  /\ (forall e, fst (remove_task (P := Sample.platform) "a" Sample.read_only)
                <> Raise e)
  /\ tasks_file (snd (add_task (P := Sample.platform) task Sample.read_only))
     = None.
Proof. vm_compute. repeat split; intros e; discriminate. Qed.

Lemma write_failure_is_logged_witness :
  let task := Sample.upload "c" false 0 in
  (exists st',
     add_task (P := Sample.platform) task Sample.read_only = (Ok tt, st')
     /\ tasks st' = Dict.set "c" task (tasks Sample.read_only)
     /\ tasks_file st' = None
     /\ log st' = [ERROR "Failed to save tasks: [Errno 13] Permission denied";
                   INFO "Added task: c"])
  /\ (exists st',
        remove_task (P := Sample.platform) "a" Sample.disk_full = (Ok true, st')
        /\ tasks st' = [("b", Sample.upload "b" true 30)]
        /\ tasks_file st'
           = Some (Unreadable "Expecting value: line 1 column 1 (char 0)")
        /\ log st'
           = [ERROR "Failed to save tasks: [Errno 28] No space left on device";
              INFO "Removed task: a"]).
Proof.
  intros task. split.
  - exact (proj1 (write_failure_is_logged (P := Sample.platform)
                    Sample.read_only
                    (OpenFails "[Errno 13] Permission denied") eq_refl)
             task).
  - exact (proj2 (write_failure_is_logged (P := Sample.platform)
                    Sample.disk_full
                    (DumpFails "[Errno 28] No space left on device"
                       (Unreadable "Expecting value: line 1 column 1 (char 0)"))
                    eq_refl)
             "a" (Sample.upload "a" false 0) eq_refl).
Defined.

(** C6: round-trip persistence. For a store whose keys are distinct and
    are the ids of its tasks, and a file that can be written: after the
    store is saved, constructing a scheduler on the file, from any state
    of the memory (whatever store was there, the file being the one
    written), yields a store with the same keys, in the same order,
    holding tasks equal in every attribute (absent [last_run] and
    [next_run] stay absent). *)
Theorem persistence_round_trip {P : Platform} {L : PlatformLaws P} (st : State) :
  keys_distinct (tasks st) ->
  keyed_by_id (tasks st) ->
  write_error st = None ->
  let saved := snd (save_tasks st) in
  fst (save_tasks st) = Ok tt
  /\ forall fresh,
       tasks_file fresh = tasks_file saved ->
       fst (TaskScheduler_init fresh) = Ok tt
       /\ tasks (snd (TaskScheduler_init fresh)) = tasks st.
Proof.
  intros Hnd Hid Hw saved.
  assert (save_tasks st
          = (Ok tt, set_tasks_file
                      (Some (Document (JList (map to_dict (Dict.values (tasks st))))))
                      st)) as Hsave.
  { unfold save_tasks. unfold_monad. simpl. now rewrite Hw. }
  subst saved. rewrite Hsave. simpl. split; [reflexivity|].
  intros fresh Hfile.
  unfold TaskScheduler_init, load_tasks. unfold_monad.
  simpl. rewrite Hfile. simpl. rewrite Hfile. simpl.
  rewrite (load_loop_all fresh _ (Dict.values (tasks st)))
    by apply to_dict_decodes.
  simpl. rewrite store_values; auto.
Qed.

Lemma persistence_round_trip_witness :
  let saved := snd (save_tasks (P := Sample.platform) Sample.scanning) in
  let fresh := Sample.state_of [("old", Sample.upload "old" false 0)] None
                 (tasks_file saved) None in
  tasks (snd (TaskScheduler_init fresh)) = Sample.three_tasks.
Proof.
  assert (keys_distinct (tasks Sample.scanning)) as Hnd by distinct_keys.
  assert (keyed_by_id (tasks Sample.scanning)) as Hid
    by (repeat constructor).
  exact (proj2 (proj2 (persistence_round_trip (P := Sample.platform)
                         (L := sample_laws) Sample.scanning Hnd Hid eq_refl)
                  _ eq_refl)).
Defined.

(** C8 (amended): loading at construction. [TaskScheduler.__init__]
    never raises. With no tasks file the store is empty and nothing is
    logged. With a file that cannot be opened or parsed, or whose document
    cannot be iterated, the failure is logged and the store is empty. With
    a document of records that all decode, the store holds them all. With
    a document whose records decode up to one that does not, the failure
    is logged and the store holds the records decoded before it (the
    records considered are those whose unexamined attributes have the
    types [ScheduledTask] gives them, see [typed_record]). *)
Theorem load_at_construction {P : Platform} (st : State) :
  let st' := snd (TaskScheduler_init st) in
  let failed e := (log st ++ [ERROR ("Failed to load tasks: " ++ e)])%list in
  fst (TaskScheduler_init st) = Ok tt
  /\ match tasks_file st with
     | None => tasks st' = [] /\ log st' = log st
     | Some (Unreadable e) => tasks st' = [] /\ log st' = failed e
     | Some (Document doc) =>
         match py_iter doc with
         | Raise e => tasks st' = [] /\ log st' = failed e
         | Ok records =>
             (forall loaded,
                Forall2 (decodes st) records loaded ->
                tasks st' = stored loaded
                /\ log st'
                   = (log st ++ [INFO ("Loaded "
                                       ++ str_nat (length (stored loaded))
                                       ++ " tasks")])%list)
             /\ (forall good bad rest loaded e,
                   records = (good ++ bad :: rest)%list ->
                   Forall2 (decodes st) good loaded ->
                   fst (from_dict bad st) = Raise e ->
                   typed_record bad = true ->
                   tasks st' = stored loaded /\ log st' = failed e)
         end
     end.
Proof.
  intros st' failed. subst st' failed.
  unfold TaskScheduler_init, load_tasks. unfold_monad. simpl.
  destruct (tasks_file st) as [[e|doc]|] eqn:Hfile; simpl;
    try (rewrite Hfile; simpl).
  - repeat split.
  - destruct (py_iter doc) as [records|e] eqn:Hiter; simpl.
    + assert (forall loaded, Forall2 (decodes st) records loaded ->
              forall s, for_each records
                (fun task_data =>
                   task <- from_dict task_data ;; setitem (task_id task) task) s
              = (Ok tt, set_tasks (fold_left
                                     (fun d t => Dict.set (task_id t) t d)
                                     loaded (tasks s)) s)) as Hall.
      { intros loaded Hl s. now apply (load_loop_all st). }
      split; [|split].
      * match goal with
        | |- fst (match ?c with _ => _ end) = _ => destruct c as [[[]|e] s1]
        end; reflexivity.
      * intros loaded Hl. unfold bind in Hall |- *.
        rewrite (Hall loaded Hl). simpl. split; reflexivity.
      * intros good bad rest loaded e -> Hl Hbad _.
        pose proof (load_loop_stops st bad e rest good loaded) as Hstop.
        unfold bind in Hstop |- *. rewrite Hstop by assumption.
        simpl. split; reflexivity.
    + repeat split.
  - repeat split.
Qed.

(** Counterexample to C8 as stated: a file whose second record cannot be
    deserialized. The failure is logged, and the store keeps the first
    record instead of being empty. *)
Lemma partial_load_keeps_prefix :
  let st' := snd (TaskScheduler_init (P := Sample.platform) Sample.half_good) in
  tasks st' = [("a", Sample.upload "a" false 0)]
  /\ tasks st' <> []
  /\ log st' = [ERROR "Failed to load tasks: 'task_id'"].
Proof. vm_compute. repeat split. discriminate. Qed.

(** * Further properties of the scheduler *)

(** ** The facade *)

Lemma get_set_same {V} k (v : V) d : Dict.get k (Dict.set k v d) = Some v.
Proof.
  induction d as [|[k' v'] d IH]; simpl.
  - now rewrite String.eqb_refl.
  - destruct (String.eqb k k') eqn:E; simpl; rewrite E; auto.
Qed.

Lemma get_set_other {V} k k' (v : V) d :
  k' <> k -> Dict.get k' (Dict.set k v d) = Dict.get k' d.
Proof.
  intros Hne. induction d as [|[k0 v0] d IH]; simpl.
  - destruct (String.eqb_spec k' k); [contradiction | reflexivity].
  - destruct (String.eqb_spec k k0) as [->|Hk]; simpl.
    + destruct (String.eqb_spec k' k0); [contradiction | reflexivity].
    + destruct (String.eqb k' k0); auto.
Qed.

Lemma keys_set_present {V} k (v old : V) d :
  Dict.get k d = Some old -> Dict.keys (Dict.set k v d) = Dict.keys d.
Proof.
  induction d as [|[k0 v0] d IH]; simpl; [discriminate|].
  destruct (String.eqb k k0); simpl; [reflexivity|].
  intros H. f_equal. now apply IH.
Qed.

Lemma get_del_other {V} k k' (d : Dict.t V) :
  k' <> k -> Dict.get k' (Dict.del k d) = Dict.get k' d.
Proof.
  intros Hne. induction d as [|[k0 v0] d IH]; simpl; [reflexivity|].
  destruct (String.eqb_spec k k0) as [->|Hk]; simpl.
  - destruct (String.eqb_spec k' k0); [contradiction | reflexivity].
  - destruct (String.eqb k' k0); auto.
Qed.

Lemma del_last_fresh {V} k (v : V) d :
  Dict.get k d = None -> Dict.del k (d ++ [(k, v)])%list = d.
Proof.
  induction d as [|[k0 v0] d IH]; simpl.
  - now rewrite String.eqb_refl.
  - destruct (String.eqb k k0); [discriminate|].
    intros H. now rewrite IH.
Qed.

(** X1: [add_task] then [get_task]. Whatever the state (the write may
    fail), [add_task] returns normally, [get_task] then finds the task
    under its id, and finds under every other id what it found before. *)
Theorem add_then_get {P : Platform} (st : State) (task : ScheduledTask) :
  let st' := snd (add_task task st) in
  fst (add_task task st) = Ok tt
  /\ fst (get_task (task_id task) st') = Ok (Some task)
  /\ forall id, id <> task_id task ->
       fst (get_task id st') = fst (get_task id st).
Proof.
  unfold add_task, get_task. unfold_monad. simpl.
  destruct (write_error st) as [[?|? ?]|]; simpl;
    (split; [reflexivity|]; split;
     [now rewrite get_set_same
     | intros id Hne; now rewrite get_set_other]).
Qed.

(** X2: where [add_task] puts the task. A task whose id the store does
    not hold goes last in [get_all_tasks]; a task whose id the store holds
    replaces the old one in its place, the order and the number of tasks
    staying as they were. *)
Theorem add_task_position {P : Platform} (st : State) (task : ScheduledTask) :
  let st' := snd (add_task task st) in
  (Dict.get (task_id task) (tasks st) = None ->
   fst (get_all_tasks st') = Ok (Dict.values (tasks st) ++ [task])%list)
  /\ (forall old, Dict.get (task_id task) (tasks st) = Some old ->
      Dict.keys (tasks st') = Dict.keys (tasks st)
      /\ length (tasks st') = length (tasks st)).
Proof.
  assert (tasks (snd (add_task task st))
          = Dict.set (task_id task) task (tasks st)) as Hst.
  { unfold add_task. unfold_monad. simpl. now destruct (write_error st) as [[?|? ?]|]. }
  cbv zeta. unfold get_all_tasks, gets. simpl. rewrite Hst. split.
  - intros Hnew. rewrite DictFacts.set_fresh by assumption.
    unfold Dict.values. now rewrite map_app.
  - intros old Hold.
    assert (Dict.keys (Dict.set (task_id task) task (tasks st))
            = Dict.keys (tasks st)) as Hk by (eapply keys_set_present; eauto).
    split; [exact Hk|].
    apply (f_equal (@length string)) in Hk. unfold Dict.keys in Hk.
    now rewrite !length_map in Hk.
Qed.

(** X3: [add_task] then [remove_task]. Adding a task under an id the
    store does not hold and removing that id gives back the store as it
    was; [remove_task] returns true; and removing an id never changes what
    the store holds under another id. *)
Theorem add_then_remove {P : Platform} (st : State) (task : ScheduledTask) :
  Dict.get (task_id task) (tasks st) = None ->
  let st1 := snd (add_task task st) in
  fst (remove_task (task_id task) st1) = Ok true
  /\ tasks (snd (remove_task (task_id task) st1)) = tasks st
  /\ forall s id id', id' <> id ->
       Dict.get id' (tasks (snd (remove_task id s))) = Dict.get id' (tasks s).
Proof.
  intros Hnew st1.
  assert (tasks st1 = (tasks st ++ [(task_id task, task)])%list) as Hst1.
  { subst st1. unfold add_task. unfold_monad. simpl.
    destruct (write_error st) as [[?|? ?]|]; simpl; now apply DictFacts.set_fresh. }
  assert (Dict.mem (task_id task) (tasks st1) = true) as Hmem.
  { unfold Dict.mem. rewrite Hst1, <- DictFacts.set_fresh by assumption.
    now rewrite get_set_same. }
  unfold remove_task. unfold_monad. rewrite Hmem. simpl.
  split; [|split].
  - now destruct (write_error st1) as [[?|? ?]|].
  - destruct (write_error st1) as [[?|? ?]|]; simpl; rewrite Hst1;
      now apply del_last_fresh.
  - intros s id id' Hne. destruct (Dict.mem id (tasks s)); simpl; [|reflexivity].
    destruct (write_error s) as [[?|? ?]|]; simpl; now apply get_del_other.
Qed.

Lemma add_then_remove_witness :
  let task := Sample.upload "new" false 0 in
  tasks (snd (remove_task (P := Sample.platform) "new"
                (snd (add_task task Sample.scanning))))
  = Sample.three_tasks.
Proof.
  intros task.
  exact (proj1 (proj2 (add_then_remove (P := Sample.platform) Sample.scanning
                         task eq_refl))).
Defined.

(** ** The file follows the store *)

Section Mirror.
Context {P : Platform}.

Lemma execute_task_mirrors k task st :
  write_error st = None -> mirrors st ->
  mirrors (snd (_execute_task k task st)).
Proof.
  intros Hw Hm. unfold mirrors in *.
  unfold _execute_task. unfold_monad. simpl.
  destruct (task_executor st) as [executor|]; simpl; [|assumption].
  destruct (executor (with_status RUNNING task) (world st)) as [[[|]|e] w]; simpl;
    [destruct (recurring task && (interval_minutes task >? 0)); simpl;
       [destruct (plus_minutes _ _); simpl|] | |];
    rewrite Hw; reflexivity.
Qed.

Lemma scan_mirrors now todo : forall st,
  write_error st = None -> mirrors st ->
  mirrors (snd (for_each todo (check_one now) st))
  /\ write_error (snd (for_each todo (check_one now) st)) = None.
Proof.
  induction todo as [|slot rest IH]; intros st Hw Hm; [split; assumption|].
  rewrite for_each_cons.
  destruct (check_one_cases now slot st) as [[Heq _]|[[(e & _ & Heq) _]|[Heq _]]];
    rewrite Heq.
  - now apply IH.
  - split; assumption.
  - pose proof (execute_task_mirrors (fst slot)
                  (match Dict.get (fst slot) (tasks st) with
                   | Some t => t | None => snd slot end) st Hw Hm) as Hm1.
    destruct (execute_task_frame (fst slot)
                (match Dict.get (fst slot) (tasks st) with
                 | Some t => t | None => snd slot end) st)
      as (st1 & f & Hex & _ & _ & _ & _ & Hw1).
    rewrite Hex in Hm1 |- *. simpl in Hm1.
    apply IH; [congruence | assumption].
Qed.

Lemma loop_body_mirrors st :
  write_error st = None -> mirrors st ->
  mirrors (snd (_scheduler_loop_body st))
  /\ write_error (snd (_scheduler_loop_body st)) = None.
Proof.
  intros Hw Hm.
  unfold _scheduler_loop_body, try_except, bind. rewrite scan_unfold.
  destruct (scan_mirrors (clock (ticks st)) (tasks st)
              (set_ticks (S (ticks st)) st) Hw Hm) as [Hm1 Hw1].
  destruct (for_each _ _ _) as [[[]|e] st1]; simpl in *; split; assumption.
Qed.

Lemma loop_mirrors turns : forall st,
  write_error st = None -> mirrors st ->
  mirrors (outcome_state (_scheduler_loop turns st)).
Proof.
  induction turns as [|n IH]; intros st Hw Hm; simpl.
  - now destruct (running st).
  - destruct (running st); [|assumption].
    destruct (loop_body_mirrors st Hw Hm) as [Hm1 Hw1].
    destruct (loop_body_frame st) as (st1 & sel & Hb & _).
    rewrite Hb in Hm1, Hw1 |- *. simpl in *. now apply IH.
Qed.

End Mirror.

(** X4: the file follows the store. While the tasks file can be written,
    [add_task] leaves in it the document of the store it has built; and
    once the file holds the document of the store, it still does after
    [remove_task] (of any id) and after any number of turns of the loop,
    whichever tasks were run. *)
Theorem file_follows_store {P : Platform} (st : State) :
  write_error st = None ->
  (forall task, mirrors (snd (add_task task st)))
  /\ (mirrors st ->
      (forall id, mirrors (snd (remove_task id st)))
      /\ (forall turns, mirrors (outcome_state (_scheduler_loop turns st)))).
Proof.
  intros Hw. split; [|intros Hm; split].
  - intros task. unfold mirrors, add_task. unfold_monad. simpl.
    rewrite Hw. reflexivity.
  - intros id. unfold mirrors in *. unfold remove_task. unfold_monad.
    destruct (Dict.mem id (tasks st)); simpl; [|assumption].
    rewrite Hw. reflexivity.
  - intros turns. now apply loop_mirrors.
Qed.

Lemma file_follows_store_witness :
  let st1 := snd (add_task (P := Sample.platform)
                    (Sample.upload "new" true 30) Sample.scanning) in
  mirrors st1
  /\ mirrors (outcome_state (_scheduler_loop 3 st1)).
Proof.
  intros st1.
  assert (mirrors st1) as Hm
    by exact (proj1 (file_follows_store (P := Sample.platform)
                       Sample.scanning eq_refl) _).
  split; [exact Hm|].
  exact (proj2 (proj2 (file_follows_store (P := Sample.platform) st1 eq_refl)
                  Hm) 3%nat).
Defined.

(** ** Cycles without an executor *)

Section NoExecutor.
Context {P : Platform}.

Lemma scan_without_executor now todo : forall st,
  task_executor st = None ->
  exists r st' sel,
    for_each todo (check_one now) st = (r, st')
    /\ entered st' = (entered st ++ sel)%list
    /\ tasks st' = tasks st
    /\ tasks_file st' = tasks_file st
    /\ world st' = world st
    /\ log st' = (log st
                  ++ repeat (ERROR "No task executor set") (length sel))%list.
Proof.
  induction todo as [|slot rest IH]; intros st Hnone.
  - exists (Ok tt), st, []. simpl. rewrite !app_nil_r. repeat split.
  - rewrite for_each_cons.
    destruct (check_one_cases now slot st) as [[Heq _]|[[(e & _ & Heq) _]|[Heq _]]];
      rewrite Heq.
    + apply IH. exact Hnone.
    + exists (Raise e), st, []. simpl. rewrite !app_nil_r. repeat split.
    + unfold _execute_task. unfold_monad. simpl. rewrite Hnone. simpl.
      match goal with
      | |- context [for_each rest _ ?s] =>
          destruct (IH s) as (r & st' & sel & Hrun & He & Ht & Hf & Hwd & Hl);
          [exact Hnone|]
      end.
      exists r, st', (fst slot :: sel). split; [exact Hrun|]. simpl in *.
      rewrite He, Hl, <- !app_assoc. repeat split; assumption.
Qed.

End NoExecutor.

(** X5: a cycle without an executor. When no executor has been set, a
    cycle changes no task, writes nothing to the tasks file and leaves the
    remote side alone; it logs one error for each task it selected, so a
    due task stays pending and due. *)
Theorem cycle_without_executor {P : Platform} (st : State) :
  task_executor st = None ->
  let st' := snd (_check_and_execute_tasks st) in
  tasks st' = tasks st
  /\ tasks_file st' = tasks_file st
  /\ world st' = world st
  /\ log st' = (log st ++ repeat (ERROR "No task executor set")
                                 (length (selected_between st st')))%list.
Proof.
  intros Hnone st'. subst st'. rewrite scan_unfold.
  destruct (scan_without_executor (clock (ticks st)) (tasks st)
              (set_ticks (S (ticks st)) st) Hnone)
    as (r & st' & sel & Hrun & He & Ht & Hf & Hwd & Hl).
  rewrite Hrun. simpl in *.
  rewrite (selected_between_app st st' sel He). repeat split; assumption.
Qed.

Lemma cycle_without_executor_witness :
  let st := Sample.state_of Sample.three_tasks None None None in
  let st' := snd (_check_and_execute_tasks (P := Sample.platform) st) in
  selected_between st st' = ["a"]
  /\ tasks st' = Sample.three_tasks
  /\ log st' = [ERROR "No task executor set"].
Proof.
  intros st st'.
  pose proof (cycle_without_executor (P := Sample.platform) st eq_refl)
    as [Ht [_ [_ Hl]]].
  split; [reflexivity|]. split; [exact Ht | exact Hl].
Defined.

(** ** Sleeping between cycles *)

Section Sleep.
Context {P : Platform}.

Lemma execute_task_keeps_slept k task st :
  slept (snd (_execute_task k task st)) = slept st.
Proof.
  unfold _execute_task. unfold_monad. simpl.
  destruct (task_executor st) as [executor|]; simpl; [|reflexivity].
  destruct (executor (with_status RUNNING task) (world st)) as [[[|]|e] w]; simpl;
    [destruct (recurring task && (interval_minutes task >? 0)); simpl;
       [destruct (plus_minutes _ _); simpl|] | |];
    destruct (write_error st) as [[?|? ?]|]; reflexivity.
Qed.

Lemma scan_keeps_slept now todo : forall st,
  slept (snd (for_each todo (check_one now) st)) = slept st.
Proof.
  induction todo as [|slot rest IH]; intros st; [reflexivity|].
  rewrite for_each_cons.
  destruct (check_one_cases now slot st) as [[Heq _]|[[(e & _ & Heq) _]|[Heq _]]];
    rewrite Heq.
  - apply IH.
  - reflexivity.
  - pose proof (execute_task_keeps_slept (fst slot)
                  (match Dict.get (fst slot) (tasks st) with
                   | Some t => t | None => snd slot end) st) as Hs.
    destruct (_execute_task _ _ st) as [[[]|e] st1]; simpl in *.
    + now rewrite IH.
    + assumption.
Qed.

End Sleep.

Lemma turn_sleep_cases {P : Platform} (st : State) :
  fst (_scheduler_loop_body st) = Ok tt
  /\ match fst (_check_and_execute_tasks st) with
     | Ok _ =>
         slept (snd (_scheduler_loop_body st)) = slept st + 10
         /\ log (snd (_scheduler_loop_body st))
            = log (snd (_check_and_execute_tasks st))
     | Raise e =>
         slept (snd (_scheduler_loop_body st)) = slept st
         /\ log (snd (_scheduler_loop_body st))
            = (log (snd (_check_and_execute_tasks st))
               ++ [ERROR ("Scheduler error: " ++ e)])%list
     end.
Proof.
  unfold _scheduler_loop_body, try_except, bind.
  pose proof (scan_keeps_slept (clock (ticks st)) (tasks st)
                (set_ticks (S (ticks st)) st)) as Hs.
  rewrite scan_unfold in *.
  destruct (for_each _ _ _) as [[[]|e] st1]; simpl in *;
    (split; [reflexivity|]); (split; [now rewrite Hs | reflexivity]).
Qed.

(** X6: the pause of the loop. A turn of the loop always returns
    normally. When its scan returns normally the turn sleeps 10 seconds
    and logs nothing of its own; when its scan raises, the turn logs the
    error and does not sleep, so the next scan starts at once. *)
Theorem turn_sleeps_unless_scan_fails {P : Platform} (st : State) :
  let scanned := snd (_check_and_execute_tasks st) in
  let st' := snd (_scheduler_loop_body st) in
  fst (_scheduler_loop_body st) = Ok tt
  /\ match fst (_check_and_execute_tasks st) with
     | Ok _ => slept st' = slept st + 10 /\ log st' = log scanned
     | Raise e =>
         slept st' = slept st
         /\ log st' = (log scanned ++ [ERROR ("Scheduler error: " ++ e)])%list
     end.
Proof. exact (turn_sleep_cases st). Qed.

(** While the store holds a pending task whose [next_run] cannot be
    compared, no turn of the loop sleeps. *)
Lemma incomparable_never_sleeps {P : Platform} (st : State) k t :
  keys_distinct (tasks st) ->
  Dict.get k (tasks st) = Some t ->
  status t = PENDING -> incomparable t ->
  forall turns, slept (outcome_state (_scheduler_loop turns st)) = slept st.
Proof.
  intros Hnd Hget Hp Hn turns. revert st Hnd Hget.
  induction turns as [|n IH]; intros st Hnd Hget; simpl.
  - now destruct (running st).
  - destruct (running st); [|reflexivity].
    destruct (loop_body_absent st k t Hnd Hget Hp Hn)
      as (st1 & sel & Hb & _ & _ & Hnd1 & Hget1 & _).
    pose proof (turn_sleep_cases st) as [_ Hturn].
    assert (exists e, fst (_check_and_execute_tasks st) = Raise e) as [e He].
    { apply DictFacts.get_in in Hget.
      destruct (in_split _ _ Hget) as (pre & post & Hsplit).
      rewrite scan_unfold, Hsplit.
      destruct (scan_aborts (clock (ticks st)) k t post pre
                  (set_ticks (S (ticks st)) st))
        as (e & st2 & sel2 & Hrun & _); auto.
      - rewrite <- Hsplit. exact Hnd.
      - rewrite <- Hsplit. simpl. intros k' t' Hin.
        now apply DictFacts.in_get.
      - exists e. now rewrite Hrun. }
    rewrite He in Hturn. destruct Hturn as [Hs _].
    rewrite Hb in Hs |- *. simpl in Hs. rewrite IH by assumption. exact Hs.
Qed.

(** X7: a pending task without [next_run] makes the loop spin. While the
    store holds such a task, no turn of the loop sleeps: after any number
    of turns the time slept is what it was. *)
Theorem absent_next_run_never_sleeps {P : Platform} (st : State) k t :
  keys_distinct (tasks st) ->
  Dict.get k (tasks st) = Some t ->
  status t = PENDING -> next_run t = None ->
  forall turns, slept (outcome_state (_scheduler_loop turns st)) = slept st.
Proof.
  intros Hnd Hget Hp Hn. apply (incomparable_never_sleeps st k t); auto.
  unfold incomparable. now rewrite Hn.
Qed.

Lemma absent_next_run_never_sleeps_witness :
  slept (outcome_state (_scheduler_loop (P := Sample.platform) 5
                          Sample.with_gap)) = 0.
Proof.
  assert (keys_distinct (tasks Sample.with_gap)) as Hnd by distinct_keys.
  exact (absent_next_run_never_sleeps (P := Sample.platform) Sample.with_gap
           "x" (with_next_run None (Sample.upload "x" false 0))
           Hnd eq_refl eq_refl eq_refl 5%nat).
Defined.

(** ** Starting, stopping, reloading *)

(** X8: [start] and [stop]. On a running scheduler [start] changes nothing
    and logs a warning; on a stopped one it sets [self.running]. After
    [stop] the loop returns before any further scan: no clock reading, no
    task entered, no task changed. *)
Theorem start_stop {P : Platform} (st : State) :
  (running st = true ->
   start st = (Ok tt, set_log (log st ++ [WARNING "Scheduler already running"]) st))
  /\ (running st = false ->
      running (snd (start st)) = true /\ tasks (snd (start st)) = tasks st)
  /\ forall turns,
       _scheduler_loop turns (snd (stop st)) = Returned (snd (stop st))
       /\ tasks (snd (stop st)) = tasks st
       /\ ticks (snd (stop st)) = ticks st
       /\ entered (snd (stop st)) = entered st.
Proof.
  unfold start, stop. unfold_monad. split; [|split].
  - intros Hr. now rewrite Hr.
  - intros Hr. rewrite Hr. simpl. split; reflexivity.
  - intros turns. simpl. destruct turns; simpl; repeat split.
Qed.

Section Reload.
Context {P : Platform}.

(** The loop of [load_tasks] only looks at the store it fills. *)
Lemma load_loop_depends_on_store records : forall s1 s2,
  tasks s1 = tasks s2 ->
  let body := fun task_data =>
                task <- from_dict task_data ;; setitem (task_id task) task in
  fst (for_each records body s1) = fst (for_each records body s2)
  /\ tasks (snd (for_each records body s1))
     = tasks (snd (for_each records body s2)).
Proof.
  induction records as [|r records IH]; intros s1 s2 Heq body.
  - split; [reflexivity | exact Heq].
  - subst body. rewrite !for_each_cons. unfold bind at 1 3 5 7.
    destruct (from_dict_stateless r) as ([t|e] & Hr); rewrite !Hr.
    + unfold setitem, modify. apply IH. simpl. now rewrite Heq.
    + split; [reflexivity | exact Heq].
Qed.

End Reload.

(** X9: [load_tasks] on a scheduler that already holds tasks. With no
    tasks file nothing changes at all. With a file that cannot be opened
    or parsed the store keeps its tasks and the failure is logged. With a
    file that parses, nothing of the store held before survives: the store
    becomes what a newly constructed scheduler would load from that file. *)
Theorem reload_replaces_store {P : Platform} (st : State) :
  fst (load_tasks st) = Ok tt
  /\ match tasks_file st with
     | None => load_tasks st = (Ok tt, st)
     | Some (Unreadable e) =>
         tasks (snd (load_tasks st)) = tasks st
         /\ log (snd (load_tasks st))
            = (log st ++ [ERROR ("Failed to load tasks: " ++ e)])%list
     | Some (Document doc) =>
         tasks (snd (load_tasks st)) = tasks (snd (TaskScheduler_init st))
     end.
Proof.
  unfold TaskScheduler_init, load_tasks. unfold_monad. simpl.
  destruct (tasks_file st) as [[e|doc]|] eqn:Hfile; simpl;
    try (rewrite Hfile; simpl).
  - repeat split.
  - destruct (py_iter doc) as [records|e]; simpl; [|repeat split].
    pose proof (load_loop_depends_on_store records
                  (set_tasks [] st)
                  (set_tasks [] (set_executor None
                                   (set_running false (set_tasks [] st))))
                  eq_refl) as [Hr Ht].
    unfold bind in Hr, Ht.
    destruct (for_each records _ (set_tasks [] st)) as [[[]|e1] s1];
      destruct (for_each records _ (set_tasks [] (set_executor _ _)))
        as [[[]|e2] s2]; simpl in *; try discriminate; split; auto.
  - split; reflexivity.
Qed.

(** ** Decoding records *)

Lemma TaskType_of_exact {P : Platform} (v : json) (t : TaskType) :
  TaskType_of v = Ok t <-> v = JStr (TaskType_value t).
Proof.
  split.
  - unfold TaskType_of. destruct v as [| | |s| |]; try discriminate.
    destruct (String.eqb_spec s "upload") as [->|_];
      [intros [= <-]; reflexivity|].
    destruct (String.eqb_spec s "download") as [->|_];
      [intros [= <-]; reflexivity|].
    destruct (String.eqb_spec s "delete") as [->|_];
      [intros [= <-]; reflexivity | discriminate].
  - intros ->. destruct t; reflexivity.
Qed.

Lemma TaskStatus_of_exact {P : Platform} (v : json) (s : TaskStatus) :
  TaskStatus_of v = Ok s <-> v = JStr (TaskStatus_value s).
Proof.
  split.
  - unfold TaskStatus_of. destruct v as [| | |x| |]; try discriminate.
    destruct (String.eqb_spec x "pending") as [->|_];
      [intros [= <-]; reflexivity|].
    destruct (String.eqb_spec x "running") as [->|_];
      [intros [= <-]; reflexivity|].
    destruct (String.eqb_spec x "completed") as [->|_];
      [intros [= <-]; reflexivity|].
    destruct (String.eqb_spec x "failed") as [->|_];
      [intros [= <-]; reflexivity|].
    destruct (String.eqb_spec x "cancelled") as [->|_];
      [intros [= <-]; reflexivity | discriminate].
  - intros ->. destruct s; reflexivity.
Qed.

(** X10: the values of the enumerations. [TaskType(v)] and
    [TaskStatus(v)] accept exactly the texts [to_dict] writes for the
    members (lower case, nothing else), and give back the member written. *)
Theorem enum_values_exact {P : Platform} (v : json) :
  (forall t, TaskType_of v = Ok t <-> v = JStr (TaskType_value t))
  /\ (forall s, TaskStatus_of v = Ok s <-> v = JStr (TaskStatus_value s)).
Proof.
  split; intros x; [apply TaskType_of_exact | apply TaskStatus_of_exact].
Qed.

Ltac split_results :=
  repeat match goal with
         | |- context [match ?x with Ok _ => _ | Raise _ => _ end] =>
             destruct x
         end.

(** X11: records [from_dict] refuses. It raises on a value that is not an
    object, on an object lacking one of [task_id], [task_type],
    [source_path], [scheduled_time], and on an object whose [task_type] or
    [status] is not the value of a member. *)
Theorem from_dict_refuses {P : Platform} (st : State) :
  (forall data, (forall fields, data <> JObj fields) ->
                exists e, fst (from_dict data st) = Raise e)
  /\ (forall fields key,
        In key ["task_id"; "task_type"; "source_path"; "scheduled_time"] ->
        Dict.get key fields = None ->
        exists e, fst (from_dict (JObj fields) st) = Raise e)
  /\ (forall fields v,
        Dict.get "task_type" fields = Some v ->
        (forall t, v <> JStr (TaskType_value t)) ->
        exists e, fst (from_dict (JObj fields) st) = Raise e)
  /\ (forall fields v,
        Dict.get "status" fields = Some v ->
        (forall s, v <> JStr (TaskStatus_value s)) ->
        exists e, fst (from_dict (JObj fields) st) = Raise e).
Proof.
  split; [|split; [|split]].
  - intros data Hnot. unfold from_dict. unfold_monad.
    destruct data as [| | | | |fields]; simpl; eauto.
    exfalso. now apply (Hnot fields).
  - intros fields key Hkey Hnone.
    unfold from_dict, ScheduledTask_init. unfold_monad. unfold subscript.
    simpl in Hkey.
    destruct Hkey as [<-|[<-|[<-|[<-|[]]]]]; rewrite Hnone;
      split_results; simpl; eauto.
  - intros fields v Hty Hbad.
    assert (exists e, TaskType_of v = Raise e) as [e He].
    { destruct (TaskType_of v) as [t|e] eqn:E; [|eauto].
      apply TaskType_of_exact in E. now apply Hbad in E. }
    unfold from_dict, ScheduledTask_init. unfold_monad. unfold subscript.
    rewrite Hty, He. split_results; simpl; eauto.
  - intros fields v Hs Hbad.
    assert (exists e, TaskStatus_of v = Raise e) as [e He].
    { destruct (TaskStatus_of v) as [t|e] eqn:E; [|eauto].
      apply TaskStatus_of_exact in E. now apply Hbad in E. }
    unfold from_dict, ScheduledTask_init. unfold_monad. unfold get_or at 4.
    rewrite Hs, He. split_results; simpl; eauto.
Qed.

(** X12: the defaults of [from_dict]. A record holding the four required
    keys and none of the others loads as a task with an empty
    [dest_path], not recurring, interval 0, pending, no [last_run], an
    empty [error_message], and no [next_run]: the [scheduled_time] of the
    record does not become its [next_run]. *)
Theorem from_dict_defaults {P : Platform} (st : State) fields id ty src text sched :
  Dict.get "task_id" fields = Some (JStr id) ->
  Dict.get "task_type" fields = Some (JStr (TaskType_value ty)) ->
  Dict.get "source_path" fields = Some (JStr src) ->
  Dict.get "scheduled_time" fields = Some (JStr text) ->
  fromisoformat text = Ok sched ->
  (forall key,
     In key ["dest_path"; "recurring"; "interval_minutes"; "status";
             "last_run"; "next_run"; "error_message"] ->
     Dict.get key fields = None) ->
  from_dict (JObj fields) st
  = (Ok (mkTask id ty src "" sched false 0 PENDING None None ""), st).
Proof.
  intros Hid Hty Hsrc Htime Hparse Hopt.
  unfold from_dict, ScheduledTask_init, opt_fromisoformat. unfold_monad.
  unfold subscript, get_or.
  rewrite Hid, Hty, Hsrc, Htime.
  rewrite !Hopt by (simpl; tauto).
  destruct ty; simpl; rewrite Hparse; reflexivity.
Qed.

Lemma from_dict_defaults_witness :
  from_dict (P := Sample.platform) Sample.bare_record Sample.scanning
  = (Ok (mkTask "t9" DELETE "/remote/old.log" "" (Naive Sample.start_of_2024)
                false 0 PENDING None None ""),
     Sample.scanning).
Proof.
  refine (from_dict_defaults (P := Sample.platform) Sample.scanning
            Sample.bare_fields
            "t9" DELETE "/remote/old.log" _ (Naive Sample.start_of_2024)
            eq_refl eq_refl eq_refl eq_refl _ _).
  - exact (fromisoformat_isoformat (PlatformLaws := sample_laws)
             (Naive Sample.start_of_2024)).
  - intros key Hin. simpl in Hin.
    destruct Hin as [<-|[<-|[<-|[<-|[<-|[<-|[<-|[]]]]]]]]; reflexivity.
Defined.

(** ** More on the scan *)

Section MoreScan.
Context {P : Platform}.

Lemma is_due_iff now t : is_due now t = true <-> due now t.
Proof.
  unfold is_due, due. rewrite andb_true_iff, status_eqb_pending.
  destruct (next_run t) as [[d|d offset]|]; split.
  - intros [Hp Hle]. split; [assumption|]. exists d. split; [reflexivity|].
    now apply Z.leb_le.
  - intros [Hp (d' & [= <-] & Hle)]. split; [assumption|]. now apply Z.leb_le.
  - intros [_ H]. discriminate.
  - intros [_ (d' & H & _)]. discriminate.
  - intros [_ H]. discriminate.
  - intros [_ (d' & H & _)]. discriminate.
Qed.

(** A task that is not due when the scan starts is not entered by it,
    whatever else the store holds and whether or not the scan aborts. *)
Lemma scan_skips_not_due now k t todo : forall st,
  Dict.get k (tasks st) = Some t -> ~ due now t ->
  exists r st' sel,
    for_each todo (check_one now) st = (r, st')
    /\ entered st' = (entered st ++ sel)%list
    /\ ~ In k sel
    /\ Dict.get k (tasks st') = Some t.
Proof.
  induction todo as [|slot rest IH]; intros st Hget Hnot.
  - exists (Ok tt), st, []. simpl. rewrite app_nil_r. repeat split; auto.
  - rewrite for_each_cons.
    destruct (check_one_cases now slot st) as [[Heq _]|[[(e & _ & Heq) _]|[Heq Hdue]]];
      rewrite Heq.
    + now apply IH.
    + exists (Raise e), st, []. simpl. rewrite app_nil_r. repeat split; auto.
    + destruct (execute_task_frame (fst slot)
                  (match Dict.get (fst slot) (tasks st) with
                   | Some t => t | None => snd slot end) st)
        as (st1 & f & Hex & Ht1 & He1 & _).
      rewrite Hex.
      assert (k <> fst slot) as Hne.
      { intros ->. rewrite Hget in Hdue. contradiction. }
      destruct (IH st1) as (r & st' & sel & Hrun & He & Hn & Hg); auto.
      { rewrite Ht1, DictFacts.get_modify_other; auto. }
      exists r, st', (fst slot :: sel). split; [assumption|].
      split; [rewrite He, He1, <- app_assoc; reflexivity|].
      split; [|assumption].
      intros [E|Hin]; [now apply Hne | contradiction].
Qed.

Lemma execute_task_world k task st executor :
  task_executor st = Some executor ->
  world (snd (_execute_task k task st))
  = snd (executor (with_status RUNNING task) (world st)).
Proof.
  intros Hex. unfold _execute_task. unfold_monad. simpl. rewrite Hex. simpl.
  destruct (executor (with_status RUNNING task) (world st)) as [[[|]|e] w]; simpl;
    [destruct (recurring task && (interval_minutes task >? 0)); simpl;
       [destruct (plus_minutes _ _); simpl|] | |];
    destruct (write_error st) as [[?|? ?]|]; reflexivity.
Qed.

(** A scan over slots that still hold their snapshot attributes: the
    executor is applied to the due tasks, in the order of the slots. *)
Lemma scan_runs_in_order now executor todo : forall st,
  NoDup (Dict.keys todo) ->
  (forall k t, In (k, t) todo -> Dict.get k (tasks st) = Some t) ->
  pending_comparable todo ->
  task_executor st = Some executor ->
  exists st' sel,
    for_each todo (check_one now) st = (Ok tt, st')
    /\ entered st' = (entered st ++ sel)%list
    /\ sel = map fst (filter (fun slot => is_due now (snd slot)) todo)
    /\ world st'
       = fold_left (fun w t => snd (executor (with_status RUNNING t) w))
                   (filter (is_due now) (Dict.values todo)) (world st).
Proof.
  induction todo as [|[k1 t1] rest IH]; intros st Hnd Hsnap Hnext Hex.
  - exists st, []. simpl. rewrite app_nil_r. repeat split.
  - rewrite for_each_cons.
    assert (Dict.get k1 (tasks st) = Some t1) as Hget by (apply Hsnap; now left).
    inversion Hnd as [|? ? Hk1 Hnd']; subst.
    inversion Hnext as [|? ? Hhead Hnext']; subst. simpl in Hhead.
    pose proof (check_one_cases now (k1, t1) st) as Hc. simpl in Hc.
    rewrite Hget in Hc.
    destruct Hc as [[Heq [Hnot _]]|[[_ [Hp Hn]]|[Heq Hdue]]].
    2:{ exfalso. destruct (Hhead Hp) as (at_ & Hat). unfold incomparable in Hn.
        now rewrite Hat in Hn. }
    + rewrite Heq.
      assert (is_due now t1 = false) as Hfalse.
      { destruct (is_due now t1) eqn:E; [|reflexivity].
        apply is_due_iff in E. contradiction. }
      destruct (IH st Hnd') as (st' & sel & Hrun & He & Hsel & Hw); auto.
      { intros k t Hin. apply Hsnap. now right. }
      exists st', sel. simpl. rewrite Hfalse. repeat split; assumption.
    + rewrite Heq.
      assert (is_due now t1 = true) as Htrue by now apply is_due_iff.
      destruct (execute_task_frame k1 t1 st)
        as (st1 & f & Hrun1 & Ht1 & He1 & _ & Hx1 & _).
      pose proof (execute_task_world k1 t1 st executor Hex) as Hw1.
      rewrite Hrun1 in Hw1 |- *. simpl in Hw1.
      destruct (IH st1 Hnd') as (st' & sel & Hrun & He & Hsel & Hw); auto.
      { intros k t Hin. rewrite Ht1, DictFacts.get_modify_other.
        - apply Hsnap. now right.
        - intros ->. apply Hk1. eapply in_keys; eauto. }
      { congruence. }
      exists st', (k1 :: sel). simpl. rewrite Htrue. simpl.
      split; [assumption|].
      split; [rewrite He, He1, <- app_assoc; reflexivity|].
      split; [now rewrite Hsel|]. now rewrite Hw, Hw1.
Qed.

End MoreScan.

Lemma cycle_skips_not_due {P : Platform} (st : State) k t :
  Dict.get k (tasks st) = Some t ->
  ~ due (clock (ticks st)) t ->
  ~ In k (selected_between st (snd (_check_and_execute_tasks st)))
  /\ Dict.get k (tasks (snd (_check_and_execute_tasks st))) = Some t.
Proof.
  intros Hget Hnot. rewrite scan_unfold.
  destruct (scan_skips_not_due (clock (ticks st)) k t (tasks st)
              (set_ticks (S (ticks st)) st) Hget Hnot)
    as (r & st' & sel & Hrun & He & Hn & Hg).
  rewrite Hrun. simpl in *.
  now rewrite (selected_between_app st st' sel He).
Qed.

(** X16: a task that is not due is left alone. In any cycle, whatever
    else the store holds and whether or not the scan raises, a task that
    is not pending, or whose [next_run] is absent, aware of an offset, or
    after the time read at the start of the scan, is not handed to
    [_execute_task] and keeps its attributes. *)
Theorem not_due_not_selected {P : Platform} (st : State) k t :
  Dict.get k (tasks st) = Some t ->
  ~ due (clock (ticks st)) t ->
  let st' := snd (_check_and_execute_tasks st) in
  ~ In k (selected_between st st') /\ Dict.get k (tasks st') = Some t.
Proof. intros Hget Hnot. now apply cycle_skips_not_due. Qed.

Lemma not_due_not_selected_witness :
  let st' := snd (_check_and_execute_tasks (P := Sample.platform)
                    Sample.scanning) in
  ~ In "c" (selected_between Sample.scanning st')
  /\ Dict.get "c" (tasks st') = Dict.get "c" Sample.three_tasks.
Proof.
  refine (not_due_not_selected (P := Sample.platform) Sample.scanning "c" _
            eq_refl _).
  intros [_ (d & Hd & Hle)]. injection Hd as <-. revert Hle. vm_compute.
  intros H. now apply H.
Defined.

(** X17: a rescheduled task waits. After a success that reschedules the
    recurring task of slot [k] to [T] plus its interval, no cycle that
    starts before that time, from a state whose slot still holds the task,
    hands it to [_execute_task]. *)
Theorem rescheduled_task_waits {P : Platform} (st : State) k task executor w :
  Dict.get k (tasks st) = Some task ->
  task_executor st = Some executor ->
  executor (with_status RUNNING task) (world st) = (Ok true, w) ->
  recurring task = true -> 0 < interval_minutes task ->
  let T := clock (S (ticks st)) in
  0 <= T -> T + interval_minutes task * 60000000 <= datetime_max ->
  let st1 := snd (_execute_task k task st) in
  forall s,
    Dict.get k (tasks s) = Dict.get k (tasks st1) ->
    clock (ticks s) < T + interval_minutes task * 60000000 ->
    ~ In k (selected_between s (snd (_check_and_execute_tasks s))).
Proof.
  intros Hget Hex Hrun Hrec Hpos T HT Hmax st1 s Hs Hearly. subst st1.
  rewrite (execute_task_outcome k task st executor (Ok true) w Hex Hrun Hget)
    in Hs.
  fold T in Hs. unfold task_after in Hs. rewrite Hrec in Hs.
  replace (interval_minutes task >? 0) with true in Hs
    by (symmetry; apply Z.gtb_lt; lia).
  simpl in Hs. rewrite (plus_minutes_in_range T _ Hpos HT Hmax) in Hs.
  apply (cycle_skips_not_due s k _ Hs).
  intros [_ (d & Hd & Hle)]. simpl in Hd. injection Hd as <-. lia.
Qed.

Lemma rescheduled_task_waits_witness :
  let task := Sample.upload "t1" true 30 in
  let st1 := snd (_execute_task (P := Sample.platform) "t1" task
                    (Sample.single task Sample.succeeding)) in
  ~ In "t1" (selected_between st1 (snd (_check_and_execute_tasks st1))).
Proof.
  intros task st1.
  refine (rescheduled_task_waits (P := Sample.platform)
            (Sample.single task Sample.succeeding) "t1" task
            Sample.succeeding tt eq_refl eq_refl eq_refl eq_refl eq_refl
            _ _ st1 eq_refl eq_refl).
  - discriminate.
  - discriminate.
Defined.

(** X18: the order of a cycle. Over a store with distinct keys whose
    pending tasks all have a [next_run] that can be compared with the
    clock (present and naive), and with an executor set, a cycle
    hands to [_execute_task] the due tasks in the order of the store; the
    executor is called once for each, in that order, on the task as the
    store held it when the scan started but marked running, each call
    finding the remote side as the previous call left it. *)
Theorem cycle_runs_due_tasks_in_order {P : Platform} (st : State) executor :
  keys_distinct (tasks st) ->
  pending_comparable (tasks st) ->
  task_executor st = Some executor ->
  let now := clock (ticks st) in
  let st' := snd (_check_and_execute_tasks st) in
  selected_between st st'
  = map fst (filter (fun slot => is_due now (snd slot)) (tasks st))
  /\ world st'
     = fold_left (fun w t => snd (executor (with_status RUNNING t) w))
                 (filter (is_due now) (Dict.values (tasks st))) (world st).
Proof.
  intros Hnd Hnext Hex now st'. subst st'. rewrite scan_unfold. fold now.
  destruct (scan_runs_in_order now executor (tasks st)
              (set_ticks (S (ticks st)) st))
    as (st' & sel & Hrun & He & Hsel & Hw); auto.
  { intros k t Hin. simpl. now apply DictFacts.in_get. }
  rewrite Hrun. simpl in *.
  rewrite (selected_between_app st st' sel He). split; assumption.
Qed.

Lemma cycle_runs_due_tasks_in_order_witness :
  let st := Sample.state_of
              [ ("b", Sample.upload "b" false 0);
                ("a", Sample.upload "a" true 30) ]
              (Some Sample.succeeding) None None in
  selected_between st (snd (_check_and_execute_tasks (P := Sample.platform) st))
  = ["b"; "a"].
Proof.
  intros st.
  assert (keys_distinct (tasks st)) as Hnd by distinct_keys.
  assert (pending_comparable (tasks st)) as Hnext
    by (repeat constructor; simpl; intros _; eexists; reflexivity).
  exact (proj1 (cycle_runs_due_tasks_in_order (P := Sample.platform) st
                  Sample.succeeding Hnd Hnext eq_refl)).
Defined.

(** X19: a rescheduling that overflows. When the executor reports success
    for a recurring task whose interval is positive but leads past
    [datetime.max], the addition raises inside [_execute_task]: the task
    ends failed although the executor succeeded, with the error text of
    the addition, the [last_run] of the success, and the [next_run] it
    had. *)
Theorem rescheduling_overflow_fails_task {P : Platform} (st : State) k task
    executor w :
  Dict.get k (tasks st) = Some task ->
  task_executor st = Some executor ->
  executor (with_status RUNNING task) (world st) = (Ok true, w) ->
  recurring task = true -> 0 < interval_minutes task ->
  let T := clock (S (ticks st)) in
  datetime_max < T + interval_minutes task * 60000000 ->
  fst (_execute_task k task st) = Ok tt
  /\ exists task',
       Dict.get k (tasks (snd (_execute_task k task st))) = Some task'
       /\ status task' = FAILED
       /\ error_message task' = overflow_text T (interval_minutes task)
       /\ last_run task' = Some (Naive (clock (ticks st)))
       /\ next_run task' = next_run task.
Proof.
  intros Hget Hex Hrun Hrec Hpos T Hover. split.
  - destruct (execute_task_frame k task st) as (st' & f & Heq & _).
    now rewrite Heq.
  - rewrite (execute_task_outcome k task st executor (Ok true) w Hex Hrun Hget).
    fold T. unfold task_after. rewrite Hrec.
    replace (interval_minutes task >? 0) with true
      by (symmetry; apply Z.gtb_lt; lia).
    simpl. unfold plus_minutes. cbv zeta.
    replace (T + interval_minutes task * 60000000 <=? datetime_max) with false
      by (symmetry; apply Z.leb_gt; exact Hover).
    rewrite andb_false_r.
    eexists. split; [reflexivity|]. repeat split.
Qed.

Lemma rescheduling_overflow_fails_task_witness :
  let st := Sample.single Sample.far_away Sample.succeeding in
  exists task',
    Dict.get "t1" (tasks (snd (_execute_task (P := Sample.platform) "t1"
                                 Sample.far_away st))) = Some task'
    /\ status task' = FAILED
    /\ error_message task' = "date value out of range"
    /\ last_run task' = Some (Naive Sample.start_of_2024)
    /\ next_run task' = next_run Sample.far_away.
Proof.
  intros st.
  exact (proj2 (rescheduling_overflow_fails_task (P := Sample.platform) st
                  "t1" Sample.far_away Sample.succeeding tt
                  eq_refl eq_refl eq_refl eq_refl eq_refl eq_refl)).
Defined.

(** ** Records sharing an id *)

Section Duplicates.
Context {P : Platform}.

Lemma find_snoc {A} (p : A -> bool) l x :
  find p (l ++ [x])%list
  = match find p l with
    | Some y => Some y
    | None => if p x then Some x else None
    end.
Proof.
  induction l as [|y l IH]; simpl; [reflexivity|].
  destruct (p y); [reflexivity | exact IH].
Qed.

Lemma get_after_storing ts : forall acc id,
  Dict.get id (fold_left (fun d t => Dict.set (task_id t) t d) ts acc)
  = match last_with_id id ts with
    | Some t => Some t
    | None => Dict.get id acc
    end.
Proof.
  unfold last_with_id.
  induction ts as [|t ts IH]; intros acc id; simpl; [reflexivity|].
  rewrite IH, find_snoc.
  destruct (find _ (rev ts)); [reflexivity|].
  destruct (String.eqb_spec id (task_id t)) as [->|Hne].
  - apply get_set_same.
  - now apply get_set_other.
Qed.

Lemma init_loads_all st doc records loaded :
  tasks_file st = Some (Document doc) ->
  py_iter doc = Ok records ->
  Forall2 (decodes st) records loaded ->
  tasks (snd (TaskScheduler_init st)) = stored loaded.
Proof.
  intros Hfile Hiter Hall.
  unfold TaskScheduler_init, load_tasks. unfold_monad. simpl.
  rewrite Hfile. simpl. rewrite Hfile. simpl. rewrite Hiter. simpl.
  pose proof (fun s => load_loop_all st records loaded s Hall) as Hloop.
  unfold bind in Hloop |- *. rewrite Hloop. reflexivity.
Qed.

End Duplicates.

(** X20: records sharing an id. When every record of the tasks file
    decodes, a new scheduler holds under each id the last record of the
    file carrying that id (earlier ones are overwritten), and under an id
    no record carries, nothing. *)
Theorem later_record_wins {P : Platform} (st : State) doc records loaded :
  tasks_file st = Some (Document doc) ->
  py_iter doc = Ok records ->
  Forall2 (decodes st) records loaded ->
  forall id,
    fst (get_task id (snd (TaskScheduler_init st)))
    = Ok (last_with_id id loaded).
Proof.
  intros Hfile Hiter Hall id.
  unfold get_task, gets. simpl.
  rewrite (init_loads_all st doc records loaded Hfile Hiter Hall).
  unfold stored. rewrite get_after_storing.
  now destruct (last_with_id id loaded).
Qed.

Lemma later_record_wins_witness :
  fst (get_task "a" (snd (TaskScheduler_init (P := Sample.platform)
                            Sample.twice)))
  = Ok (Some (Sample.upload "a" true 30))
  /\ Dict.keys (tasks (snd (TaskScheduler_init (P := Sample.platform)
                              Sample.twice))) = ["a"; "b"].
Proof.
  split; [|reflexivity].
  refine (later_record_wins (P := Sample.platform) Sample.twice _ _
            [Sample.upload "a" false 0; Sample.upload "b" false 0;
             Sample.upload "a" true 30]
            eq_refl eq_refl _ "a").
  exact (to_dict_decodes (P := Sample.platform) (L := sample_laws)
           Sample.twice
           [Sample.upload "a" false 0; Sample.upload "b" false 0;
            Sample.upload "a" true 30]).
Defined.

Lemma store_ok_preserved_witness :
  store_ok (tasks (snd (add_task (P := Sample.platform)
                          (Sample.upload "a" true 5) Sample.scanning)))
  /\ store_ok (tasks (snd (_scheduler_loop_body (P := Sample.platform)
                             Sample.scanning))).
Proof.
  assert (store_ok (tasks Sample.scanning)) as Hok.
  { split; [distinct_keys | repeat constructor]. }
  pose proof (store_ok_preserved (P := Sample.platform) Sample.scanning Hok)
    as [Hadd [_ Hturn]].
  split; [apply Hadd | exact Hturn].
Defined.

(** * Properties of the handler and of the console's executor *)

Module HandlerFacts.
Import Handler.
Local Open Scope handler_scope.

Section Facts.
Context {T : Transport}.
Implicit Types (s : HState).

(** ** What a [try ... except Exception] makes of its body *)

Lemma try_except_returns {A} (body : HM A) handler s :
  (forall e s1, exists a s2, handler e s1 = (Done a, s2)) ->
  exists a s', try_except body handler s = (Done a, s').
Proof.
  intros Hh. unfold try_except.
  destruct (body s) as [[a|e] s1]; [eauto | apply Hh].
Qed.

Lemma logged_answer_returns {A} msg (a : A) s1 :
  exists a' s2, (error msg ;; ret a) s1 = (Done a', s2).
Proof. eexists _, _. reflexivity. Qed.

Lemma connect_returns s : exists b s', connect s = (Done b, s').
Proof. apply try_except_returns. intros. apply logged_answer_returns. Qed.

Lemma upload_file_returns l r p s :
  exists b s', upload_file l r p s = (Done b, s').
Proof. apply try_except_returns. intros. apply logged_answer_returns. Qed.

Lemma download_file_returns r l p s :
  exists b s', download_file r l p s = (Done b, s').
Proof. apply try_except_returns. intros. apply logged_answer_returns. Qed.

Lemma delete_file_returns r s : exists b s', delete_file r s = (Done b, s').
Proof. apply try_except_returns. intros. apply logged_answer_returns. Qed.

Lemma list_files_returns r s : exists l s', list_files r s = (Done l, s').
Proof. apply try_except_returns. intros. apply logged_answer_returns. Qed.

Lemma file_exists_returns r s : exists b s', file_exists r s = (Done b, s').
Proof.
  apply try_except_returns. intros [msg|msg] s1.
  - eexists _, _. reflexivity.
  - apply logged_answer_returns.
Qed.

(** ** The handler object is only assigned to by [connect] *)

Lemma keeps_ret {A} (a : A) : keeps_self (ret a).
Proof. now intros s. Qed.

Lemma keeps_throw {A} e : keeps_self (@throw T A e).
Proof. now intros s. Qed.

Lemma keeps_bind {A B} (c : HM A) (k : A -> HM B) :
  keeps_self c -> (forall a, keeps_self (k a)) -> keeps_self (bind c k).
Proof.
  intros Hc Hk s. unfold bind. specialize (Hc s).
  destruct (c s) as [[a|e] s1]; simpl in *; [|assumption].
  now rewrite Hk.
Qed.

Lemma keeps_try_except {A} (body : HM A) handler :
  keeps_self body -> (forall e, keeps_self (handler e)) ->
  keeps_self (try_except body handler).
Proof.
  intros Hb Hh s. unfold try_except. specialize (Hb s).
  destruct (body s) as [[a|e] s1]; simpl in *; [assumption|].
  now rewrite Hh.
Qed.

Lemma keeps_try_except_not_found {A} (body handler : HM A) :
  keeps_self body -> keeps_self handler ->
  keeps_self (try_except_not_found body handler).
Proof.
  intros Hb Hh s. unfold try_except_not_found. specialize (Hb s).
  destruct (body s) as [[a|[msg|msg]] s1]; simpl in *; try assumption.
  now rewrite Hh.
Qed.

Lemma keeps_call {A} (op : Env -> Outcome A * Env) : keeps_self (call op).
Proof. intros s. unfold call. now destruct (op (env s)). Qed.

Lemma keeps_info msg : keeps_self (info msg).
Proof. now intros s. Qed.

Lemma keeps_error msg : keeps_self (error msg).
Proof. now intros s. Qed.

Lemma keeps_the_sftp name : keeps_self (the_sftp name).
Proof. intros s. unfold the_sftp. now destruct (sftp_client (self s)). Qed.

Lemma keeps_path_exists p : keeps_self (path_exists p).
Proof. now intros s. Qed.

Lemma keeps_attr {A} (f : WinSCPHandler -> A) : keeps_self (attr f).
Proof. now intros s. Qed.

Create HintDb keeps.
#[local] Hint Resolve keeps_ret keeps_throw keeps_call keeps_info keeps_error
  keeps_the_sftp keeps_path_exists keeps_attr : keeps.

Ltac keeps :=
  repeat first
    [ apply keeps_bind; [|intros ?]
    | apply keeps_try_except; [|intros ?]
    | apply keeps_try_except_not_found
    | match goal with |- keeps_self (if ?b then _ else _) => destruct b end
    | match goal with |- keeps_self (match ?e with _ => _ end) => destruct e end
    | solve [auto with keeps] ].

Lemma keeps_ensure_remote_dir frames : forall d,
  keeps_self (_ensure_remote_dir frames d).
Proof.
  induction frames as [|n IH]; intros d; simpl; [apply keeps_throw|].
  destruct (String.eqb d "" || String.eqb d "/"); [apply keeps_ret|].
  apply keeps_try_except_not_found; keeps.
Qed.

Lemma keeps_upload_file l r p : keeps_self (upload_file l r p).
Proof. unfold upload_file. keeps. apply keeps_ensure_remote_dir. Qed.

Lemma keeps_download_file r l p : keeps_self (download_file r l p).
Proof. unfold download_file. keeps. Qed.

Lemma keeps_delete_file r : keeps_self (delete_file r).
Proof. unfold delete_file. keeps. Qed.

Lemma keeps_list_files r : keeps_self (list_files r).
Proof. unfold list_files. keeps. Qed.

Lemma keeps_file_exists r : keeps_self (file_exists r).
Proof. unfold file_exists. keeps. Qed.

(** ** Without a channel *)

Lemma bind_done {A B} (c : HM A) (k : A -> HM B) s b s' :
  bind c k s = (Done b, s') ->
  exists a s1, c s = (Done a, s1) /\ k a s1 = (Done b, s').
Proof.
  unfold bind. destruct (c s) as [[a|e] s1]; [eauto | discriminate].
Qed.

Lemma the_sftp_none name s :
  sftp_client (self s) = None ->
  the_sftp name s
  = (Thrown (Error ("'NoneType' object has no attribute '" ++ name ++ "'")), s).
Proof. intros H. unfold the_sftp. now rewrite H. Qed.

Lemma upload_without_channel l r p s :
  sftp_client (self s) = None -> fst (upload_file l r p s) = Done false.
Proof.
  intros Hnone. unfold upload_file, try_except.
  match goal with |- fst (match ?body s with _ => _ end) = _ =>
    destruct (body s) as [[b|e] s1] eqn:Hb end; [|reflexivity].
  simpl. destruct b; [exfalso|reflexivity].
  apply bind_done in Hb. destruct Hb as (present & s0 & Hp & Hb).
  destruct present; simpl in Hb; [|discriminate].
  apply bind_done in Hb. destruct Hb as ([] & s2 & He & Hb).
  apply bind_done in Hb. destruct Hb as (size & s3 & Hs & Hb).
  apply bind_done in Hb. destruct Hb as ([] & s4 & Hi & Hb).
  apply bind_done in Hb. destruct Hb as (c & s5 & Hc & _).
  assert (self s4 = self s) as Hself.
  { inversion Hp; subst s0. inversion Hi; subst s4. simpl.
    pose proof (keeps_call (os_path_getsize l) s2) as H3. rewrite Hs in H3.
    pose proof (keeps_ensure_remote_dir recursion_limit
                  (os_path_dirname r) s) as H2.
    rewrite He in H2. simpl in *. congruence. }
  rewrite the_sftp_none in Hc by congruence. discriminate.
Qed.

Lemma download_without_channel r l p s :
  sftp_client (self s) = None -> fst (download_file r l p s) = Done false.
Proof.
  intros Hnone. unfold download_file, try_except.
  match goal with |- fst (match ?body s with _ => _ end) = _ =>
    destruct (body s) as [[b|e] s1] eqn:Hb end; [|reflexivity].
  simpl. destruct b; [exfalso|reflexivity].
  apply bind_done in Hb. destruct Hb as ([] & s2 & Hd & Hb).
  apply bind_done in Hb. destruct Hb as ([] & s3 & Hi & Hb).
  apply bind_done in Hb. destruct Hb as (c & s4 & Hc & _).
  assert (self s3 = self s) as Hself.
  { inversion Hi; subst s3. simpl.
    destruct (negb (String.eqb (os_path_dirname l) "")).
    - pose proof (keeps_call (os_makedirs (os_path_dirname l)) s) as H2.
      now rewrite Hd in H2.
    - now inversion Hd. }
  rewrite the_sftp_none in Hc by congruence. discriminate.
Qed.

Lemma delete_without_channel r s :
  sftp_client (self s) = None -> fst (delete_file r s) = Done false.
Proof.
  intros Hnone. unfold delete_file, try_except, bind.
  now rewrite the_sftp_none.
Qed.

(** ** Directories on the server *)

Lemma ensure_remote_dir_missing is_remote {L : ServerLaws T is_remote} c :
  forall missing frames d top s,
  sftp_client (self s) = Some c ->
  ancestry d missing top ->
  NoDup missing ->
  Forall (fun m => is_remote m (env s) = false) missing ->
  top = "" \/ top = "/" \/ is_remote top (env s) = true ->
  (length missing < frames)%nat ->
  exists e',
    _ensure_remote_dir frames d s
    = (Done tt,
       mkH (self s) e'
           (trace s ++ map (fun m => INFO ("Created remote directory: " ++ m))
                           (rev missing)))
    /\ forall q, is_remote q e' = existsb (String.eqb q) missing || is_remote q (env s).
Proof.
  induction missing as [|m rest IH]; intros frames d top s Hc Hanc Hnd Hmiss Htop Hlen.
  - simpl in Hanc. subst top. destruct frames as [|n]; [simpl in Hlen; lia|].
    exists (env s). simpl. rewrite app_nil_r. split; [|reflexivity].
    destruct Htop as [-> | [-> | Hex]];
      [now destruct s | now destruct s |].
    destruct (String.eqb d "" || String.eqb d "/") eqn:Hroot.
    + unfold ret. now destruct s.
    + unfold try_except_not_found, bind, the_sftp, call. rewrite Hc.
      rewrite (stat_present (is_remote := is_remote) c d (env s) Hex). reflexivity.
  - simpl in Hanc. destruct Hanc as (-> & Hne1 & Hne2 & Hanc).
    destruct frames as [|n]; [simpl in Hlen; lia|]. simpl in Hlen.
    inversion Hnd as [|? ? Hnotin Hnd']; subst.
    inversion Hmiss as [|? ? Hd Hmiss']; subst.
    simpl.
    assert (String.eqb d "" || String.eqb d "/" = false) as ->.
    { apply orb_false_iff. split; now apply String.eqb_neq. }
    destruct (stat_absent (is_remote := is_remote) c d (env s) Hd) as (msg & Hstat).
    unfold try_except_not_found.
    replace ((c0 <- the_sftp "stat";; call (SFTP_stat c0 d)) s)
      with (@Thrown unit (FileNotFoundError msg), mkH (self s) (env s) (trace s)).
    2:{ unfold bind, the_sftp, call. rewrite Hc, Hstat. reflexivity. }
    assert (exists e1,
      (if negb (String.eqb (os_path_dirname d) "")
       then _ensure_remote_dir n (os_path_dirname d)
       else ret tt) (mkH (self s) (env s) (trace s))
      = (Done tt,
         mkH (self s) e1
             (trace s ++ map (fun m => INFO ("Created remote directory: " ++ m))
                             (rev rest)))
      /\ (forall q, is_remote q e1
                    = existsb (String.eqb q) rest || is_remote q (env s))
      /\ (os_path_dirname d = "" \/ os_path_dirname d = "/"
          \/ is_remote (os_path_dirname d) e1 = true)) as (e1 & Hrec & Hsame & Hparent).
    { destruct rest as [|m' rest'].
      - simpl in Hanc. rewrite Hanc.
        destruct (String.eqb top "") eqn:Htop0; simpl.
        + exists (env s). rewrite app_nil_r.
          split; [reflexivity|]. split; [reflexivity|].
          left. now apply String.eqb_eq.
        + assert (Datatypes.length (@nil string) < n)%nat as Hlen' by lia.
          destruct (IH n top top (mkH (self s) (env s) (trace s))
                      Hc eq_refl Hnd' Hmiss' Htop Hlen')
            as (e1 & Hrun & Hq).
          exists e1. simpl in Hrun. split; [exact Hrun|]. split; [exact Hq|].
          destruct Htop as [-> | [-> | Hex]]; auto.
          right. right. rewrite Hq. simpl. exact Hex.
      - assert (os_path_dirname d = m') as Hm' by (simpl in Hanc; now destruct Hanc).
        assert (m' <> "") as Hne by (simpl in Hanc; destruct Hanc as (-> & ? & _); auto).
        rewrite Hm'. apply String.eqb_neq in Hne. rewrite Hne. simpl negb. cbv iota.
        rewrite Hm' in Hanc.
        assert (Datatypes.length (m' :: rest') < n)%nat as Hlen' by lia.
        destruct (IH n m' top (mkH (self s) (env s) (trace s))
                    Hc Hanc Hnd' Hmiss' Htop Hlen')
          as (e1 & Hrun & Hq).
        exists e1. split; [exact Hrun|]. split; [exact Hq|].
        right. right. rewrite Hq. simpl. now rewrite String.eqb_refl. }
    assert (is_remote d e1 = false) as Hd1.
    { rewrite Hsame, Hd, orb_false_r.
      apply not_true_is_false. intros Hin. apply existsb_exists in Hin.
      destruct Hin as (x & Hin & Hx). apply String.eqb_eq in Hx. now subst x. }
    destruct (mkdir_child (is_remote := is_remote) c d e1 Hd1 Hparent)
      as (e2 & Hmk & Hq2).
    exists e2. split.
    + unfold bind at 1. rewrite Hrec.
      unfold bind, the_sftp, call, info. simpl. rewrite Hc. simpl.
      rewrite Hmk. simpl.
      now rewrite map_app, app_assoc.
    + intros q. rewrite Hq2, Hsame. simpl. now rewrite orb_assoc.
Qed.

End Facts.
End HandlerFacts.

Lemma sample_server_laws :
  Handler.ServerLaws SampleServer.transport SampleServer.on_server.
Proof.
  split; unfold SampleServer.on_server; simpl.
  - intros _ p e H. now rewrite H.
  - intros _ p e H. rewrite H. eexists. reflexivity.
  - intros _ p e H Hparent. rewrite H.
    assert (SampleServer.parent_present p e = true) as ->.
    { unfold SampleServer.parent_present.
      destruct Hparent as [-> | [-> | ->]]; simpl; auto using orb_true_r. }
    eexists. split; [reflexivity|]. intros q. reflexivity.
Qed.

Section HandlerProperties.
Import Handler.
Context {T : Transport}.

(** X21: no exception leaves [connect], [upload_file], [download_file],
    [delete_file], [list_files] or [file_exists]: whatever the library
    calls beneath them do, each returns a value. *)
Theorem handler_operations_never_raise (s : HState) (l r : string) (p : bool) :
  (exists b s', connect s = (Done b, s'))
  /\ (exists b s', upload_file l r p s = (Done b, s'))
  /\ (exists b s', download_file r l p s = (Done b, s'))
  /\ (exists b s', delete_file r s = (Done b, s'))
  /\ (exists names s', list_files r s = (Done names, s'))
  /\ (exists b s', file_exists r s = (Done b, s')).
Proof.
  split; [apply HandlerFacts.connect_returns|].
  split; [apply HandlerFacts.upload_file_returns|].
  split; [apply HandlerFacts.download_file_returns|].
  split; [apply HandlerFacts.delete_file_returns|].
  split; [apply HandlerFacts.list_files_returns|].
  apply HandlerFacts.file_exists_returns.
Qed.

(** X22: on a handler that has no SFTP client (never connected, or the
    connection failed) every operation fails softly: the transfers and the
    removal return [False], the listing is empty and [file_exists] answers
    [False]; the last three leave the environment alone and log the
    attribute error of [None]. *)
Theorem operations_without_connection (s : HState) (l r : string) (p : bool) :
  sftp_client (self s) = None ->
  fst (upload_file l r p s) = Done false
  /\ fst (download_file r l p s) = Done false
  /\ delete_file r s
     = (Done false,
        mkH (self s) (env s)
            (trace s ++ [ERROR "Deletion failed: 'NoneType' object has no attribute 'remove'"]))
  /\ list_files r s
     = (Done [],
        mkH (self s) (env s)
            (trace s ++ [ERROR "Failed to list files: 'NoneType' object has no attribute 'listdir'"]))
  /\ file_exists r s
     = (Done false,
        mkH (self s) (env s)
            (trace s ++ [ERROR "Error checking file existence: 'NoneType' object has no attribute 'stat'"])).
Proof.
  intros Hnone.
  split; [now apply HandlerFacts.upload_without_channel|].
  split; [now apply HandlerFacts.download_without_channel|].
  split; [|split].
  - unfold delete_file, try_except, bind.
    now rewrite HandlerFacts.the_sftp_none.
  - unfold list_files, try_except, bind.
    now rewrite HandlerFacts.the_sftp_none.
  - unfold file_exists, try_except, bind.
    now rewrite HandlerFacts.the_sftp_none.
Qed.

(** X23: [_ensure_remote_dir] creates exactly the missing ancestors, the
    outermost first. On a server where [stat] finds what exists and [mkdir]
    creates a missing directory under an existing one: when [missing] lists
    [d] and its ancestors up to [top], none of them exists, [top] is empty,
    the root or an existing directory, and the stack has a frame for each,
    the call returns, the directories that exist afterwards are those of
    before and those of [missing], and one line is logged for each in the
    order of creation. *)
Theorem ensure_remote_dir_creates_missing is_remote
    (L : ServerLaws T is_remote) (c : Channel) (missing : list string)
    (frames : nat) (d top : string) (s : HState) :
  sftp_client (self s) = Some c ->
  ancestry d missing top ->
  NoDup missing ->
  Forall (fun m => is_remote m (env s) = false) missing ->
  top = "" \/ top = "/" \/ is_remote top (env s) = true ->
  (length missing < frames)%nat ->
  exists e',
    _ensure_remote_dir frames d s
    = (Done tt,
       mkH (self s) e'
           (trace s ++ map (fun m => INFO ("Created remote directory: " ++ m))
                           (rev missing)))
    /\ forall q, is_remote q e' = existsb (String.eqb q) missing || is_remote q (env s).
Proof. apply HandlerFacts.ensure_remote_dir_missing; assumption. Qed.

End HandlerProperties.

Lemma operations_without_connection_witness :
  let s := Handler.mkH SampleServer.fresh SampleServer.disk [] in
  Handler.sftp_client (Handler.self s) = None
  /\ fst (Handler.upload_file "report.txt" "/srv/report.txt" false s)
     = Handler.Done false.
Proof.
  split; [reflexivity|].
  apply (operations_without_connection (T := SampleServer.transport)
           (Handler.mkH SampleServer.fresh SampleServer.disk [])
           "report.txt" "/srv/report.txt" false).
  reflexivity.
Defined.

Lemma ensure_remote_dir_creates_missing_witness :
  let s := Handler.mkH SampleServer.live SampleServer.disk [] in
  exists e',
    fst (Handler._ensure_remote_dir 4 "/srv/in/2024" s) = Handler.Done tt
    /\ snd (Handler._ensure_remote_dir 4 "/srv/in/2024" s)
       = Handler.mkH SampleServer.live e'
           [INFO "Created remote directory: /srv/in";
            INFO "Created remote directory: /srv/in/2024"]
    /\ SampleServer.on_server "/srv/in/2024" e' = true.
Proof.
  destruct (ensure_remote_dir_creates_missing (T := SampleServer.transport)
              SampleServer.on_server sample_server_laws tt
              ["/srv/in/2024"; "/srv/in"] 4 "/srv/in/2024" "/srv"
              (Handler.mkH SampleServer.live SampleServer.disk []))
    as (e' & Hrun & Hq).
  - reflexivity.
  - vm_compute. repeat split; discriminate.
  - repeat constructor; simpl; intuition discriminate.
  - repeat constructor.
  - right. right. reflexivity.
  - simpl. lia.
  - exists e'. rewrite Hrun. simpl. repeat split. rewrite Hq. reflexivity.
Defined.

(** * Properties of the console's executor *)

Section ExecutorFacts.
Import Handler.
Context {T : Transport}.

Lemma ensure_connection_true (c c1 : Console) :
  ensure_connection c = (Done true, c1) -> connected c1 = true.
Proof.
  unfold ensure_connection, console_log, get_connection_details, on_handler.
  destruct (connected c) eqn:Hc; [intros H; inversion H; now subst|].
  simpl.
  destruct (winscp_handler c) as [h|]; simpl.
  - destruct (connect _) as [[[|]|e] s1]; simpl; intros H; inversion H; reflexivity.
  - destruct (connection_details c) as [[d|e]|]; simpl; try discriminate.
    destruct (connect _) as [[[|]|e] s1]; simpl; intros H; inversion H; reflexivity.
Qed.

Lemma on_handler_true name (op : HM bool) (c1 c2 : Console) :
  keeps_self op ->
  (forall s, sftp_client (self s) = None -> fst (op s) = Done false) ->
  on_handler name op c1 = (Done true, c2) ->
  connected c2 = connected c1
  /\ exists h ch, winscp_handler c2 = Some h /\ sftp_client h = Some ch.
Proof.
  intros Hkeeps Hnone. unfold on_handler.
  destruct (winscp_handler c1) as [h|]; [|discriminate].
  specialize (Hkeeps (mkH h (cenv c1) (ctrace c1))).
  specialize (Hnone (mkH h (cenv c1) (ctrace c1))).
  destruct (op _) as [r s]. intros H. inversion H; subst. simpl in *.
  split; [reflexivity|].
  destruct (sftp_client h) as [ch|] eqn:Hch.
  - exists (self s), ch. split; [reflexivity|]. now rewrite Hkeeps.
  - specialize (Hnone eq_refl). discriminate.
Qed.

Lemma executor_true (task : ScheduledTask) (c c' : Console) :
  execute_scheduled_task task c = (true, c') ->
  connected c' = true
  /\ exists h ch, winscp_handler c' = Some h /\ sftp_client h = Some ch.
Proof.
  unfold execute_scheduled_task, console_log.
  destruct (ensure_connection c) as [[[|]|e] c1] eqn:Hens; try discriminate.
  apply ensure_connection_true in Hens.
  assert (forall name op c2,
            keeps_self op ->
            (forall s, sftp_client (self s) = None -> fst (op s) = Done false) ->
            match on_handler name op c1 with
            | (Done b, c3) => (b, c3)
            | (Thrown e, c3) => (false, c2 e c3)
            end = (true, c') ->
            connected c' = true
            /\ exists h ch, winscp_handler c' = Some h /\ sftp_client h = Some ch)
    as Hop.
  { intros name op c2 Hk Hn H.
    destruct (on_handler name op c1) as [[b|e] c3] eqn:Hrun; [|discriminate].
    inversion H; subst.
    destruct (on_handler_true name op c1 c' Hk Hn Hrun) as (Hconn & Hch).
    split; [congruence | exact Hch]. }
  destruct (task_type task); eapply Hop.
  - apply HandlerFacts.keeps_upload_file.
  - intros s. apply HandlerFacts.upload_without_channel.
  - apply HandlerFacts.keeps_download_file.
  - intros s. apply HandlerFacts.download_without_channel.
  - apply HandlerFacts.keeps_delete_file.
  - intros s. apply HandlerFacts.delete_without_channel.
Qed.

End ExecutorFacts.

Section ExecutorProperties.
Import Handler.
Context {T : Transport}.

(** X24: the executor authenticates by password only. When it has to
    build the handler itself, the private key path and the protocol of the
    configuration make no difference to what it does. *)
Theorem executor_ignores_key_and_protocol (task : ScheduledTask) (e : Env)
    (tr : list LogRecord) (d : ConnDetails) (other_protocol other_key : string) :
  let d' := mkDetails other_protocol (cd_host d) (cd_port d) (cd_username d)
                      (cd_password d) other_key in
  let r := execute_scheduled_task task (mkConsole false None (Some (Done d)) e tr) in
  let r' := execute_scheduled_task task (mkConsole false None (Some (Done d')) e tr) in
  fst r = fst r'
  /\ connected (snd r) = connected (snd r')
  /\ winscp_handler (snd r) = winscp_handler (snd r')
  /\ cenv (snd r) = cenv (snd r')
  /\ ctrace (snd r) = ctrace (snd r').
Proof.
  cbv zeta.
  unfold execute_scheduled_task, ensure_connection, get_connection_details,
    console_log, on_handler. simpl.
  destruct (connect _) as [[[|]|ex] s1]; simpl; auto 6.
  destruct (task_type task); simpl;
    match goal with |- context [match ?op ?s with _ => _ end] =>
      destruct (op s) as [[b|ex] s2] end; simpl; auto 6.
Qed.

(** X25: the executor answers [True] only over a live channel: when
    [execute_scheduled_task] returns [True], the console is marked
    connected and its handler holds an SFTP client. *)
Theorem executor_success_needs_channel (task : ScheduledTask) (c c' : Console) :
  execute_scheduled_task task c = (true, c') ->
  connected c' = true
  /\ exists h ch, winscp_handler c' = Some h /\ sftp_client h = Some ch.
Proof. apply executor_true. Qed.

End ExecutorProperties.

Lemma executor_success_needs_channel_witness :
  exists c',
    Handler.execute_scheduled_task SampleServer.report SampleServer.console
    = (true, c')
    /\ Handler.connected c' = true
    /\ Handler.cenv c'
       = SampleServer.mkDisk
           ["/srv/in/2024/report.txt"; "/srv/in/2024"; "/srv/in"; "/srv"]
           ["report.txt"].
Proof.
  eexists. split; [vm_compute; reflexivity|].
  split; [|reflexivity].
  refine (proj1 (executor_success_needs_channel (T := SampleServer.transport)
                   SampleServer.report SampleServer.console _ _)).
  vm_compute. reflexivity.
Defined.

(** X26: with the console's executor, what went wrong in a transfer never
    reaches the task. The executor turns every exception into [False], so
    a task the scheduler marks failed carries the fixed text
    [Task execution failed], or the overflow of its rescheduling; the
    reason is in the log only. *)
Theorem transfer_errors_stay_in_log {P : Platform} {T : Handler.Transport}
    (st : @State (with_console P T)) (k : string) (task : ScheduledTask) :
  task_executor st = Some (console_executor P T) ->
  Dict.get k (tasks st) = Some task ->
  exists task',
    Dict.get k (tasks (snd (_execute_task k task st))) = Some task'
    /\ (status task' = FAILED ->
        error_message task' = "Task execution failed"
        \/ error_message task'
           = @overflow_text P (@clock P (S (ticks st))) (interval_minutes task)).
Proof.
  intros Hex Hget.
  destruct (Handler.execute_scheduled_task (with_status RUNNING task) (world st))
    as [b w] eqn:Hrun.
  assert (console_executor P T (with_status RUNNING task) (world st) = (Ok b, w))
    as Hanswer.
  { unfold console_executor. now rewrite Hrun. }
  rewrite (execute_task_outcome (P := with_console P T) k task st _ (Ok b) w
             Hex Hanswer Hget).
  eexists. split; [reflexivity|].
  unfold task_after. destruct b; simpl; [|auto].
  destruct (recurring task && (interval_minutes task >? 0)); simpl;
    [|discriminate].
  unfold plus_minutes.
  match goal with |- context [if ?b then _ else _] => destruct b end; simpl;
    [discriminate | auto].
Qed.

Lemma transfer_errors_stay_in_log_witness :
  let st := SampleServer.scheduler in
  let st' := snd (_execute_task "7f3c2a9e-cleanup" SampleServer.cleanup st) in
  option_map status (Dict.get "7f3c2a9e-cleanup" (tasks st')) = Some FAILED
  /\ In (ERROR "Deletion failed: [Errno 2] No such file") (Handler.ctrace (world st'))
  /\ exists task',
       Dict.get "7f3c2a9e-cleanup" (tasks st') = Some task'
       /\ (status task' = FAILED ->
           error_message task' = "Task execution failed"
           \/ error_message task' = "date value out of range").
Proof.
  split; [vm_compute; reflexivity|].
  split; [vm_compute; tauto|].
  apply (transfer_errors_stay_in_log (P := Sample.platform)
           (T := SampleServer.transport) SampleServer.scheduler
           "7f3c2a9e-cleanup" SampleServer.cleanup); reflexivity.
Defined.

(** * Properties of the console's [remove_task] *)

Section ConsoleRemoveFacts.
Context {P : Platform}.

Lemma prefix_refl (s : string) : String.prefix s s = true.
Proof.
  induction s as [|a s IH]; simpl; [reflexivity|].
  destruct (ascii_dec a a); [exact IH | congruence].
Qed.

(** The equality test of the loop adds nothing to its [startswith]. *)
Lemma equal_or_prefix (id typed : string) :
  String.eqb id typed || String.prefix typed id = String.prefix typed id.
Proof.
  destruct (String.eqb_spec id typed) as [->|_]; simpl; [|reflexivity].
  now rewrite prefix_refl.
Qed.

Lemma keyed_values_mem (d : Dict.t ScheduledTask) (t : ScheduledTask) :
  keyed_by_id d -> In t (Dict.values d) -> Dict.mem (task_id t) d = true.
Proof.
  unfold keyed_by_id, Dict.mem.
  induction d as [|[k v] d IH]; simpl; [tauto|].
  intros Hk [->|Hin]; inversion Hk as [|? ? Hhead Htail]; subst; simpl in *.
  - now rewrite Hhead, String.eqb_refl.
  - destruct (String.eqb (task_id t) k); [reflexivity | now apply IH].
Qed.

Lemma remove_task_present (st : State) (id : string) :
  Dict.mem id (tasks st) = true ->
  exists st', remove_task id st = (Ok true, st')
              /\ tasks st' = Dict.del id (tasks st).
Proof.
  intros Hmem. unfold remove_task. unfold_monad. rewrite Hmem. simpl.
  destruct (write_error st) as [[?|? ?]|]; simpl; eexists; split; reflexivity.
Qed.

Lemma remove_first_match_finds (typed : string) : forall candidates (st : State),
  (forall t, In t candidates -> Dict.mem (task_id t) (tasks st) = true) ->
  match find (fun t => String.prefix typed (task_id t)) candidates with
  | None => remove_first_match typed candidates st = (Ok TaskNotFound, st)
  | Some t =>
      exists st',
        remove_first_match typed candidates st
        = (Ok (TaskRemoved (str_prefix 8 (task_id t))), st')
        /\ tasks st' = Dict.del (task_id t) (tasks st)
  end.
Proof.
  induction candidates as [|t rest IH]; intros st Hmem; simpl; [reflexivity|].
  rewrite equal_or_prefix.
  destruct (String.prefix typed (task_id t)) eqn:Hp.
  - destruct (remove_task_present st (task_id t)) as (st' & Hrm & Htasks).
    { apply Hmem. now left. }
    exists st'. unfold bind. rewrite Hrm. split; [reflexivity | exact Htasks].
  - apply IH. intros t' Hin. apply Hmem. now right.
Qed.

End ConsoleRemoveFacts.

(** X27: the console removes the first task, in insertion order, whose id
    starts with what was typed, and reports its first eight characters
    ([task_id[:8]]: characters, however many bytes encode them);
    when no id starts with it, nothing is touched. On a store keyed by the
    task ids the removal it asks for never fails. *)
Theorem console_remove_first_match {P : Platform} (st : State) (typed : string) :
  keyed_by_id (tasks st) ->
  match find (fun t => String.prefix typed (task_id t)) (Dict.values (tasks st)) with
  | None => console_remove_task (Some st) typed = (Ok TaskNotFound, Some st)
  | Some t =>
      exists st',
        console_remove_task (Some st) typed
        = (Ok (TaskRemoved (str_prefix 8 (task_id t))), Some st')
        /\ tasks st' = Dict.del (task_id t) (tasks st)
  end.
Proof.
  intros Hk. unfold console_remove_task, get_all_tasks. unfold_monad.
  pose proof (remove_first_match_finds typed (Dict.values (tasks st)) st
                (fun t => keyed_values_mem (tasks st) t Hk)) as H.
  destruct (find _ _) as [t|].
  - destruct H as (st' & Hrun & Htasks). exists st'. now rewrite Hrun.
  - now rewrite H.
Qed.

Lemma console_remove_first_match_witness :
  let st := Sample.accented in
  let typed := Sample.e_acute ++ "t" in
  keyed_by_id (tasks st)
  /\ exists st',
       console_remove_task (P := Sample.platform) (Some st) typed
       = (Ok (TaskRemoved (Sample.e_acute ++ "t" ++ Sample.e_acute ++ "-2024")),
          Some st')
       /\ Dict.keys (tasks st') = ["a"].
Proof.
  assert (keyed_by_id (tasks Sample.accented)) as Hk by (repeat constructor).
  split; [exact Hk|].
  pose proof (console_remove_first_match (P := Sample.platform)
                Sample.accented (Sample.e_acute ++ "t") Hk) as H.
  change (exists st',
            console_remove_task (P := Sample.platform)
              (Some Sample.accented) (Sample.e_acute ++ "t")
            = (Ok (TaskRemoved
                     (Sample.e_acute ++ "t" ++ Sample.e_acute ++ "-2024")),
               Some st')
            /\ tasks st' = [("a", Sample.upload "a" false 0)]) in H.
  destruct H as (st' & Hrun & Htasks).
  exists st'. split; [exact Hrun|]. rewrite Htasks. reflexivity.
Defined.

(** X28: an empty answer at the prompt removes the oldest task: every id
    starts with the empty text, so the loop stops at the first task of the
    store. *)
Theorem console_remove_empty_input {P : Platform} (st : State) (k : string)
    (t : ScheduledTask) (rest : Dict.t ScheduledTask) :
  tasks st = (k, t) :: rest ->
  keyed_by_id (tasks st) ->
  exists st',
    console_remove_task (Some st) ""
    = (Ok (TaskRemoved (str_prefix 8 k)), Some st')
    /\ tasks st' = rest.
Proof.
  intros Htasks Hk. unfold console_remove_task, get_all_tasks. unfold_monad.
  pose proof (remove_first_match_finds "" (Dict.values (tasks st)) st
                (fun t => keyed_values_mem (tasks st) t Hk)) as H.
  assert (task_id t = k) as Hid.
  { unfold keyed_by_id in Hk. rewrite Htasks in Hk.
    now inversion Hk. }
  assert (forall id, String.prefix "" id = true) as Hempty by (now intros []).
  rewrite Htasks in H. simpl in H. rewrite Hempty in H.
  destruct H as (st' & Hrun & Hdel). exists st'.
  rewrite Hid, String.eqb_refl in Hdel.
  rewrite Htasks. simpl. rewrite Hempty. rewrite Hid in *.
  now rewrite Hrun.
Qed.

Lemma console_remove_empty_input_witness :
  let st := Sample.state_of Sample.three_tasks None None None in
  exists st',
    console_remove_task (P := Sample.platform) (Some st) ""
    = (Ok (TaskRemoved "a"), Some st')
    /\ Dict.keys (tasks st') = ["b"; "c"].
Proof.
  pose proof (console_remove_empty_input (P := Sample.platform)
                (Sample.state_of Sample.three_tasks None None None)) as H.
  destruct (H _ _ _ eq_refl) as (st' & Hrun & Htasks); [repeat constructor|].
  exists st'. split; [exact Hrun|]. rewrite Htasks. reflexivity.
Defined.

(** * What [connect] leaves behind *)

Section ConnectProperties.
Import Handler.
Context {T : Transport}.


End ConnectProperties.


(** * An offset-aware [next_run] *)

Section AwareNextRun.
Context {P : Platform}.

Lemma later_slots_not_entered {V} (pre post : Dict.t V) k (v : V) sel k' :
  NoDup (Dict.keys (pre ++ (k, v) :: post)%list) ->
  (forall k0, In k0 sel -> In k0 (Dict.keys pre)) ->
  In k' (k :: Dict.keys post) -> ~ In k' sel.
Proof.
  intros Hnd Hsub Hin Hsel. apply Hsub in Hsel.
  unfold Dict.keys in Hnd, Hin, Hsel. rewrite map_app in Hnd. simpl in Hnd.
  destruct Hin as [<-|Hin].
  - apply NoDup_remove_2 in Hnd. apply Hnd. apply in_or_app. now left.
  - clear - Hnd Hin Hsel.
    induction (map fst pre) as [|x xs IH]; [contradiction|].
    simpl in Hnd. inversion Hnd as [|? ? Hx Hnd']; subst.
    destruct Hsel as [->|Hsel]; [|auto].
    apply Hx. apply in_or_app. right. now right.
Qed.

(** A record whose [next_run] is a text loads with the datetime that
    [fromisoformat] makes of the text, aware if the text carries an
    offset. *)
Lemma next_run_loads_as_parsed (data : json) (text : string)
    (loaded : ScheduledTask) (s : State) :
  fst (from_dict data s) = Ok loaded ->
  get_or data "next_run" JNull = JStr text -> text <> "" ->
  exists d, fromisoformat text = Ok d /\ next_run loaded = Some d.
Proof.
  unfold from_dict, ScheduledTask_init. unfold_monad.
  intros H Hget Hne.
  assert (subscript data "next_run" = Ok (JStr text)) as Hsub.
  { unfold get_or in Hget. unfold subscript.
    destruct data as [| | | | |fields]; try discriminate.
    destruct (Dict.get "next_run" fields); [now subst | discriminate]. }
  unfold opt_fromisoformat in H at 2. rewrite Hget, Hsub in H. simpl in H.
  apply String.eqb_neq in Hne. rewrite Hne in H. simpl in H.
  destruct (fromisoformat text) as [d|e] eqn:Hparse.
  - exists d. split; [reflexivity|].
    repeat match type of H with
           | context [match ?x with Ok _ => _ | Raise _ => _ end] =>
               destruct x; simpl in H; try discriminate
           end.
    injection H as <-. reflexivity.
  - exfalso.
    repeat match type of H with
           | context [match ?x with Ok _ => _ | Raise _ => _ end] =>
               destruct x; simpl in H; try discriminate
           end.
Qed.

End AwareNextRun.

(** X30: a pending task whose [next_run] is aware of a UTC offset stops
    the scan. When the tasks before it can be compared, the scan raises
    the [TypeError] of comparing it with the naive clock reading; neither
    that task nor any task placed after it in the store is handed to
    [_execute_task] in that cycle; however many turns the loop takes, that
    task is never handed over and the loop never sleeps. Such a task is
    what [from_dict] builds from a record whose [next_run] is a text that
    [fromisoformat] reads as an aware datetime. *)
Theorem aware_next_run_aborts_scan {P : Platform} (st : State) pre k t post
    d offset :
  keys_distinct (tasks st) ->
  tasks st = (pre ++ (k, t) :: post)%list ->
  pending_comparable pre ->
  status t = PENDING -> next_run t = Some (Aware d offset) ->
  let st' := snd (_check_and_execute_tasks st) in
  fst (_check_and_execute_tasks st)
  = Raise "can't compare offset-naive and offset-aware datetimes"
  /\ (forall k', In k' (k :: Dict.keys post) ->
                 ~ In k' (selected_between st st'))
  /\ (forall turns,
        ~ In k (selected_between st
                  (outcome_state (_scheduler_loop turns st)))
        /\ slept (outcome_state (_scheduler_loop turns st)) = slept st)
  /\ (forall data text loaded s,
        fst (from_dict data s) = Ok loaded ->
        get_or data "next_run" JNull = JStr text -> text <> "" ->
        fromisoformat text = Ok (Aware d offset) ->
        next_run loaded = Some (Aware d offset)).
Proof.
  intros Hnd Hsplit Hpre Hp Hn st'. subst st'.
  assert (incomparable t) as Hinc by (unfold incomparable; now rewrite Hn).
  assert (Dict.get k (tasks st) = Some t) as Hget.
  { apply DictFacts.in_get; [exact Hnd|]. rewrite Hsplit.
    apply in_or_app. right. now left. }
  split; [|split; [|split]].
  - rewrite scan_unfold, Hsplit.
    destruct (scan_aborts (clock (ticks st)) k t post pre
                (set_ticks (S (ticks st)) st))
      as (e & st2 & sel & Hrun & _ & _ & _ & k0 & t0 & Hin0 & Hp0 & Hle0); auto.
    { rewrite <- Hsplit. exact Hnd. }
    { rewrite <- Hsplit. simpl. intros k' t' Hin. now apply DictFacts.in_get. }
    rewrite Hrun. simpl. f_equal.
    apply in_app_or in Hin0. destruct Hin0 as [Hin0|[E|[]]].
    + unfold pending_comparable in Hpre. rewrite Forall_forall in Hpre.
      destruct (Hpre _ Hin0 Hp0) as (at_ & Hat). simpl in Hat.
      rewrite Hat in Hle0. discriminate.
    + injection E as <- <-. rewrite Hn in Hle0. simpl in Hle0. congruence.
  - rewrite scan_unfold, Hsplit.
    destruct (scan_aborts (clock (ticks st)) k t post pre
                (set_ticks (S (ticks st)) st))
      as (e & st2 & sel & Hrun & He & Hsub & _); auto.
    { rewrite <- Hsplit. exact Hnd. }
    { rewrite <- Hsplit. simpl. intros k' t' Hin. now apply DictFacts.in_get. }
    rewrite Hrun. simpl. simpl in He.
    rewrite (selected_between_app st st2 sel He).
    intros k' Hin. apply (later_slots_not_entered pre post k t sel k'); auto.
    unfold keys_distinct in Hnd. now rewrite Hsplit in Hnd.
  - intros turns. split.
    + destruct (loop_absent k t turns st Hnd Hget Hp Hinc) as (sel' & He' & Hnot).
      now rewrite (selected_between_app _ _ sel' He').
    + now apply (incomparable_never_sleeps st k t).
  - intros data text loaded s Hload Hget' Hne Hparse.
    destruct (next_run_loads_as_parsed data text loaded s Hload Hget' Hne)
      as (d' & Hd' & Hnext).
    congruence.
Qed.

Lemma aware_next_run_aborts_scan_witness :
  let st := Sample.with_aware in
  let st' := snd (_check_and_execute_tasks (P := Sample.platform) st) in
  fst (_check_and_execute_tasks (P := Sample.platform) st)
  = Raise "can't compare offset-naive and offset-aware datetimes"
  /\ selected_between st st' = ["a"]
  /\ ~ In "z" (selected_between st st').
Proof.
  assert (keys_distinct (tasks Sample.with_aware)) as Hnd by distinct_keys.
  assert (pending_comparable [("a", Sample.upload "a" false 0)]) as Hpre
    by (repeat constructor; simpl; intros _; eexists; reflexivity).
  pose proof (aware_next_run_aborts_scan (P := Sample.platform)
                Sample.with_aware
                [("a", Sample.upload "a" false 0)] "x"
                (with_next_run
                   (Some (Aware (Sample.start_of_2024 - 1000000) 3600000000))
                   (Sample.upload "x" false 0))
                [("z", Sample.upload "z" false 0)]
                (Sample.start_of_2024 - 1000000) 3600000000
                Hnd eq_refl Hpre eq_refl eq_refl) as [H1 [H2 _]].
  split; [exact H1|]. split; [reflexivity|].
  apply H2. right. now left.
Defined.
